(** * The Vessel: telemetry core of [vessel/vessel.py]

    A shallow embedding of the classes [Fatigue], [PulseEstimator],
    [DirectionTracker], [Pods], [RhythmStore] and of
    [Vessel._detect_pod_adaptive], followed by the properties of the
    specification that were checked against them.

    Conventions of the embedding.
    - A Python [float] / numpy [float64] is a real number of [R]; rounding
      error, [inf] and [nan] are outside the model.
    - A one-dimensional numpy array is a [list R]; numpy's shape checks and
      its broadcasting of length-one arrays are written out.
    - A Python exception is a value [Raise x] of the type [result].  A
      quotient whose divisor is zero has no real value: where numpy would
      answer [inf] or [nan] the model raises [ZeroDivisionError], so that a
      computation that returns [Ok] returns a real number.
    - [numpy.linalg.svd] is not code of the repository; the singular values
      it returns are a parameter [svd] of the [Fatigue] model, [None]
      standing for an exception raised inside the [try] block of [_sc].
    - A Python object is a record, a method is a function from the record
      (and its arguments) to the new record (and the returned value). *)

From Stdlib Require Import String.
From Stdlib Require Import Reals Lra Lia List ZArith Bool Zfloor.
Import ListNotations.
Local Open Scope R_scope.

(* ================================================================= *)
(** * Part I: the program *)
(* ================================================================= *)

(** ** Python values: exceptions, [round], list indexing *)

Module Py.

Inductive exn : Set :=
| IndexError | KeyError | ValueError | ZeroDivisionError | LinAlgError.

Inductive result (A : Type) : Type :=
| Ok (a : A)
| Raise (x : exn).

Arguments Ok {A} a.
Arguments Raise {A} x.

Definition bind {A B : Type} (c : result A) (k : A -> result B) : result B :=
  match c with
  | Ok a => k a
  | Raise x => Raise x
  end.

(** [try: c  except: return h] *)
Definition try_except {A : Type} (c : result A) (h : A) : result A :=
  match c with
  | Ok a => Ok a
  | Raise _ => Ok h
  end.

(** Comparisons of floats as conditions. *)
Definition gt (x y : R) : bool := if Rgt_dec x y then true else false.
Definition lt (x y : R) : bool := if Rlt_dec x y then true else false.
Definition eq (x y : R) : bool := if Req_dec_T x y then true else false.

(** [x / y] on floats. *)
Definition truediv (x y : R) : result R :=
  if eq y 0 then Raise ZeroDivisionError else Ok (x / y).

(** Nearest integer, ties to the even one. *)
Definition round_half_even (y : R) : Z :=
  let f := Zfloor y in
  let r := y - IZR f in
  if Rlt_dec r (1 / 2) then f
  else if Rgt_dec r (1 / 2) then (f + 1)%Z
  else if Z.even f then f else (f + 1)%Z.

(** [round(x, ndigits)] *)
Definition round (x : R) (ndigits : nat) : R :=
  IZR (round_half_even (x * 10 ^ ndigits)) / 10 ^ ndigits.

(** [l[-k]] for [k >= 1]. *)
Definition neg_index {A : Type} (l : list A) (k : nat) : result A :=
  match nth_error (rev l) (k - 1) with
  | Some a => Ok a
  | None => Raise IndexError
  end.

(** [l.pop(0)] as far as the list is concerned. *)
Definition pop0 {A : Type} (l : list A) : list A := tl l.

(** [sum(l)] *)
Definition sum (l : list R) : R := fold_left Rplus l 0.

(** [max(l)] of a non-empty list: the first of the greatest elements. *)
Definition max_list (x : R) (l : list R) : R :=
  fold_left (fun m y => if gt y m then y else m) l x.

(** [l[i]] for [i >= 0]. *)
Definition index {A : Type} (l : list A) (i : nat) : result A :=
  match nth_error l i with
  | Some a => Ok a
  | None => Raise IndexError
  end.

(** [for x in l: acc = body(acc, x)] *)
Fixpoint for_each {A B : Type} (l : list A) (acc : B) (body : B -> A -> result B)
  : result B :=
  match l with
  | [] => Ok acc
  | x :: l' => bind (body acc x) (fun acc' => for_each l' acc' body)
  end.

End Py.

Export Py.

Declare Scope py_scope.
Notation "x <- c ;; k" := (bind c (fun x => k))
  (at level 61, c at next level, right associativity) : py_scope.
Local Open Scope py_scope.

(** ** numpy on one-dimensional arrays *)

Module NP.

Definition ndarray : Type := list R.

Fixpoint zip_with (f : R -> R -> R) (a b : ndarray) : ndarray :=
  match a, b with
  | x :: a', y :: b' => f x y :: zip_with f a' b'
  | _, _ => []
  end.

(** An elementwise binary operation: equal shapes, or one operand of
    length one stretched to the other; anything else does not broadcast. *)
Definition broadcast (f : R -> R -> R) (a b : ndarray) : result ndarray :=
  if Nat.eqb (List.length a) (List.length b) then Ok (zip_with f a b)
  else match a, b with
       | [x], _ => Ok (map (f x) b)
       | _, [y] => Ok (map (fun x => f x y) a)
       | _, _ => Raise ValueError
       end.

Definition sub : ndarray -> ndarray -> result ndarray := broadcast Rminus.
Definition add : ndarray -> ndarray -> result ndarray := broadcast Rplus.

(** [c * a] for a scalar [c]. *)
Definition scale (c : R) (a : ndarray) : ndarray := map (Rmult c) a.

(** [a / c] for a scalar [c]. *)
Definition div_scalar (a : ndarray) (c : R) : result ndarray :=
  if eq c 0 then Raise ZeroDivisionError
  else Ok (map (fun x => x / c) a).

(** [np.sum] *)
Definition sum (a : list R) : R := fold_right Rplus 0 a.

(** [np.dot] *)
Definition dot (a b : ndarray) : result R :=
  if Nat.eqb (List.length a) (List.length b) then Ok (sum (zip_with Rmult a b))
  else Raise ValueError.

(** [np.linalg.norm] *)
Definition norm (a : ndarray) : R := sqrt (sum (map (fun x => x * x) a)).

End NP.

(** ** Configuration constants *)

Definition THETA_SOFT : R := 0.68.
Definition THETA_HARD : R := 0.84.
Definition POD_THETA_HIGH : R := 0.85.
Definition POD_THETA_SOFT : R := 0.50.

Inductive status : Set := fresh | soft | hard.

(** ["hard" if f > h else "soft" if f > s else "fresh"], the expression of
    [Fatigue.score] and of [Vessel.speak]. *)
Definition status_of (f theta_soft theta_hard : R) : status :=
  if gt f theta_hard then hard
  else if gt f theta_soft then soft
  else fresh.

(** ** class Fatigue *)

Module Fatigue.

Record t : Type := mk { w : nat; e : list NP.ndarray; v : list NP.ndarray }.

(** [Fatigue(w)]; the vessel builds [Fatigue()], that is [init 5]. *)
Definition init (w0 : nat) : t := {| w := w0; e := []; v := [] |}.

Definition update (s : t) (x : NP.ndarray) : result t :=
  v1 <- match e s with
        | [] => Ok (v s)
        | _ :: _ => l <- neg_index (e s) 1 ;;
                    d <- NP.sub x l ;;
                    Ok (v s ++ [d])
        end ;;
  let v2 := if Nat.ltb (w s) (List.length v1) then pop0 v1 else v1 in
  let e1 := e s ++ [x] in
  let e2 := if Nat.ltb (w s) (List.length e1) then pop0 e1 else e1 in
  Ok {| w := w s; e := e2; v := v2 |}.

Definition reset (s : t) : t := {| w := w s; e := []; v := [] |}.

Definition _dp (s : t) : result R :=
  if Nat.ltb (List.length (v s)) 2 then Ok 0
  else
    a <- neg_index (v s) 2 ;;
    b <- neg_index (v s) 1 ;;
    let na := NP.norm a in
    let nb := NP.norm b in
    if gt na 0 && gt nb 0
    then d <- NP.dot a b ;; truediv d (na * nb)
    else Ok 0.

Definition _cc (s : t) : result R :=
  if Nat.ltb (List.length (v s)) 3 then Ok 0
  else
    a <- neg_index (v s) 3 ;;
    b <- neg_index (v s) 2 ;;
    c <- neg_index (v s) 1 ;;
    cb <- NP.sub c b ;;
    ba <- NP.sub b a ;;
    dd <- NP.sub cb ba ;;
    let cr := NP.norm dd in
    let bs := NP.norm ba ^ 3 in
    if gt bs 0
    then q <- truediv cr bs ;; truediv 1 (q + 1e-8)
    else Ok 0.

Section WithSvd.

(** The singular values of [np.linalg.svd(np.array(rows), full_matrices=False)];
    [None] when the call (or the construction of the matrix) raises. *)
Variable svd : list NP.ndarray -> option (list R).

Definition _sc (s : t) : result R :=
  if Nat.ltb (List.length (e s)) 2 then Ok 0
  else
    try_except
      (match svd (e s) with
       | None => Raise LinAlgError
       | Some sv =>
           let tot := NP.sum sv in
           if gt tot 0
           then truediv (NP.sum (firstn (Nat.min 3 (List.length sv)) sv)) tot
           else Ok 0
       end)
      0.

(** The components dictionary, in the order of the literal. *)
Definition components : Type := list (string * R).

Definition score (s : t) : result (R * components * status) :=
  if Nat.ltb (List.length (e s)) 2 then Ok (0, [], fresh)
  else
    dp <- _dp s ;;
    sc <- _sc s ;;
    cc <- _cc s ;;
    let f := Rmax 0 (Rmin 1 (0.35 * dp + 0.35 * sc + 0.3 * cc)) in
    let st := status_of f THETA_SOFT THETA_HARD in
    Ok (round f 4,
        [("dp"%string, round dp 4); ("sc"%string, round sc 4); ("cc"%string, round cc 4)],
        st).

End WithSvd.

(** A session on one object.  A call of [update] that raises does so in
    [e - s.e[-1]], before the first [append]: the object is what it was. *)
Inductive op : Type :=
| Update (x : NP.ndarray)
| Reset.

Definition call (s : t) (o : op) : t :=
  match o with
  | Update x => match update s x with
                | Ok s' => s'
                | Raise _ => s
                end
  | Reset => reset s
  end.

Definition run (s : t) (ops : list op) : t := fold_left call ops s.

(** [update] called on each embedding of [xs] in turn. *)
Definition calls (s : t) (xs : list NP.ndarray) : t := run s (map Update xs).

(** [e[i+1] - e[i]] for the stored embeddings, in order. *)
Fixpoint deltas (l : list NP.ndarray) : list (result NP.ndarray) :=
  match l with
  | x :: ((y :: _) as l') => NP.sub y x :: deltas l'
  | _ => []
  end.

(** The fatigue returned by [score()] after each call of the session
    [update(x1); score(); update(x2); score(); ...]. *)
Fixpoint trace (svd : list NP.ndarray -> option (list R)) (s : t)
  (xs : list NP.ndarray) : list (result (R * components * status)) :=
  match xs with
  | [] => []
  | x :: xs' => let s' := call s (Update x) in score svd s' :: trace svd s' xs'
  end.

(** The singular values of a matrix of rank at most one (every row a
    multiple of one vector): its Frobenius norm, then zeros, as many
    values as the smaller of its two dimensions.  In exact arithmetic this
    is what [np.linalg.svd] returns for the window of a repeated embedding. *)
Definition svd_rank_one (rows : list NP.ndarray) : option (list R) :=
  Some (sqrt (NP.sum (map (fun r => NP.sum (map (fun x => x * x) r)) rows))
        :: repeat 0 (Nat.min (List.length rows) (List.length (hd [] rows)) - 1)).

(** Singular values are not negative. *)
Definition svd_nonneg (svd : list NP.ndarray -> option (list R)) : Prop :=
  forall rows sv, svd rows = Some sv -> Forall (fun x => 0 <= x) sv.

End Fatigue.

(** ** class PulseEstimator *)

Module PulseEstimator.

Record t : Type := mk {
  w_L : R;
  w_M : R;
  w_N : R;
  w_D : R;
  smoothing : R;
  tau : R;
  last_time : option R;
  last_user_emb : option NP.ndarray;
  prev_user_emb : option NP.ndarray
}.

Definition init : t :=
  {| w_L := 0.45; w_M := 0.15; w_N := 0.25; w_D := 0.15;
     smoothing := 0.7; tau := 0.5;
     last_time := None; last_user_emb := None; prev_user_emb := None |}.

(** L_t: turn latency, [phi(L) = e^(-L/30)]. *)
Definition phi_L (s : t) (timestamp : R) : R :=
  match last_time s with
  | Some lt0 => let latency := timestamp - lt0 in exp (- latency / 30)
  | None => 0.5
  end.

(** M_t: normalized message length. *)
Definition M_t (msg : string) : R :=
  Rmin (INR (String.length msg) / 500) 1.

(** N_t: semantic novelty. *)
Definition N_t (s : t) (emb : NP.ndarray) : result R :=
  match last_user_emb s with
  | Some last =>
      let na := NP.norm emb in
      let nb := NP.norm last in
      if gt na 0 && gt nb 0
      then d <- NP.dot emb last ;;
           cos_sim <- truediv d (na * nb) ;;
           Ok (1 - Rmax 0 cos_sim)
      else Ok 0.5
  | None => Ok 0.5
  end.

(** D_t: directional change. *)
Definition D_t (s : t) (emb : NP.ndarray) : result R :=
  match prev_user_emb s, last_user_emb s with
  | Some prev, Some last =>
      v_prev <- NP.sub last prev ;;
      v_curr <- NP.sub emb last ;;
      let na := NP.norm v_prev in
      let nb := NP.norm v_curr in
      if gt na 0 && gt nb 0
      then d <- NP.dot v_prev v_curr ;;
           cos_ang <- truediv d (na * nb) ;;
           Ok (1 - Rmax 0 cos_ang)
      else Ok 0.5
  | _, _ => Ok 0.5
  end.

(** The weighted sum fed to the sigmoid. *)
Definition z_of (s : t) (phi m n d : R) : R :=
  w_L s * phi + w_M s * m + w_N s * n + w_D s * d.

(** [update(msg, emb, timestamp)]; [timestamp] is the effective one (the
    clock reading when the caller passes none).  Returns the new object
    and the returned pulse. *)
Definition update (s : t) (msg : string) (emb : NP.ndarray) (timestamp : R)
  : result (t * R) :=
  let phi := phi_L s timestamp in
  let m := M_t msg in
  n <- N_t s emb ;;
  d <- D_t s emb ;;
  let z := z_of s phi m n d in
  raw_tau <- truediv 1 (1 + exp (- z)) ;;
  let tau' := smoothing s * raw_tau + (1 - smoothing s) * tau s in
  Ok ({| w_L := w_L s; w_M := w_M s; w_N := w_N s; w_D := w_D s;
         smoothing := smoothing s;
         tau := tau';
         last_time := Some timestamp;
         last_user_emb := Some emb;
         prev_user_emb := last_user_emb s |},
      round tau' 4).

(** [(theta_soft, theta_hard, pod_high, pod_soft)] *)
Definition modulate_thresholds (s : t) : R * R * R * R :=
  let md := 1.2 - 0.4 * tau s in
  (round (Rmin 0.95 (THETA_SOFT * md)) 4,
   round (Rmin 0.98 (THETA_HARD * md)) 4,
   round (Rmin 0.98 (POD_THETA_HIGH * md)) 4,
   round (Rmax 0.30 (POD_THETA_SOFT * (2 - md))) 4).

Definition reset (s : t) : t :=
  {| w_L := w_L s; w_M := w_M s; w_N := w_N s; w_D := w_D s;
     smoothing := smoothing s;
     tau := 0.5;
     last_time := None; last_user_emb := None; prev_user_emb := None |}.

(** A session of [update] calls, each [(msg, emb, timestamp)], with the
    pulses returned.  Every field is assigned after the last expression
    that can raise: a call that raises leaves the object as it was. *)
Definition call (acc : t * list R) (c : string * NP.ndarray * R) : t * list R :=
  let '(msg, emb, timestamp) := c in
  match update (fst acc) msg emb timestamp with
  | Ok (s', r) => (s', snd acc ++ [r])
  | Raise _ => acc
  end.

Definition calls (s : t) (cs : list (string * NP.ndarray * R)) : t * list R :=
  fold_left call cs (s, []).

(** The timestamps of a session never go back. *)
Fixpoint nondecreasing (l : list R) : Prop :=
  match l with
  | x :: ((y :: _) as l') => x <= y /\ nondecreasing l'
  | _ => True
  end.

Definition sigmoid (z : R) : R := 1 / (1 + exp (- z)).

End PulseEstimator.

(** ** class DirectionTracker *)

Module DirectionTracker.

Record t : Type := mk { tau_dir : option NP.ndarray; base_alpha : R }.

Definition init : t := {| tau_dir := None; base_alpha := 0.85 |}.

(** The closing lines of both branches of [update]: divide by the norm
    when it is positive. *)
Definition normalized (s : t) (d : NP.ndarray) : result t :=
  let norm := NP.norm d in
  if gt norm 0
  then d' <- NP.div_scalar d norm ;;
       Ok {| tau_dir := Some d'; base_alpha := base_alpha s |}
  else Ok {| tau_dir := Some d; base_alpha := base_alpha s |}.

Definition update (s : t) (user_emb : NP.ndarray) (tau_h : R) : result t :=
  match tau_dir s with
  | None => normalized s user_emb
  | Some d =>
      let effective_alpha := base_alpha s + (1 - base_alpha s) * (1 - tau_h) in
      d1 <- NP.add (NP.scale effective_alpha d)
                   (NP.scale (1 - effective_alpha) user_emb) ;;
      normalized s d1
  end.

Definition alignment (s : t) (emb : NP.ndarray) : result R :=
  match tau_dir s with
  | None => Ok 0.5
  | Some d =>
      let norm_e := NP.norm emb in
      if eq norm_e 0 then Ok 0.5
      else dt <- NP.dot emb d ;;
           q <- truediv dt norm_e ;;
           Ok (round q 4)
  end.

Definition modulate_embedding (s : t) (emb : NP.ndarray) (lam : R)
  : result NP.ndarray :=
  match tau_dir s with
  | None => Ok emb
  | Some d => dt <- NP.dot emb d ;;
              NP.add emb (NP.scale (lam * dt) d)
  end.

Definition reset (s : t) : t := {| tau_dir := None; base_alpha := base_alpha s |}.

(** A session of [update] calls, each [(user_emb, tau_h)].  The sum of the
    two scaled vectors is evaluated before [tau_dir] is assigned: a call
    that raises leaves the object as it was. *)
Definition call (s : t) (c : NP.ndarray * R) : t :=
  match update s (fst c) (snd c) with
  | Ok s' => s'
  | Raise _ => s
  end.

Definition calls (s : t) (cs : list (NP.ndarray * R)) : t := fold_left call cs s.

End DirectionTracker.

(** ** A Python dict with string keys, in insertion order *)

Module Dict.

Definition t (V : Type) : Type := list (string * V).

Fixpoint get {V : Type} (d : t V) (k : string) : option V :=
  match d with
  | [] => None
  | (k', x) :: d' => if String.eqb k k' then Some x else get d' k
  end.

(** [k in d] *)
Definition contains {V : Type} (d : t V) (k : string) : bool :=
  match get d k with
  | Some _ => true
  | None => false
  end.

(** [d[k]] *)
Definition getitem {V : Type} (d : t V) (k : string) : result V :=
  match get d k with
  | Some x => Ok x
  | None => Raise KeyError
  end.

(** [d[k] = x]: in place when the key is there, appended otherwise. *)
Fixpoint setitem {V : Type} (d : t V) (k : string) (x : V) : t V :=
  match d with
  | [] => [(k, x)]
  | (k', y) :: d' =>
      if String.eqb k k' then (k', x) :: d' else (k', y) :: setitem d' k x
  end.

(** [d.items()] *)
Definition items {V : Type} (d : t V) : list (string * V) := d.

End Dict.

(** ** class Pods *)

Module Pods.

Inductive pod_state : Set := latent | unveiled.

Definition is_latent (st : pod_state) : bool :=
  match st with
  | latent => true
  | unveiled => false
  end.

Record pod : Type := mk_pod { emb : NP.ndarray; content : string; state : pod_state }.

Record t : Type := mk { p : Dict.t pod }.

Definition init : t := {| p := [] |}.

(** [create(content)]; the embedding provider [get_emb] and the fresh
    identifier [pid] (a uuid4) come from outside. *)
Definition create (get_emb : string -> NP.ndarray) (pid : string)
  (s : t) (c : string) : t * string :=
  ({| p := Dict.setitem (p s) pid
             {| emb := get_emb c; content := c; state := latent |} |},
   pid).

(** [(k, sim, content)] *)
Definition hit : Type := string * R * string.

(** [not best or sim > best[1]] *)
Definition improves (best : option hit) (sim : R) : bool :=
  match best with
  | None => true
  | Some (_, best_sim, _) => gt sim best_sim
  end.

Definition detect_body (q : NP.ndarray) (f : R) (best : option hit)
  (kv : string * pod) : result (option hit) :=
  let (k, x) := kv in
  if negb (is_latent (state x)) then Ok best
  else
    d <- NP.dot q (emb x) ;;
    sim <- truediv d (NP.norm q * NP.norm (emb x) + 1e-10) ;;
    if gt sim POD_THETA_HIGH || (gt f THETA_HARD && gt sim POD_THETA_SOFT)
    then if improves best sim then Ok (Some (k, sim, content x)) else Ok best
    else Ok best.

Definition detect (s : t) (q : NP.ndarray) (f : R) : result (option hit) :=
  for_each (Dict.items (p s)) None (detect_body q f).

(** [unveil(pid)]: the new object and the returned content ([None] when the
    method falls off its end). *)
Definition unveil (s : t) (pid : string) : result (t * option string) :=
  if Dict.contains (p s) pid
  then
    x <- Dict.getitem (p s) pid ;;
    let s' := {| p := Dict.setitem (p s) pid
                        {| emb := emb x; content := content x; state := unveiled |} |} in
    y <- Dict.getitem (p s') pid ;;
    Ok (s', Some (content y))
  else Ok (s, None).

End Pods.

(** ** class Vessel: adaptive pod detection *)

Module Vessel.

Definition detect_body (q : NP.ndarray) (f_score pod_high pod_soft : R)
  (best : option Pods.hit) (kv : string * Pods.pod) : result (option Pods.hit) :=
  let (k, x) := kv in
  if negb (Pods.is_latent (Pods.state x)) then Ok best
  else
    let e := Pods.emb x in
    let ne := NP.norm e in
    let nemb := NP.norm q in
    if eq ne 0 || eq nemb 0 then Ok best
    else
      d <- NP.dot q e ;;
      sim <- truediv d (nemb * ne) ;;
      if gt sim pod_high || (gt f_score THETA_HARD && gt sim pod_soft)
      then if Pods.improves best sim then Ok (Some (k, sim, Pods.content x))
           else Ok best
      else Ok best.

Definition _detect_pod_adaptive (pods : Pods.t) (q : NP.ndarray)
  (f_score pod_high pod_soft : R) : result (option Pods.hit) :=
  for_each (Dict.items (Pods.p pods)) None (detect_body q f_score pod_high pod_soft).

(** The detection as the specification words it, with the hard threshold
    an argument: a pod matches if [sim > pod_high], or
    [f_score > hard_theta] and [sim > pod_soft]. *)
Definition detect_body_as_specified (q : NP.ndarray)
  (f_score pod_high pod_soft hard_theta : R)
  (best : option Pods.hit) (kv : string * Pods.pod) : result (option Pods.hit) :=
  let (k, x) := kv in
  if negb (Pods.is_latent (Pods.state x)) then Ok best
  else
    let e := Pods.emb x in
    let ne := NP.norm e in
    let nemb := NP.norm q in
    if eq ne 0 || eq nemb 0 then Ok best
    else
      d <- NP.dot q e ;;
      sim <- truediv d (nemb * ne) ;;
      if gt sim pod_high || (gt f_score hard_theta && gt sim pod_soft)
      then if Pods.improves best sim then Ok (Some (k, sim, Pods.content x))
           else Ok best
      else Ok best.

Definition detect_as_specified (pods : Pods.t) (q : NP.ndarray)
  (f_score pod_high pod_soft hard_theta : R) : result (option Pods.hit) :=
  for_each (Dict.items (Pods.p pods)) None
    (detect_body_as_specified q f_score pod_high pod_soft hard_theta).

End Vessel.

(** ** class RhythmStore *)

Module RhythmStore.

Record sample : Type := mk_sample {
  turn : nat;
  ts : R;
  tau_h : R;
  fatigue : R;
  fatigue_status : status;
  components : list (string * R);
  thresholds : list (string * R);
  events : list string
}.

Record t : Type := mk {
  base : string;
  samples : list sample;
  session_id : option string;
  model : option string;
  started : option string
}.

Definition init (base_dir : string) : t :=
  {| base := base_dir; samples := []; session_id := None; model := None;
     started := None |}.

(** [start_session(model, session_id)]; [now_iso] is [datetime.now().isoformat()]. *)
Definition start_session (now_iso : string) (s : t) (m sid : string) : t :=
  {| base := base s; samples := []; session_id := Some sid; model := Some m;
     started := Some now_iso |}.

Definition round_values (d : list (string * R)) : list (string * R) :=
  map (fun kx => (fst kx, round (snd kx) 4)) d.

(** [record(...)]; [now] is [time.time()], [evs] is [None] or a list. *)
Definition record (now : R) (s : t) (turn0 : nat) (tau0 fatigue0 : R)
  (status0 : status) (components0 thresholds0 : list (string * R))
  (evs : option (list string)) : t :=
  {| base := base s;
     samples := samples s ++
       [ {| turn := turn0;
            ts := now;
            tau_h := round tau0 4;
            fatigue := round fatigue0 4;
            fatigue_status := status0;
            components := round_values components0;
            thresholds := round_values thresholds0;
            events := match evs with Some l => l | None => [] end |} ];
     session_id := session_id s; model := model s; started := started s |}.

(** A breathing event: ["turn"], ["type"], and ["tau_h_delta"] or ["F_t"]
    when the event carries one. *)
Record breathing_event : Type := mk_event {
  ev_turn : nat;
  ev_type : string;
  ev_tau_h_delta : option R;
  ev_F_t : option R
}.

Definition is_status (a b : status) : bool :=
  match a, b with
  | fresh, fresh | soft, soft | hard, hard => true
  | _, _ => false
  end.

(** The body of the loop over [i]: what the pair [samples[i-1]], [samples[i]]
    appends. *)
Definition pair_events (prev cur : sample) : list breathing_event :=
  let delta_tau := tau_h cur - tau_h prev in
  (if lt delta_tau (- 0.15)
   then [ {| ev_turn := turn cur; ev_type := "pause";
             ev_tau_h_delta := Some (round delta_tau 3); ev_F_t := None |} ]
   else if gt delta_tau 0.15
   then [ {| ev_turn := turn cur; ev_type := "acceleration";
             ev_tau_h_delta := Some (round delta_tau 3); ev_F_t := None |} ]
   else [])
  ++
  (if is_status (fatigue_status cur) soft && is_status (fatigue_status prev) fresh
   then [ {| ev_turn := turn cur; ev_type := "soft_fatigue_onset";
             ev_tau_h_delta := None; ev_F_t := Some (fatigue cur) |} ]
   else if is_status (fatigue_status cur) hard
           && negb (is_status (fatigue_status prev) hard)
   then [ {| ev_turn := turn cur; ev_type := "hard_fatigue_onset";
             ev_tau_h_delta := None; ev_F_t := Some (fatigue cur) |} ]
   else [])
  ++
  map (fun ev => {| ev_turn := turn cur; ev_type := ev;
                    ev_tau_h_delta := None; ev_F_t := None |})
      (events cur).

(** [for i in range(1, len(samples)): ...] *)
Definition breathing_events (l : list sample) : result (list breathing_event) :=
  for_each (seq 1 (List.length l - 1)) []
    (fun acc i =>
       cur <- index l i ;;
       prev <- index l (i - 1) ;;
       Ok (acc ++ pair_events prev cur)).

(** [sum(abs(taus[i] - taus[i-1]) for i in range(1, len(taus)))] *)
Definition curvature (taus : list R) : result R :=
  for_each (seq 1 (List.length taus - 1)) 0
    (fun acc i =>
       a <- index taus i ;;
       b <- index taus (i - 1) ;;
       Ok (acc + Rabs (a - b))).

Inductive trend : Set := rising | falling | stable.

Inductive rhythm : Set :=
| empty | reflective | exploratory | reflective_with_burst
| fatiguing | recovered | steady.

Definition is_rising (x : trend) : bool :=
  match x with rising => true | _ => false end.

Definition is_falling (x : trend) : bool :=
  match x with falling => true | _ => false end.

Definition fatigue_trend (fatigues : list R) : result trend :=
  let mid := Nat.div (List.length fatigues) 2 in
  if Nat.ltb 0 mid && Nat.ltb mid (List.length fatigues)
  then
    first_half <- truediv (Py.sum (firstn mid fatigues)) (INR mid) ;;
    second_half <- truediv (Py.sum (skipn mid fatigues))
                           (INR (List.length fatigues - mid)) ;;
    if gt second_half (first_half + 0.05) then Ok rising
    else if gt first_half (second_half + 0.05) then Ok falling
    else Ok stable
  else Ok stable.

Definition dominant_rhythm (mean_tau tau_var peak_f : R) (f_trend : trend) : rhythm :=
  if lt mean_tau 0.4 && lt tau_var 0.02 then reflective
  else if gt mean_tau 0.65 then exploratory
  else if gt tau_var 0.03 then reflective_with_burst
  else if is_rising f_trend && gt peak_f THETA_SOFT then fatiguing
  else if is_falling f_trend then recovered
  else steady.

(** The returned dictionary.  For no sample it holds three keys only:
    the other fields are [None]. *)
Record signature : Type := mk_signature {
  mean_tau_h : R;
  tau_h_variance : option R;
  mean_fatigue : option R;
  peak_fatigue : option R;
  sig_fatigue_trend : option trend;
  sig_breathing_events : option (list breathing_event);
  sig_dominant_rhythm : rhythm;
  curvature_integral : R
}.

Definition compute_signature (s : t) : result signature :=
  match samples s with
  | [] =>
      Ok {| mean_tau_h := 0; tau_h_variance := None; mean_fatigue := None;
            peak_fatigue := None; sig_fatigue_trend := None;
            sig_breathing_events := None; sig_dominant_rhythm := empty;
            curvature_integral := 0 |}
  | sm0 :: _ =>
      let taus := map tau_h (samples s) in
      let fatigues := map fatigue (samples s) in
      mean_tau <- truediv (Py.sum taus) (INR (List.length taus)) ;;
      tau_var <- (if Nat.ltb 1 (List.length taus)
                  then truediv (Py.sum (map (fun x => (x - mean_tau) ^ 2) taus))
                               (INR (List.length taus))
                  else Ok 0) ;;
      mean_f <- truediv (Py.sum fatigues) (INR (List.length fatigues)) ;;
      let peak_f := max_list (fatigue sm0) (tl fatigues) in
      f_trend <- fatigue_trend fatigues ;;
      evs <- breathing_events (samples s) ;;
      curv <- curvature taus ;;
      let dominant := dominant_rhythm mean_tau tau_var peak_f f_trend in
      Ok {| mean_tau_h := round mean_tau 4;
            tau_h_variance := Some (round tau_var 4);
            mean_fatigue := Some (round mean_f 4);
            peak_fatigue := Some (round peak_f 4);
            sig_fatigue_trend := Some f_trend;
            sig_breathing_events := Some evs;
            sig_dominant_rhythm := dominant;
            curvature_integral := round curv 4 |}
  end.

(** The pass-through of one sample's tagged events. *)
Definition tagged_events (cur : sample) : list breathing_event :=
  map (fun ev => {| ev_turn := turn cur; ev_type := ev;
                    ev_tau_h_delta := None; ev_F_t := None |})
      (events cur).

(** The events of consecutive pairs, by recursion on the samples. *)
Fixpoint scan_pairs (prev : sample) (rest : list sample) : list breathing_event :=
  match rest with
  | [] => []
  | cur :: rest' => pair_events prev cur ++ scan_pairs cur rest'
  end.

(** The breathing events as the specification words them: the scan of the
    consecutive pairs, plus the tagged events of each sample, the first
    one's too. *)
Definition breathing_events_as_specified (l : list sample) : list breathing_event :=
  match l with
  | [] => []
  | first :: rest => tagged_events first ++ scan_pairs first rest
  end.

End RhythmStore.

(** ** Statements about [Fatigue] *)

(** The invariant of the specification: one velocity less than embeddings,
    both capped at [W = 5], each velocity the difference of the stored
    embeddings around it. *)
Definition specified_invariant (s : Fatigue.t) : Prop :=
  List.length (Fatigue.v s) = Nat.max 0 (List.length (Fatigue.e s) - 1)
  /\ (List.length (Fatigue.e s) <= 5)%nat
  /\ (List.length (Fatigue.v s) <= 5)%nat
  /\ map Ok (Fatigue.v s) = Fatigue.deltas (Fatigue.e s).

(** What [update] and [reset] keep: both histories capped at [w]; one
    velocity less than embeddings, or both histories full; and the
    differences of the stored embeddings are the last velocities. *)
Definition window_invariant (s : Fatigue.t) : Prop :=
  (List.length (Fatigue.e s) <= Fatigue.w s)%nat
  /\ (List.length (Fatigue.v s) <= Fatigue.w s)%nat
  /\ (List.length (Fatigue.v s) = List.length (Fatigue.e s) - 1
      \/ (List.length (Fatigue.v s) = Fatigue.w s
          /\ List.length (Fatigue.e s) = Fatigue.w s))%nat
  /\ exists older, map Ok (Fatigue.v s) = older ++ Fatigue.deltas (Fatigue.e s).

(** The [Fatigue] object with window [w0] after [m] updates with one
    embedding [x]: the embedding as often as the window holds it, and
    zero vectors for velocities. *)
Definition constant_window (w0 : nat) (x : NP.ndarray) (m : nat) : Fatigue.t :=
  {| Fatigue.w := w0;
     Fatigue.e := repeat x (Nat.min m w0);
     Fatigue.v := repeat (repeat 0 (List.length x)) (Nat.min (m - 1) w0) |}.

(** The fatigue values of a trace of scores. *)
Definition fatigues
  (tr : list (result (R * Fatigue.components * status))) : list R :=
  flat_map (fun r => match r with
                     | Ok (f, _, _) => [f]
                     | Raise _ => []
                     end) tr.

(** Each value is below the next. *)
Fixpoint strictly_increasing (l : list R) : Prop :=
  match l with
  | x :: ((y :: _) as l') => x < y /\ strictly_increasing l'
  | _ => True
  end.

(** The scenario of the specification: five updates with one embedding
    [x] drive the fatigue strictly upward, past 0.68 by the third or the
    fourth turn. *)
Definition specified_rise
  (svd : list NP.ndarray -> option (list R)) (x : NP.ndarray) : Prop :=
  let fs := fatigues (Fatigue.trace svd (Fatigue.init 5) (repeat x 5)) in
  strictly_increasing fs
  /\ exists f, (nth_error fs 2 = Some f \/ nth_error fs 3 = Some f) /\ f > 0.68.

(** ** Statements about [PulseEstimator] *)

(** The fields that [PulseEstimator.update] never assigns. *)
Definition pulse_weights (s : PulseEstimator.t) : R * R * R * R * R :=
  (PulseEstimator.w_L s, PulseEstimator.w_M s, PulseEstimator.w_N s,
   PulseEstimator.w_D s, PulseEstimator.smoothing s).

(** The four thresholds of [modulate_thresholds], by name. *)
Definition theta_soft_of (s : PulseEstimator.t) : R :=
  fst (fst (fst (PulseEstimator.modulate_thresholds s))).
Definition theta_hard_of (s : PulseEstimator.t) : R :=
  snd (fst (fst (PulseEstimator.modulate_thresholds s))).
Definition pod_high_of (s : PulseEstimator.t) : R :=
  snd (fst (PulseEstimator.modulate_thresholds s)).
Definition pod_soft_of (s : PulseEstimator.t) : R :=
  snd (PulseEstimator.modulate_thresholds s).

(** The modulation factor [mod = 1.2 - 0.4 tau]. *)
Definition modulation (s : PulseEstimator.t) : R := 1.2 - 0.4 * PulseEstimator.tau s.

(** A pulse estimator as the constructor and [update] leave it: the
    weights of the constructor, and a pulse between 0.5 and sigmoid(1). *)
Definition pulse_ok (s : PulseEstimator.t) : Prop :=
  pulse_weights s = pulse_weights PulseEstimator.init
  /\ 0.5 <= PulseEstimator.tau s <= PulseEstimator.sigmoid 1.

(** The timestamp [t] is not before the last one stored. *)
Definition time_ok (s : PulseEstimator.t) (t : R) : Prop :=
  match PulseEstimator.last_time s with
  | Some l => l <= t
  | None => True
  end.

(** The timestamp of a call. *)
Definition timestamp_of (c : string * NP.ndarray * R) : R := snd c.

(** The embedding of a call. *)
Definition embedding_of (c : string * NP.ndarray * R) : NP.ndarray := snd (fst c).

(** The embeddings a pulse estimator stores have the dimension [d]. *)
Definition pulse_dim (d : nat) (s : PulseEstimator.t) : Prop :=
  match PulseEstimator.last_user_emb s with
  | Some a => List.length a = d
  | None => True
  end
  /\ match PulseEstimator.prev_user_emb s with
     | Some a => List.length a = d
     | None => True
     end.

(** ** Statements about [RhythmStore] *)

(** The samples of a rhythm session hold the pulses [outs] returned by
    the updates of the session, as [record] stores them. *)
Definition records_pulses (outs : list R) (l : list RhythmStore.sample) : Prop :=
  Forall2 (fun r sm => RhythmStore.tau_h sm = round r 4) outs l.

(** What a loop [for i in range(1, len(l))] over [l[i-1]], [l[i]] computes. *)
Fixpoint fold_pairs {A B : Type} (f : B -> A -> A -> B) (acc : B) (prev : A)
  (rest : list A) : B :=
  match rest with
  | [] => acc
  | cur :: rest' => fold_pairs f (f acc prev cur) cur rest'
  end.

(** ** Statements about [DirectionTracker] *)

(** A direction that is set is a unit vector or has norm zero. *)
Definition unit_or_zero (s : DirectionTracker.t) : Prop :=
  match DirectionTracker.tau_dir s with
  | None => True
  | Some d => NP.norm d = 1 \/ NP.norm d = 0
  end.

(** ** Statements about the adaptive pod detection *)

(** The cosine similarity the detection computes. *)
Definition cosine (q e : NP.ndarray) : R :=
  NP.sum (NP.zip_with Rmult q e) / (NP.norm q * NP.norm e).

(** The pods [_detect_pod_adaptive] lets through: latent, with a seed
    embedding and a query of non-zero norm, and a similarity above
    [pod_high], or above [pod_soft] when the fatigue is above the
    constant [THETA_HARD]. *)
Definition matches (q : NP.ndarray) (f_score pod_high pod_soft : R)
  (x : Pods.pod) : Prop :=
  Pods.state x = Pods.latent
  /\ NP.norm (Pods.emb x) <> 0
  /\ NP.norm q <> 0
  /\ (cosine q (Pods.emb x) > pod_high
      \/ (f_score > THETA_HARD /\ cosine q (Pods.emb x) > pod_soft)).

(** ** Further statements *)

(** The value of [np.dot] on two arrays of one shape. *)
Definition inner (a b : NP.ndarray) : R := NP.sum (NP.zip_with Rmult a b).

(** The direction, when set, has the dimension of [emb]. *)
Definition direction_dim (s : DirectionTracker.t) (emb : NP.ndarray) : Prop :=
  match DirectionTracker.tau_dir s with
  | Some d => List.length emb = List.length d
  | None => True
  end.

(** The cosine similarity [Pods.detect] computes, with its guard against
    a zero denominator. *)
Definition guarded_cosine (q e : NP.ndarray) : R :=
  inner q e / (NP.norm q * NP.norm e + 1e-10).

(** The pods [Pods.detect] lets through, under the fixed thresholds. *)
Definition matches_fixed (q : NP.ndarray) (f : R) (x : Pods.pod) : Prop :=
  Pods.state x = Pods.latent
  /\ (guarded_cosine q (Pods.emb x) > POD_THETA_HIGH
      \/ (f > THETA_HARD /\ guarded_cosine q (Pods.emb x) > POD_THETA_SOFT)).

(** The keys of a dict are distinct. *)
Definition distinct_keys {V : Type} (d : Dict.t V) : Prop := NoDup (map fst d).

(** The statistics of [compute_signature]: [sum(l) / len(l)], the
    population variance (0 for fewer than two values), and the sum of
    the absolute differences of neighbours. *)
Definition mean (l : list R) : R := Py.sum l / INR (List.length l).

Definition variance (l : list R) : R :=
  if Nat.ltb 1 (List.length l)
  then Py.sum (map (fun x => (x - mean l) ^ 2) l) / INR (List.length l)
  else 0.

Definition total_variation (l : list R) : R :=
  match l with
  | [] => 0
  | x :: rest => fold_pairs (fun acc b a => acc + Rabs (a - b)) 0 x rest
  end.

(** The signature of a session without samples. *)
Definition empty_signature : RhythmStore.signature :=
  {| RhythmStore.mean_tau_h := 0;
     RhythmStore.tau_h_variance := None;
     RhythmStore.mean_fatigue := None;
     RhythmStore.peak_fatigue := None;
     RhythmStore.sig_fatigue_trend := None;
     RhythmStore.sig_breathing_events := None;
     RhythmStore.sig_dominant_rhythm := RhythmStore.empty;
     RhythmStore.curvature_integral := 0 |}.

(** The sample [record] appends for a pulse [r], other fields at rest. *)
Definition pulse_sample (r : R) : RhythmStore.sample :=
  {| RhythmStore.turn := 1; RhythmStore.ts := 0;
     RhythmStore.tau_h := round r 4; RhythmStore.fatigue := 0;
     RhythmStore.fatigue_status := fresh;
     RhythmStore.components := []; RhythmStore.thresholds := [];
     RhythmStore.events := [] |}.

(** The order of the fatigue statuses. *)
Definition severity (st : status) : nat :=
  match st with
  | fresh => 0
  | soft => 1
  | hard => 2
  end.

(** ** class Pods: the pods file and the listing

    [save] writes a JSON document and [load] reads one; the document is
    the value passed between them, the file system is outside the model.
    The state read from a document is one of the two states the program
    writes. *)

Module PodsFile.

(** For each key, the content and the state: the embedding is not
    written. *)
Definition document : Type := Dict.t (string * Pods.pod_state).

(** [save(path)]: the document the comprehension builds. *)
Definition save (s : Pods.t) : document :=
  fold_left
    (fun doc kv =>
       Dict.setitem doc (fst kv) (Pods.content (snd kv), Pods.state (snd kv)))
    (Dict.items (Pods.p s)) [].

(** [load(path)]; [file] is [None] when the path does not exist. *)
Definition load (get_emb : string -> NP.ndarray) (s : Pods.t)
  (file : option document) : Pods.t :=
  match file with
  | None => s
  | Some doc =>
      fold_left
        (fun acc kv =>
           Pods.mk (Dict.setitem (Pods.p acc) (fst kv)
                      {| Pods.emb := get_emb (fst (snd kv));
                         Pods.content := fst (snd kv);
                         Pods.state := snd (snd kv) |}))
        (Dict.items doc) s
  end.

(** [ls()] *)
Definition ls (s : Pods.t) : list (string * string * Pods.pod_state) :=
  map (fun kv => (substring 0 8 (fst kv),
                  substring 0 80 (Pods.content (snd kv)),
                  Pods.state (snd kv)))
      (Dict.items (Pods.p s)).

(** A session on one [Pods] object: [create] with the identifier drawn,
    and [unveil]. *)
Inductive op : Type :=
| Create (pid content : string)
| Unveil (pid : string).

Definition call (get_emb : string -> NP.ndarray) (s : Pods.t) (o : op) : Pods.t :=
  match o with
  | Create pid c => fst (Pods.create get_emb pid s c)
  | Unveil pid => match Pods.unveil s pid with
                  | Ok r => fst r
                  | Raise _ => s
                  end
  end.

Definition run (get_emb : string -> NP.ndarray) (s : Pods.t) (ops : list op)
  : Pods.t :=
  fold_left (call get_emb) ops s.

End PodsFile.

(** The pod with the embedding that [get_emb] gives its content. *)
Definition reseed (get_emb : string -> NP.ndarray) (x : Pods.pod) : Pods.pod :=
  {| Pods.emb := get_emb (Pods.content x);
     Pods.content := Pods.content x;
     Pods.state := Pods.state x |}.

(** Every pod holds the embedding of its content. *)
Definition seeded (get_emb : string -> NP.ndarray) (s : Pods.t) : Prop :=
  Forall (fun kv => Pods.emb (snd kv) = get_emb (Pods.content (snd kv)))
    (Pods.p s).

(** ** class RhythmStore: the rhythm file and its recapitulation

    [save] writes a JSON document and [load_signature] reads the
    signature of one; the document is the value passed between them.
    [format_for_recapitulation] builds a text line by line: the model
    keeps the lines and the values they show, and leaves the rendering
    of the numbers to Python. *)

Module RhythmFile.

Record rhythm_file : Type := mk_file {
  rf_session_id : string;
  rf_model : option string;
  rf_started : option string;
  rf_total_turns : nat;
  rf_samples : list RhythmStore.sample;
  rf_signature : RhythmStore.signature
}.

(** [save(model_dir)]: the document written, [None] when the method
    returns before writing. *)
Definition save (s : RhythmStore.t) : result (option rhythm_file) :=
  match RhythmStore.session_id s with
  | None => Ok None
  | Some sid =>
      if String.eqb sid "" then Ok None
      else
        match RhythmStore.samples s with
        | [] => Ok None
        | _ :: _ =>
            sg <- RhythmStore.compute_signature s ;;
            Ok (Some {| rf_session_id := sid;
                        rf_model := RhythmStore.model s;
                        rf_started := RhythmStore.started s;
                        rf_total_turns := List.length (RhythmStore.samples s);
                        rf_samples := RhythmStore.samples s;
                        rf_signature := sg |})
        end
  end.

(** [load_signature(model_dir, session_id)]; [file] is [None] when the
    path does not exist. *)
Definition load_signature (file : option rhythm_file)
  : option RhythmStore.signature :=
  match file with
  | None => None
  | Some f => Some (rf_signature f)
  end.

(** The lines of the recapitulation, with the values they show. *)
Inductive line : Type :=
| header
| session_line (r : RhythmStore.rhythm) (mean_tau variance : R)
| fatigue_line (tr : RhythmStore.trend) (peak : R)
| events_header
| pause_line (turn : nat) (delta : R)
| acceleration_line (turn : nat) (delta : R)
| soft_onset_line (turn : nat) (F_t : R)
| hard_onset_line (turn : nat) (F_t : R)
| pod_line (turn : nat)
| other_line (turn : nat) (type : string)
| curvature_high (ci : R)
| curvature_moderate (ci : R)
| curvature_low (ci : R)
| unresolved
| footer.

(** [d[k]] on a key that may be missing. *)
Definition key {A : Type} (v : option A) : result A :=
  match v with
  | Some a => Ok a
  | None => Raise KeyError
  end.

(** [f"{ev.get('F_t', '?'):.2f}"]: the default is a string, which the
    format refuses. *)
Definition format_F_t (v : option R) : result R :=
  match v with
  | Some a => Ok a
  | None => Raise ValueError
  end.

(** The line of one breathing event. *)
Definition event_line (ev : RhythmStore.breathing_event) : result line :=
  let t := RhythmStore.ev_turn ev in
  let ty := RhythmStore.ev_type ev in
  if String.eqb ty "pause"
  then dl <- key (RhythmStore.ev_tau_h_delta ev) ;; Ok (pause_line t dl)
  else if String.eqb ty "acceleration"
  then dl <- key (RhythmStore.ev_tau_h_delta ev) ;; Ok (acceleration_line t dl)
  else if String.eqb ty "soft_fatigue_onset"
  then f <- format_F_t (RhythmStore.ev_F_t ev) ;; Ok (soft_onset_line t f)
  else if String.eqb ty "hard_fatigue_onset"
  then f <- format_F_t (RhythmStore.ev_F_t ev) ;; Ok (hard_onset_line t f)
  else if String.eqb ty "pod_unveiled"
  then Ok (pod_line t)
  else Ok (other_line t ty).

Definition is_rising (tr : option RhythmStore.trend) : bool :=
  match tr with
  | Some RhythmStore.rising => true
  | _ => false
  end.

(** [format_for_recapitulation(signature)]: the lines joined by the
    return statement; no line for no signature. *)
Definition format_for_recapitulation (signature : option RhythmStore.signature)
  : result (list line) :=
  match signature with
  | None => Ok []
  | Some sg =>
      let lines := [header] in
      variance <- key (RhythmStore.tau_h_variance sg) ;;
      let lines := lines ++ [session_line (RhythmStore.sig_dominant_rhythm sg)
                               (RhythmStore.mean_tau_h sg) variance] in
      tr <- key (RhythmStore.sig_fatigue_trend sg) ;;
      peak <- key (RhythmStore.peak_fatigue sg) ;;
      let lines := lines ++ [fatigue_line tr peak] in
      lines <- match RhythmStore.sig_breathing_events sg with
               | Some (ev :: evs) =>
                   for_each (firstn 6 (ev :: evs)) (lines ++ [events_header])
                     (fun acc e => l <- event_line e ;; Ok (acc ++ [l]))
               | _ => Ok lines
               end ;;
      let ci := RhythmStore.curvature_integral sg in
      let lines := lines ++ [if gt ci 3.0 then curvature_high ci
                             else if gt ci 1.5 then curvature_moderate ci
                             else curvature_low ci] in
      let lines :=
        if is_rising (RhythmStore.sig_fatigue_trend sg)
           && gt (match RhythmStore.peak_fatigue sg with
                  | Some p => p
                  | None => 0
                  end) THETA_SOFT
        then lines ++ [unresolved]
        else lines in
      Ok (lines ++ [footer])
  end.

End RhythmFile.

(** The types of the events [compute_signature] derives itself. *)
Definition computed_types : list string :=
  ["pause"; "acceleration"; "soft_fatigue_onset"; "hard_fatigue_onset"]%string.

(** An event that [format_for_recapitulation] can render: one of a
    computed type carries the value its line shows. *)
Definition renderable (ev : RhythmStore.breathing_event) : Prop :=
  exists l, RhythmFile.event_line ev = Ok l.

(** ** class Vessel: the state of a session, [possess] and [speak]

    The fields that the numeric part of a turn reads and writes.  The
    ledger, the scratchpad, the history and the inherited memory are text
    and files; the prompt, the call of the model and the parsing of its
    answer work on text.  They are outside the model: the answer of the
    model enters through the text [raw] that [llm] returns, which is a
    string whatever happens inside [llm]; what [possess] reads from the
    ledger enters through the signature [prior] of the last session of
    the model.  What the methods compute on the way to a file (the
    document of [RhythmStore.save]) is in the model; writing it is not. *)

Module VesselCore.

Definition AVAILABLE_MODELS : list string := ["llama3"; "mistral"; "phi3"]%string.

Record t : Type := mk {
  model : option string;
  sid : option string;
  fatigue : Fatigue.t;
  pulse : PulseEstimator.t;
  direction : DirectionTracker.t;
  pods : Pods.t;
  rhythm : RhythmStore.t;
  turn : nat
}.

(** [{"content": content, "similarity": round(sim, 3)}] *)
Record pod_event : Type := mk_pod_event {
  pe_content : string;
  pe_similarity : R
}.

(** The entry ["meta"] of the dictionary [speak] returns. *)
Record meta : Type := mk_meta {
  m_turn : nat;
  m_fatigue_score : R;
  m_fatigue_status : status;
  m_fatigue_components : Fatigue.components;
  m_tau_h : R;
  m_thresholds : R * R * R * R;
  m_alignment : R;
  m_pod : option pod_event
}.

(** A field that is [None] or a string, as a condition. *)
Definition truthy (v : option string) : bool :=
  match v with
  | Some x => negb (String.eqb x "")
  | None => false
  end.

(** [s.model] as a condition. *)
Definition inhabited (s : t) : bool := truthy (model s).

(** [AVAILABLE_MODELS[s.model]], as far as the lookup goes. *)
Definition lookup_model (v : option string) : result string :=
  match v with
  | Some m => if existsb (String.eqb m) AVAILABLE_MODELS then Ok m
              else Raise KeyError
  | None => Raise KeyError
  end.

(** [possess(model)]: [None] stands for the error dictionary, [Some]
    for the dictionary with the session identifier.  [prior] is the
    signature that [load_signature] finds for the last session of the
    model ([None] without one), [new_sid] the identifier that
    [ledger.start] returns, [now_iso] the clock of [start_session]. *)
Definition possess (prior : option RhythmStore.signature)
  (new_sid now_iso : string) (s : t) (m : string)
  : result (t * option string) :=
  if negb (existsb (String.eqb m) AVAILABLE_MODELS) then Ok (s, None)
  else
    saved <- (if truthy (model s) && truthy (sid s)
              then RhythmFile.save (rhythm s)
              else Ok None) ;;
    rhythm_context <- RhythmFile.format_for_recapitulation prior ;;
    Ok ({| model := Some m;
           sid := Some new_sid;
           fatigue := Fatigue.reset (fatigue s);
           pulse := PulseEstimator.reset (pulse s);
           direction := DirectionTracker.reset (direction s);
           pods := pods s;
           rhythm := RhythmStore.start_session now_iso (rhythm s) m new_sid;
           turn := 0 |},
        Some new_sid).

(** The events tagged on the sample of the turn. *)
Definition turn_events (pe : option pod_event) (f_status : status)
  (alignment : R) : list string :=
  (match pe with Some _ => ["pod_unveiled"%string] | None => [] end)
  ++ (match f_status with
      | hard => ["hard_fatigue"%string]
      | soft => ["soft_fatigue"%string]
      | fresh => []
      end)
  ++ (if lt alignment 0.3 then ["low_alignment"%string] else []).

Section WithEnvironment.

Variable svd : list NP.ndarray -> option (list R).

(** [get_emb(text)] *)
Variable get_emb : string -> NP.ndarray.

(** [Vessel()]; [file] is the document of the pods file, [None] when
    there is none. *)
Definition init (file : option PodsFile.document) : t :=
  {| model := None; sid := None;
     fatigue := Fatigue.init 5;
     pulse := PulseEstimator.init;
     direction := DirectionTracker.init;
     pods := PodsFile.load get_emb Pods.init file;
     rhythm := RhythmStore.init "vessel_data/ledgers";
     turn := 0 |}.

(** [speak(msg)]: [t0] and [now] are the clock at the start of the turn
    and in [record], [raw] is the answer of the model.  [None] stands for
    the error dictionary of a vessel without inhabitant.  Every fifth
    turn the rhythm is saved. *)
Definition speak (s : t) (msg : string) (t0 now : R) (raw : string)
  : result (t * option meta) :=
  if negb (inhabited s) then Ok (s, None)
  else
      let turn1 := S (turn s) in
      let emb := get_emb msg in
      fatigue1 <- Fatigue.update (fatigue s) emb ;;
      scored <- Fatigue.score svd fatigue1 ;;
      let f_score := fst (fst scored) in
      let f_comp := snd (fst scored) in
      updated <- PulseEstimator.update (pulse s) msg emb t0 ;;
      let pulse1 := fst updated in
      let tau_h := snd updated in
      let theta_soft := fst (fst (fst (PulseEstimator.modulate_thresholds pulse1))) in
      let theta_hard := snd (fst (fst (PulseEstimator.modulate_thresholds pulse1))) in
      let pod_high := snd (fst (PulseEstimator.modulate_thresholds pulse1)) in
      let pod_soft := snd (PulseEstimator.modulate_thresholds pulse1) in
      direction1 <- DirectionTracker.update (direction s) emb tau_h ;;
      let f_status := status_of f_score theta_soft theta_hard in
      emb_modulated <- DirectionTracker.modulate_embedding direction1 emb 0.3 ;;
      pod_result <- Vessel._detect_pod_adaptive (pods s) emb_modulated f_score
                      pod_high pod_soft ;;
      unveiling <- match pod_result with
                   | Some (pid, sim, content) =>
                       u <- Pods.unveil (pods s) pid ;;
                       Ok (fst u, Some {| pe_content := content;
                                          pe_similarity := round sim 3 |})
                   | None => Ok (pods s, None)
                   end ;;
      let pods1 := fst unveiling in
      let pod_ev := snd unveiling in
      info <- lookup_model (model s) ;;
      let response_emb := get_emb (substring 0 500 raw) in
      alignment <- DirectionTracker.alignment direction1 response_emb ;;
      let rhythm1 :=
        RhythmStore.record now (rhythm s) turn1 tau_h f_score f_status f_comp
          [("soft"%string, theta_soft); ("hard"%string, theta_hard);
           ("pod_high"%string, pod_high); ("pod_soft"%string, pod_soft)]
          (Some (turn_events pod_ev f_status alignment)) in
      saved <- (if Nat.eqb (Nat.modulo turn1 5) 0
                then RhythmFile.save rhythm1
                else Ok None) ;;
      Ok ({| model := model s; sid := sid s;
             fatigue := fatigue1; pulse := pulse1; direction := direction1;
             pods := pods1; rhythm := rhythm1; turn := turn1 |},
          Some {| m_turn := turn1;
                  m_fatigue_score := f_score;
                  m_fatigue_status := f_status;
                  m_fatigue_components := f_comp;
                  m_tau_h := tau_h;
                  m_thresholds := (theta_soft, theta_hard, pod_high, pod_soft);
                  m_alignment := alignment;
                  m_pod := pod_ev |}).

(** One turn of a session: the message, the two clock readings and the
    answer of the model. *)
Definition turn_input : Type := string * R * R * string.

(** A session of [speak] calls; it stops at the first call that raises. *)
Fixpoint speaks (s : t) (turns : list turn_input)
  : result (t * list (option meta)) :=
  match turns with
  | [] => Ok (s, [])
  | (msg, t0, now, raw) :: rest =>
      r <- speak s msg t0 now raw ;;
      rs <- speaks (fst r) rest ;;
      Ok (fst rs, snd r :: snd rs)
  end.

End WithEnvironment.

End VesselCore.

(** ** Statements about a session of the vessel *)

(** Every embedding the vessel stores has the dimension [d]. *)
Definition vessel_dim (d : nat) (s : VesselCore.t) : Prop :=
  Forall (fun y => List.length y = d) (Fatigue.e (VesselCore.fatigue s))
  /\ Forall (fun y => List.length y = d) (Fatigue.v (VesselCore.fatigue s))
  /\ pulse_dim d (VesselCore.pulse s)
  /\ match DirectionTracker.tau_dir (VesselCore.direction s) with
     | Some dir => List.length dir = d
     | None => True
     end
  /\ Forall (fun kv => List.length (Pods.emb (snd kv)) = d)
       (Dict.items (Pods.p (VesselCore.pods s))).

(** The inhabitant, when there is one, is a key of [AVAILABLE_MODELS]. *)
Definition known_inhabitant (s : VesselCore.t) : Prop :=
  match VesselCore.model s with
  | Some m => In m VesselCore.AVAILABLE_MODELS
  | None => True
  end.

(** A signature that [format_for_recapitulation] renders. *)
Definition renders (prior : option RhythmStore.signature) : Prop :=
  exists lines, RhythmFile.format_for_recapitulation prior = Ok lines.

(** What the components see of a session of [speak] calls: the
    embeddings given to [Fatigue.update], the calls of
    [PulseEstimator.update], and the pulses paired with the embeddings
    for [DirectionTracker.update]. *)
Definition message_of (x : VesselCore.turn_input) : string := fst (fst (fst x)).
Definition clock_of (x : VesselCore.turn_input) : R := snd (fst (fst x)).

Definition embeddings_of (get_emb : string -> NP.ndarray)
  (turns : list VesselCore.turn_input) : list NP.ndarray :=
  map (fun x => get_emb (message_of x)) turns.

Definition pulse_calls_of (get_emb : string -> NP.ndarray)
  (turns : list VesselCore.turn_input) : list (string * NP.ndarray * R) :=
  map (fun x => (message_of x, get_emb (message_of x), clock_of x)) turns.

(** The events [speak] tags on a sample. *)
Definition speak_tags : list string :=
  ["pod_unveiled"; "hard_fatigue"; "soft_fatigue"; "low_alignment"]%string.

(** The latent pods of a dict. *)
Definition count_latent (d : Dict.t Pods.pod) : nat :=
  List.length (filter (fun kv => Pods.is_latent (Pods.state (snd kv))) d).

(** The turns of a session that surfaced a pod. *)
Definition count_pod_events (metas : list VesselCore.meta) : nat :=
  List.length (filter (fun mt => match VesselCore.m_pod mt with
                                 | Some _ => true
                                 | None => false
                                 end) metas).

(** ** class Scratchpad

    The list of items in memory.  [_save] writes this list to the file
    after [add] and [remove]; the file is outside the model, except that
    the constructor takes what it holds. *)

Module Scratchpad.

Record item : Type := mk_item {
  id : string;
  content : string;
  source : string;
  note : string;
  created : string
}.

Record t : Type := mk { path : string; items : list item }.

(** [Scratchpad(path)]; [file] is [None] when the path does not exist. *)
Definition init (path0 : string) (file : option (list item)) : t :=
  {| path := path0;
     items := match file with Some l => l | None => [] end |}.

(** [add(content, source_model, note)]; [uuid] is [str(uuid.uuid4())] and
    [now_iso] the clock.  The new object and the identifier returned. *)
Definition add (uuid now_iso : string) (s : t)
  (content0 source_model note0 : string) : t * string :=
  let it := {| id := substring 0 8 uuid; content := content0;
               source := source_model; note := note0; created := now_iso |} in
  ({| path := path s; items := items s ++ [it] |}, id it).

(** [remove(item_id)] *)
Definition remove (s : t) (item_id : string) : t :=
  {| path := path s;
     items := filter (fun i => negb (String.eqb (id i) item_id)) (items s) |}.

(** [ls()] *)
Definition ls (s : t) : list item := items s.

End Scratchpad.

(** ** The routes that change the vessel

    What the handlers of [/api/possess], [/api/speak], [/api/pod] and
    [/api/reset] do to the vessel; the JSON of the request and of the
    answer is outside the model.  A request of [/api/possess] comes with
    what the ledger holds and the clock shows when it is served. *)


Module Api.

Inductive request : Type :=
| possess (m : string) (prior : option RhythmStore.signature)
    (new_sid now_iso : string)
| speak (msg : string) (t0 now : R) (raw : string)
| pod (pid content : string)
| reset.

(** [api_pod]: [vessel.pods.create(content)] *)
Definition api_pod (get_emb : string -> NP.ndarray) (s : VesselCore.t)
  (pid content : string) : VesselCore.t :=
  {| VesselCore.model := VesselCore.model s;
     VesselCore.sid := VesselCore.sid s;
     VesselCore.fatigue := VesselCore.fatigue s;
     VesselCore.pulse := VesselCore.pulse s;
     VesselCore.direction := VesselCore.direction s;
     VesselCore.pods := fst (Pods.create get_emb pid (VesselCore.pods s) content);
     VesselCore.rhythm := VesselCore.rhythm s;
     VesselCore.turn := VesselCore.turn s |}.

(** [api_reset]: [vessel.fatigue.reset(); vessel.history=[]; vessel.turn=0] *)
Definition api_reset (s : VesselCore.t) : VesselCore.t :=
  {| VesselCore.model := VesselCore.model s;
     VesselCore.sid := VesselCore.sid s;
     VesselCore.fatigue := Fatigue.reset (VesselCore.fatigue s);
     VesselCore.pulse := VesselCore.pulse s;
     VesselCore.direction := VesselCore.direction s;
     VesselCore.pods := VesselCore.pods s;
     VesselCore.rhythm := VesselCore.rhythm s;
     VesselCore.turn := 0 |}.

Section WithEnvironment.

Variable svd : list NP.ndarray -> option (list R).
Variable get_emb : string -> NP.ndarray.

Definition handle (s : VesselCore.t) (r : request) : result VesselCore.t :=
  match r with
  | possess m prior new_sid now_iso =>
      answer <- VesselCore.possess prior new_sid now_iso s m ;;
      Ok (fst answer)
  | speak msg t0 now raw =>
      answer <- VesselCore.speak svd get_emb s msg t0 now raw ;;
      Ok (fst answer)
  | pod pid content => Ok (api_pod get_emb s pid content)
  | reset => Ok (api_reset s)
  end.

(** The requests of a run of the server, in order. *)
Definition serve (s : VesselCore.t) (rs : list request) : result VesselCore.t :=
  for_each rs s handle.

End WithEnvironment.

End Api.

(** The requests of [/api/possess] come with a signature that can be
    rendered. *)
Definition request_ok (r : Api.request) : Prop :=
  match r with
  | Api.possess _ prior _ _ => renders prior
  | _ => True
  end.


(* ================================================================= *)
(** * Part II: properties *)
(* ================================================================= *)

(** ** Comparisons and the result type *)

Lemma gt_true (x y : R) : gt x y = true <-> x > y.
Proof. unfold gt; destruct (Rgt_dec x y); split; intros; try easy. Qed.

Lemma gt_false (x y : R) : gt x y = false <-> x <= y.
Proof.
  unfold gt; destruct (Rgt_dec x y); split; intros; try easy; lra.
Qed.

Lemma lt_true (x y : R) : lt x y = true <-> x < y.
Proof. unfold lt; destruct (Rlt_dec x y); split; intros; try easy. Qed.

Lemma lt_false (x y : R) : lt x y = false <-> y <= x.
Proof.
  unfold lt; destruct (Rlt_dec x y); split; intros; try easy; lra.
Qed.

Lemma eq_true (x y : R) : eq x y = true <-> x = y.
Proof. unfold eq; destruct (Req_dec_T x y); split; intros; try easy. Qed.

Lemma eq_false (x y : R) : eq x y = false <-> x <> y.
Proof. unfold eq; destruct (Req_dec_T x y); split; intros; try easy. Qed.

Lemma truediv_ok (x y : R) : y <> 0 -> truediv x y = Ok (x / y).
Proof.
  intros H; unfold truediv.
  destruct (eq y 0) eqn:E; [apply eq_true in E; contradiction | reflexivity].
Qed.

(** Decide a comparison between two closed decimal expressions. *)
Ltac cmp :=
  repeat match goal with
    | |- context [gt ?x ?y] =>
        first [ replace (gt x y) with true by (symmetry; apply gt_true; lra)
              | replace (gt x y) with false by (symmetry; apply gt_false; lra) ]
    | |- context [lt ?x ?y] =>
        first [ replace (lt x y) with true by (symmetry; apply lt_true; lra)
              | replace (lt x y) with false by (symmetry; apply lt_false; lra) ]
    | |- context [eq ?x ?y] =>
        first [ replace (eq x y) with true by (symmetry; apply eq_true; lra)
              | replace (eq x y) with false by (symmetry; apply eq_false; lra) ]
    end.

(** ** [round] *)

Lemma round_half_even_IZR (k : Z) : round_half_even (IZR k) = k.
Proof.
  unfold round_half_even. rewrite ZfloorZ.
  destruct (Rlt_dec (IZR k - IZR k) (1 / 2)); [reflexivity | lra].
Qed.

Lemma round_half_even_near (y : R) :
  y - 1 / 2 <= IZR (round_half_even y) <= y + 1 / 2.
Proof.
  unfold round_half_even.
  pose proof (Zfloor_bound y) as [Hl Hu].
  destruct (Rlt_dec _ _) as [H1 | H1].
  - lra.
  - destruct (Rgt_dec _ _) as [H2 | H2].
    + rewrite plus_IZR. lra.
    + destruct (Z.even (Zfloor y)); [lra | rewrite plus_IZR; lra].
Qed.

Lemma round_half_even_mono (x y : R) :
  x <= y -> (round_half_even x <= round_half_even y)%Z.
Proof.
  intros Hxy.
  pose proof (Zfloor_le x y Hxy) as Hf.
  pose proof (Zfloor_bound x) as [Hxl Hxu].
  pose proof (Zfloor_bound y) as [Hyl Hyu].
  destruct (Z.eq_dec (Zfloor x) (Zfloor y)) as [E | NE].
  - unfold round_half_even. rewrite E. cbv zeta.
    set (f := Zfloor y) in *.
    destruct (Rlt_dec (x - IZR f) (1 / 2)), (Rlt_dec (y - IZR f) (1 / 2)),
      (Rgt_dec (x - IZR f) (1 / 2)), (Rgt_dec (y - IZR f) (1 / 2)),
      (Z.even f); try lia; lra.
  - assert (Hlt : (Zfloor x + 1 <= Zfloor y)%Z) by lia.
    assert (Hx : (round_half_even x <= Zfloor x + 1)%Z).
    { unfold round_half_even.
      destruct (Rlt_dec _ _); [lia |].
      destruct (Rgt_dec _ _); [lia |].
      destruct (Z.even _); lia. }
    assert (Hy : (Zfloor y <= round_half_even y)%Z).
    { unfold round_half_even.
      destruct (Rlt_dec _ _); [lia |].
      destruct (Rgt_dec _ _); [lia |].
      destruct (Z.even _); lia. }
    lia.
Qed.

Lemma pow10_pos (n : nat) : 0 < 10 ^ n.
Proof. apply pow_lt; lra. Qed.

Lemma round_mono (n : nat) (x y : R) : x <= y -> round x n <= round y n.
Proof.
  intros Hxy. unfold round.
  pose proof (pow10_pos n) as Hp.
  apply Rmult_le_compat_r; [left; apply Rinv_0_lt_compat; exact Hp |].
  apply IZR_le, round_half_even_mono.
  apply Rmult_le_compat_r; lra.
Qed.

(** A value with [n] decimals is its own rounding. *)
Lemma round_decimal (n : nat) (k : Z) (x : R) :
  x * 10 ^ n = IZR k -> round x n = x.
Proof.
  intros H. unfold round. rewrite H, round_half_even_IZR.
  pose proof (pow10_pos n) as Hp.
  rewrite <- H. field. lra.
Qed.

Lemma round_near (n : nat) (x : R) :
  Rabs (round x n - x) <= / 2 / 10 ^ n.
Proof.
  unfold round.
  pose proof (pow10_pos n) as Hp.
  pose proof (round_half_even_near (x * 10 ^ n)) as [Hl Hu].
  set (k := IZR (round_half_even (x * 10 ^ n))) in *.
  replace (k / 10 ^ n - x) with ((k - x * 10 ^ n) / 10 ^ n) by (field; lra).
  unfold Rdiv. rewrite Rabs_mult.
  rewrite (Rabs_pos_eq (/ 10 ^ n)) by (left; apply Rinv_0_lt_compat; exact Hp).
  apply Rmult_le_compat_r; [left; apply Rinv_0_lt_compat; exact Hp |].
  apply Rabs_le; lra.
Qed.

(** [round c 4 = c] for a constant [c] with four decimals, [k = 10^4 c]. *)
Ltac round_const k :=
  apply (round_decimal _ k); simpl; lra.

Lemma round_ge (n : nat) (k : Z) (c x : R) :
  c * 10 ^ n = IZR k -> c <= x -> c <= round x n.
Proof.
  intros Hc Hx. rewrite <- (round_decimal n k c Hc). apply round_mono, Hx.
Qed.

Lemma round_le (n : nat) (k : Z) (c x : R) :
  c * 10 ^ n = IZR k -> x <= c -> round x n <= c.
Proof.
  intros Hc Hx. rewrite <- (round_decimal n k c Hc). apply round_mono, Hx.
Qed.

Example round_035 : round 0.35 4 = 0.35.
Proof. round_const 3500%Z. Qed.

(** ** Arrays *)

Lemma zip_with_length (f : R -> R -> R) (a b : NP.ndarray) :
  List.length a = List.length b ->
  List.length (NP.zip_with f a b) = List.length a.
Proof.
  revert b; induction a as [| x a IH]; intros [| y b] H; simpl in *;
    try discriminate; auto.
Qed.

Lemma sub_same_length (a b : NP.ndarray) :
  List.length a = List.length b ->
  NP.sub a b = Ok (NP.zip_with Rminus a b).
Proof.
  intros H. unfold NP.sub, NP.broadcast. rewrite H, Nat.eqb_refl. reflexivity.
Qed.

Lemma add_same_length (a b : NP.ndarray) :
  List.length a = List.length b ->
  NP.add a b = Ok (NP.zip_with Rplus a b).
Proof.
  intros H. unfold NP.add, NP.broadcast. rewrite H, Nat.eqb_refl. reflexivity.
Qed.

Lemma dot_same_length (a b : NP.ndarray) :
  List.length a = List.length b ->
  NP.dot a b = Ok (NP.sum (NP.zip_with Rmult a b)).
Proof.
  intros H. unfold NP.dot. rewrite H, Nat.eqb_refl. reflexivity.
Qed.

Lemma sum_squares_nonneg (a : NP.ndarray) :
  0 <= NP.sum (map (fun x => x * x) a).
Proof.
  induction a as [| x a IH]; simpl; [lra | nra].
Qed.

Lemma norm_nonneg (a : NP.ndarray) : 0 <= NP.norm a.
Proof. apply sqrt_pos. Qed.

Lemma norm_sqr (a : NP.ndarray) :
  NP.norm a * NP.norm a = NP.sum (map (fun x => x * x) a).
Proof. unfold NP.norm. apply sqrt_sqrt, sum_squares_nonneg. Qed.

Lemma sub_self (a : NP.ndarray) :
  NP.sub a a = Ok (repeat 0 (List.length a)).
Proof.
  rewrite sub_same_length by reflexivity. f_equal.
  induction a as [| x a IH]; simpl; [reflexivity |].
  rewrite IH. f_equal. lra.
Qed.

Lemma zip_with_zeros (n : nat) :
  NP.zip_with Rminus (repeat 0 n) (repeat 0 n) = repeat 0 n.
Proof.
  induction n as [| n IH]; simpl; [reflexivity |].
  rewrite IH. f_equal. lra.
Qed.

Lemma norm_zeros (n : nat) : NP.norm (repeat 0 n) = 0.
Proof.
  unfold NP.norm.
  replace (NP.sum (map (fun x => x * x) (repeat 0 n))) with 0;
    [apply sqrt_0 |].
  induction n as [| n IH]; simpl; [reflexivity | rewrite <- IH; lra].
Qed.

Lemma sq_le_sq (a b : R) : 0 <= b -> a * a <= b * b -> a <= b.
Proof.
  intros Hb H. destruct (Rle_dec a b) as [L | L]; [exact L |].
  apply Rnot_le_lt in L. exfalso.
  assert (b * b < a * a) by nra. lra.
Qed.

Lemma cs_step (x y p sa sb : R) :
  0 <= sa -> 0 <= sb -> p * p <= sa * sb ->
  (x * y + p) * (x * y + p) <= (x * x + sa) * (y * y + sb).
Proof.
  intros Ha Hb Hp.
  assert (H2 : 2 * (x * y) * p <= x * x * sb + y * y * sa).
  { apply sq_le_sq.
    - pose proof (Rle_0_sqr x). pose proof (Rle_0_sqr y). unfold Rsqr in *. nra.
    - set (u := x * x * sb). set (v := y * y * sa).
      assert (Hxy : 0 <= (x * y) * (x * y)) by (pose proof (Rle_0_sqr (x * y)); unfold Rsqr in *; lra).
      assert (H1 : (x * y) * (x * y) * (p * p) <= (x * y) * (x * y) * (sa * sb))
        by (apply Rmult_le_compat_l; assumption).
      assert (H3 : 0 <= (u - v) * (u - v)) by (pose proof (Rle_0_sqr (u - v)); unfold Rsqr in *; lra).
      replace (2 * (x * y) * p * (2 * (x * y) * p)) with (4 * ((x * y) * (x * y) * (p * p))) by ring.
      replace ((u + v) * (u + v)) with ((u - v) * (u - v) + 4 * ((x * y) * (x * y) * (sa * sb)))
        by (unfold u, v; ring).
      lra. }
  replace ((x * y + p) * (x * y + p)) with ((x * y) * (x * y) + 2 * (x * y) * p + p * p) by ring.
  replace ((x * x + sa) * (y * y + sb)) with ((x * y) * (x * y) + (x * x * sb + y * y * sa) + sa * sb) by ring.
  lra.
Qed.

(** Cauchy-Schwarz, on the sums the code computes. *)
Lemma cauchy_schwarz_sums (a b : NP.ndarray) :
  NP.sum (NP.zip_with Rmult a b) * NP.sum (NP.zip_with Rmult a b)
  <= NP.sum (map (fun x => x * x) a) * NP.sum (map (fun x => x * x) b).
Proof.
  revert b; induction a as [| x a IH]; intros b.
  - simpl. lra.
  - destruct b as [| y b].
    + simpl. pose proof (sum_squares_nonneg a).
      pose proof (Rle_0_sqr x). unfold Rsqr in *. nra.
    + simpl. apply cs_step; auto using sum_squares_nonneg.
Qed.

Lemma cosine_le_1 (a b : NP.ndarray) :
  0 < NP.norm a -> 0 < NP.norm b ->
  NP.sum (NP.zip_with Rmult a b) / (NP.norm a * NP.norm b) <= 1.
Proof.
  intros Ha Hb.
  pose proof (cauchy_schwarz_sums a b) as CS.
  rewrite <- !norm_sqr in CS.
  set (p := NP.sum (NP.zip_with Rmult a b)) in *.
  set (na := NP.norm a) in *. set (nb := NP.norm b) in *.
  assert (Hpos : 0 < na * nb) by nra.
  apply (Rmult_le_reg_r (na * nb)); [exact Hpos |].
  unfold Rdiv. rewrite Rmult_assoc, Rinv_l by lra.
  rewrite Rmult_1_r, Rmult_1_l.
  destruct (Rle_dec p (na * nb)) as [H | H]; [exact H |].
  apply Rnot_le_lt in H. exfalso.
  assert (na * nb * (na * nb) < p * p) by nra.
  nra.
Qed.

(** ** [Fatigue]: the histories *)

Lemma neg_index_1_app {A : Type} (l : list A) (x : A) :
  neg_index (l ++ [x]) 1 = Ok x.
Proof. unfold neg_index. rewrite rev_app_distr. reflexivity. Qed.

Lemma neg_index_1_last {A : Type} (l : list A) (x d : A) :
  neg_index (x :: l) 1 = Ok (last (x :: l) d).
Proof.
  destruct (exists_last (l := x :: l)) as [l' [y E]]; [discriminate |].
  rewrite E, neg_index_1_app, last_last. reflexivity.
Qed.

Lemma deltas_length (l : list NP.ndarray) :
  List.length (Fatigue.deltas l) = (List.length l - 1)%nat.
Proof.
  induction l as [| x [| y l] IH]; simpl in *; try reflexivity.
  rewrite IH. lia.
Qed.

Lemma deltas_snoc (l : list NP.ndarray) (x0 x d : NP.ndarray) :
  Fatigue.deltas ((x0 :: l) ++ [x])
  = Fatigue.deltas (x0 :: l) ++ [NP.sub x (last (x0 :: l) d)].
Proof.
  revert x0; induction l as [| y l IH]; intros x0.
  - reflexivity.
  - change (Fatigue.deltas ((x0 :: y :: l) ++ [x]))
      with (NP.sub y x0 :: Fatigue.deltas ((y :: l) ++ [x])).
    rewrite IH. reflexivity.
Qed.

Lemma deltas_tl (l : list NP.ndarray) :
  Fatigue.deltas (tl l) = tl (Fatigue.deltas l).
Proof. destruct l as [| x [| y l]]; reflexivity. Qed.

Lemma update_w (s s' : Fatigue.t) (x : NP.ndarray) :
  Fatigue.update s x = Ok s' -> Fatigue.w s' = Fatigue.w s.
Proof.
  unfold Fatigue.update, bind. intros H.
  destruct (Fatigue.e s) as [| x0 l].
  - inversion H; reflexivity.
  - destruct (neg_index (x0 :: l) 1); [| discriminate].
    destruct (NP.sub x a); [| discriminate].
    inversion H; reflexivity.
Qed.

(** The two histories after an [update] that returns, before and after
    the evictions. *)
Lemma update_histories (s s' : Fatigue.t) (x : NP.ndarray) :
  Fatigue.update s x = Ok s' ->
  exists v1,
    (Fatigue.e s = [] /\ v1 = Fatigue.v s
     \/ exists d, Fatigue.e s <> []
                  /\ NP.sub x (last (Fatigue.e s) []) = Ok d
                  /\ v1 = Fatigue.v s ++ [d])
    /\ Fatigue.v s' = (if Nat.ltb (Fatigue.w s) (List.length v1) then tl v1 else v1)
    /\ Fatigue.e s' = (if Nat.ltb (Fatigue.w s) (List.length (Fatigue.e s ++ [x]))
                       then tl (Fatigue.e s ++ [x]) else Fatigue.e s ++ [x])
    /\ Fatigue.w s' = Fatigue.w s.
Proof.
  unfold Fatigue.update, bind, pop0. intros H.
  destruct (Fatigue.e s) as [| x0 l] eqn:E.
  - inversion H; subst; clear H. simpl.
    exists (Fatigue.v s). repeat split; auto.
  - rewrite (neg_index_1_last l x0 []) in H.
    destruct (NP.sub x (last (x0 :: l) [])) as [d |] eqn:Ed; [| discriminate].
    inversion H; subst; clear H. simpl.
    exists (Fatigue.v s ++ [d]). repeat split; auto.
    right. exists d. repeat split; auto. discriminate.
Qed.

Lemma window_invariant_init (w0 : nat) : window_invariant (Fatigue.init w0).
Proof.
  unfold window_invariant; simpl. repeat split; try lia.
  exists []; reflexivity.
Qed.

Lemma window_invariant_reset (s : Fatigue.t) : window_invariant (Fatigue.reset s).
Proof.
  unfold window_invariant; simpl. repeat split; try lia.
  exists []; reflexivity.
Qed.

Lemma window_invariant_update (s s' : Fatigue.t) (x : NP.ndarray) :
  window_invariant s -> Fatigue.update s x = Ok s' -> window_invariant s'.
Proof.
  intros (He & Hv & Hlen & older & Hd) H.
  apply update_histories in H as (v1 & Hv1 & Ev' & Ee' & Ew').
  unfold window_invariant. rewrite Ev', Ee', Ew'. clear Ev' Ee' Ew' s'.
  set (w0 := Fatigue.w s) in *.
  assert (Hle1 : List.length (Fatigue.e s ++ [x]) = S (List.length (Fatigue.e s)))
    by (rewrite length_app; simpl; lia).
  destruct Hv1 as [[Ee Ev1] | (d & Ene & Ed & Ev1)].
  - (* first embedding *)
    subst v1. rewrite Ee in *. simpl in *.
    assert (Hv0 : Fatigue.v s = []).
    { destruct (Fatigue.v s); [reflexivity | simpl in *; lia]. }
    rewrite Hv0 in *. simpl.
    destruct w0 as [| w0]; simpl.
    + repeat split; try lia. exists []; reflexivity.
    + repeat split; try lia. exists []; reflexivity.
  - (* a later embedding *)
    assert (Hlv1 : List.length v1 = S (List.length (Fatigue.v s)))
      by (subst v1; rewrite length_app; simpl; lia).
    assert (Hd1 : map Ok v1 = older ++ Fatigue.deltas (Fatigue.e s ++ [x])).
    { destruct (Fatigue.e s) as [| x0 l] eqn:E; [contradiction |].
      rewrite (deltas_snoc l x0 x []), Ed. subst v1.
      rewrite map_app, Hd, <- app_assoc. reflexivity. }
    assert (Hpos : (0 < List.length (Fatigue.e s))%nat).
    { destruct (Fatigue.e s); [contradiction | simpl; lia]. }
    clearbody w0. clear Ed Ev1 Hd Ene.
    set (e1 := Fatigue.e s ++ [x]) in *.
    assert (Hdl : List.length (Fatigue.deltas e1) = List.length (Fatigue.e s))
      by (rewrite deltas_length, Hle1; lia).
    assert (Holder : (List.length older + List.length (Fatigue.e s)
                      = S (List.length (Fatigue.v s)))%nat).
    { apply (f_equal (@List.length _)) in Hd1.
      rewrite length_map, length_app, Hdl in Hd1. lia. }
    destruct (Nat.ltb_spec w0 (List.length v1)) as [Lv | Lv];
      destruct (Nat.ltb_spec w0 (List.length e1)) as [Le | Le].
    + (* both evict *)
      assert (Hlt1 : List.length (tl v1) = List.length (Fatigue.v s))
        by (destruct v1; simpl in *; lia).
      assert (Hle2 : List.length (tl e1) = List.length (Fatigue.e s))
        by (destruct e1; simpl in *; lia).
      rewrite Hlt1, Hle2. repeat split; try lia.
      destruct older as [| o older'].
      * simpl in Holder. lia.
      * exists (older' ++ [hd (Raise ValueError) (Fatigue.deltas e1)]).
        rewrite deltas_tl, <- app_assoc.
        destruct v1 as [| y v1']; [simpl in *; lia |].
        simpl in Hd1. inversion Hd1; subst. simpl tl. rewrite H1.
        destruct (Fatigue.deltas e1); [simpl in *; lia | reflexivity].
    + (* only the velocities would evict: impossible *)
      lia.
    + (* only the embeddings evict *)
      assert (Hle2 : List.length (tl e1) = List.length (Fatigue.e s))
        by (destruct e1; simpl in *; lia).
      rewrite Hle2, Hlv1. repeat split; try lia.
      exists (older ++ [hd (Raise ValueError) (Fatigue.deltas e1)]).
      rewrite deltas_tl, <- app_assoc, Hd1.
      destruct (Fatigue.deltas e1); [simpl in *; lia | reflexivity].
    + (* no eviction *)
      rewrite Hlv1, Hle1. repeat split; try lia.
      exists older; exact Hd1.
Qed.

Lemma window_invariant_call (s : Fatigue.t) (o : Fatigue.op) :
  window_invariant s -> window_invariant (Fatigue.call s o).
Proof.
  intros H. destruct o as [x |]; simpl.
  - destruct (Fatigue.update s x) eqn:E;
      [eapply window_invariant_update; eauto | exact H].
  - apply window_invariant_reset.
Qed.

Lemma window_invariant_run (ops : list Fatigue.op) (s : Fatigue.t) :
  window_invariant s -> window_invariant (Fatigue.run s ops).
Proof.
  revert s; induction ops as [| o ops IH]; intros s H; simpl.
  - exact H.
  - apply IH, window_invariant_call, H.
Qed.

Lemma last_in_Forall {A : Type} (P : A -> Prop) (l : list A) (d : A) :
  l <> [] -> Forall P l -> P (last l d).
Proof.
  intros Hne HF.
  destruct (exists_last Hne) as [l' [y E]]. subst l.
  rewrite last_last. apply Forall_app in HF as [_ HF]. inversion HF; auto.
Qed.

Lemma Forall_tl {A : Type} (P : A -> Prop) (l : list A) :
  Forall P l -> Forall P (tl l).
Proof. intros H; destruct l; [constructor | inversion H; auto]. Qed.

(** With embeddings of one dimension [update] returns, and the lengths of
    the histories follow the number of updates. *)
Lemma update_counts (d n : nat) (s : Fatigue.t) (x : NP.ndarray) :
  List.length (Fatigue.e s) = Nat.min n (Fatigue.w s) ->
  List.length (Fatigue.v s) = Nat.min (n - 1) (Fatigue.w s) ->
  Forall (fun y => List.length y = d) (Fatigue.e s) ->
  List.length x = d ->
  exists s', Fatigue.update s x = Ok s'
    /\ Fatigue.w s' = Fatigue.w s
    /\ List.length (Fatigue.e s') = Nat.min (S n) (Fatigue.w s)
    /\ List.length (Fatigue.v s') = Nat.min n (Fatigue.w s)
    /\ Forall (fun y => List.length y = d) (Fatigue.e s').
Proof.
  intros He Hv Hdim Hx.
  assert (Hok : exists s', Fatigue.update s x = Ok s').
  { unfold Fatigue.update, bind.
    destruct (Fatigue.e s) as [| x0 l] eqn:E; [eexists; reflexivity |].
    rewrite (neg_index_1_last l x0 []).
    rewrite sub_same_length; [eexists; reflexivity |].
    rewrite Hx. symmetry.
    apply (last_in_Forall (fun y => List.length y = d)); [discriminate | exact Hdim]. }
  destruct Hok as [s' Hs']. exists s'. split; [exact Hs' |].
  apply update_histories in Hs' as (v1 & Hv1 & Ev' & Ee' & Ew').
  rewrite Ev', Ee'. split; [exact Ew' |].
  assert (Hle1 : List.length (Fatigue.e s ++ [x]) = S (List.length (Fatigue.e s)))
    by (rewrite length_app; simpl; lia).
  assert (HF1 : Forall (fun y => List.length y = d) (Fatigue.e s ++ [x]))
    by (apply Forall_app; split; [exact Hdim | repeat constructor; exact Hx]).
  assert (Hlv1 : List.length v1
                 = match Fatigue.e s with
                   | [] => List.length (Fatigue.v s)
                   | _ :: _ => S (List.length (Fatigue.v s))
                   end).
  { destruct Hv1 as [[Ee Ev1] | (dd & Ene & _ & Ev1)]; subst v1.
    - rewrite Ee; reflexivity.
    - destruct (Fatigue.e s); [contradiction |].
      rewrite length_app; simpl; lia. }
  clear Hv1 Ev' Ee' Ew'.
  set (w0 := Fatigue.w s) in *. clearbody w0.
  assert (Htl : forall (l : list NP.ndarray),
             List.length (tl l) = (List.length l - 1)%nat)
    by (intros l; destruct l; simpl; lia).
  split; [| split].
  - destruct (Nat.ltb_spec w0 (List.length (Fatigue.e s ++ [x]))) as [L | L];
      [rewrite Htl |]; lia.
  - assert (Hl : List.length v1
                 = if Nat.eqb n 0 then 0%nat
                   else if Nat.eqb w0 0 then 0%nat
                   else S (Nat.min (n - 1) w0)).
    { rewrite Hlv1. destruct (Fatigue.e s) as [| x0 l]; simpl in He.
      - destruct n; simpl; [lia |]. destruct w0; simpl; lia.
      - destruct n; simpl; [lia |]. destruct w0; simpl; lia. }
    destruct (Nat.ltb_spec w0 (List.length v1)) as [L | L];
      [rewrite Htl |]; rewrite Hl in *;
      destruct n; simpl in *; try lia; destruct w0; simpl in *; lia.
  - destruct (Nat.ltb w0 _); [apply Forall_tl |]; exact HF1.
Qed.

Lemma calls_counts (d : nat) (xs : list NP.ndarray) :
  Forall (fun x => List.length x = d) xs ->
  forall (n : nat) (s : Fatigue.t),
    List.length (Fatigue.e s) = Nat.min n (Fatigue.w s) ->
    List.length (Fatigue.v s) = Nat.min (n - 1) (Fatigue.w s) ->
    Forall (fun y => List.length y = d) (Fatigue.e s) ->
    let s' := Fatigue.calls s xs in
    List.length (Fatigue.e s') = Nat.min (n + List.length xs) (Fatigue.w s)
    /\ List.length (Fatigue.v s') = Nat.min (n + List.length xs - 1) (Fatigue.w s).
Proof.
  induction 1 as [| x xs Hx HF IH]; intros n s He Hv Hdim; simpl.
  - rewrite Nat.add_0_r. auto.
  - destruct (update_counts d n s x He Hv Hdim Hx)
      as (s1 & E1 & Ew & He1 & Hv1 & Hdim1).
    unfold Fatigue.calls, Fatigue.run. simpl. rewrite E1.
    specialize (IH (S n) s1). rewrite Ew in IH.
    rewrite <- !Nat.add_succ_comm.
    apply (IH He1); [| exact Hdim1].
    replace (S n - 1)%nat with n by lia. exact Hv1.
Qed.

(** C3 (amended).  After any sequence of [update] and [reset] calls both
    histories are capped at the window [w]; there is one velocity less
    than embeddings, or both histories are full; and the differences of
    consecutive stored embeddings are the last velocities.  After [n]
    updates with embeddings of one dimension the histories hold
    [min n w] embeddings and [min (n-1) w] velocities: the two lengths
    differ by one up to the [w]-th update and are both [w] from the
    [(w+1)]-th on. *)
Theorem fatigue_histories :
  (forall (w0 : nat) (ops : list Fatigue.op),
      window_invariant (Fatigue.run (Fatigue.init w0) ops))
  /\
  (forall (w0 d : nat) (xs : list NP.ndarray),
      Forall (fun x => List.length x = d) xs ->
      let s := Fatigue.calls (Fatigue.init w0) xs in
      List.length (Fatigue.e s) = Nat.min (List.length xs) w0
      /\ List.length (Fatigue.v s) = Nat.min (List.length xs - 1) w0).
Proof.
  split.
  - intros w0 ops. apply window_invariant_run, window_invariant_init.
  - intros w0 d xs HF.
    apply (calls_counts d xs HF 0 (Fatigue.init w0)); simpl; auto.
Qed.

(** C3 as specified fails at the sixth update: the window [W = 5] then
    holds five embeddings and five velocities, and the oldest velocity is
    the difference with an embedding that is no longer stored. *)
Lemma fatigue_specified_invariant_fails :
  let s := Fatigue.calls (Fatigue.init 5) [[1]; [2]; [3]; [4]; [5]; [6]] in
  Fatigue.e s = [[2]; [3]; [4]; [5]; [6]]
  /\ Fatigue.v s = [[2 - 1]; [3 - 2]; [4 - 3]; [5 - 4]; [6 - 5]]
  /\ List.length (Fatigue.v s) <> Nat.max 0 (List.length (Fatigue.e s) - 1)
  /\ ~ specified_invariant s.
Proof.
  assert (E : Fatigue.calls (Fatigue.init 5) [[1]; [2]; [3]; [4]; [5]; [6]]
              = Fatigue.mk 5 [[2]; [3]; [4]; [5]; [6]]
                  [[2 - 1]; [3 - 2]; [4 - 3]; [5 - 4]; [6 - 5]]).
  { reflexivity. }
  cbv zeta. rewrite E. simpl.
  repeat split; try discriminate.
  intros (H & _). simpl in H. discriminate.
Qed.

(** ** [reset] *)

Lemma fatigue_run_w (ops : list Fatigue.op) (s : Fatigue.t) :
  Fatigue.w (Fatigue.run s ops) = Fatigue.w s.
Proof.
  unfold Fatigue.run.
  revert s; induction ops as [| o ops IH]; intros s; simpl; [reflexivity |].
  rewrite IH.
  destruct o as [x |]; simpl; [| reflexivity].
  destruct (Fatigue.update s x) eqn:E; [eapply update_w; eauto | reflexivity].
Qed.

Lemma pulse_update_weights (s s' : PulseEstimator.t) (msg : string)
  (emb : NP.ndarray) (timestamp r : R) :
  PulseEstimator.update s msg emb timestamp = Ok (s', r) ->
  pulse_weights s' = pulse_weights s.
Proof.
  unfold PulseEstimator.update, bind. intros H.
  destruct (PulseEstimator.N_t s emb); [| discriminate].
  destruct (PulseEstimator.D_t s emb); [| discriminate].
  destruct (truediv _ _); [| discriminate].
  inversion H; reflexivity.
Qed.

Lemma pulse_call_weights (acc : PulseEstimator.t * list R)
  (c : string * NP.ndarray * R) :
  pulse_weights (fst (PulseEstimator.call acc c)) = pulse_weights (fst acc).
Proof.
  destruct c as [[msg emb] timestamp]. unfold PulseEstimator.call.
  destruct (PulseEstimator.update (fst acc) msg emb timestamp) as [[s' r] |] eqn:E;
    [| reflexivity].
  simpl. eapply pulse_update_weights; eauto.
Qed.

Lemma pulse_calls_weights (cs : list (string * NP.ndarray * R))
  (acc : PulseEstimator.t * list R) :
  pulse_weights (fst (fold_left PulseEstimator.call cs acc)) = pulse_weights (fst acc).
Proof.
  revert acc; induction cs as [| c cs IH]; intros acc; simpl; [reflexivity |].
  rewrite IH. apply pulse_call_weights.
Qed.

Lemma direction_update_alpha (s s' : DirectionTracker.t) (x : NP.ndarray) (tau_h : R) :
  DirectionTracker.update s x tau_h = Ok s' ->
  DirectionTracker.base_alpha s' = DirectionTracker.base_alpha s.
Proof.
  assert (Hn : forall d s1, DirectionTracker.normalized s d = Ok s1 ->
                            DirectionTracker.base_alpha s1 = DirectionTracker.base_alpha s).
  { intros d s1. unfold DirectionTracker.normalized, bind.
    destruct (gt _ _); [destruct (NP.div_scalar _ _); [| discriminate] |];
      intros H; inversion H; reflexivity. }
  unfold DirectionTracker.update, bind.
  destruct (DirectionTracker.tau_dir s); [| apply Hn].
  destruct (NP.add _ _); [apply Hn | discriminate].
Qed.

Lemma direction_calls_alpha (cs : list (NP.ndarray * R)) (s : DirectionTracker.t) :
  DirectionTracker.base_alpha (DirectionTracker.calls s cs)
  = DirectionTracker.base_alpha s.
Proof.
  unfold DirectionTracker.calls.
  revert s; induction cs as [| c cs IH]; intros s; simpl; [reflexivity |].
  rewrite IH. unfold DirectionTracker.call.
  destruct (DirectionTracker.update s (fst c) (snd c)) eqn:E;
    [eapply direction_update_alpha; eauto | reflexivity].
Qed.

(** C8.  [reset()] after any sequence of calls gives the object that the
    constructor builds: empty histories (and the window it was built
    with) for [Fatigue]; pulse 0.5, no timestamp and no embedding, and the
    weights of the constructor, for [PulseEstimator]; no direction, and
    the base smoothing of the constructor, for [DirectionTracker]. *)
Theorem reset_restores_fresh_instance :
  (forall (w0 : nat) (ops : list Fatigue.op),
      Fatigue.reset (Fatigue.run (Fatigue.init w0) ops) = Fatigue.init w0)
  /\ (forall cs : list (string * NP.ndarray * R),
         PulseEstimator.reset (fst (PulseEstimator.calls PulseEstimator.init cs))
         = PulseEstimator.init)
  /\ (forall cs : list (NP.ndarray * R),
         DirectionTracker.reset (DirectionTracker.calls DirectionTracker.init cs)
         = DirectionTracker.init).
Proof.
  split; [| split].
  - intros w0 ops. unfold Fatigue.reset, Fatigue.init.
    rewrite fatigue_run_w. reflexivity.
  - intros cs. unfold PulseEstimator.calls.
    pose proof (pulse_calls_weights cs (PulseEstimator.init, [])) as H.
    destruct (fst (fold_left PulseEstimator.call cs (PulseEstimator.init, []))).
    unfold pulse_weights in H. simpl in H.
    unfold PulseEstimator.reset, PulseEstimator.init. simpl.
    inversion H; subst. reflexivity.
  - intros cs. unfold DirectionTracker.reset, DirectionTracker.init.
    rewrite direction_calls_alpha. reflexivity.
Qed.

(** ** [Fatigue.score] *)

Lemma neg_index_ok {A : Type} (l : list A) (k : nat) :
  (1 <= k <= List.length l)%nat -> exists a, neg_index l k = Ok a /\ In a l.
Proof.
  intros Hk. unfold neg_index.
  destruct (nth_error (rev l) (k - 1)) as [a |] eqn:E.
  - exists a. split; [reflexivity |].
    apply in_rev. eapply nth_error_In; eauto.
  - apply nth_error_None in E. rewrite length_rev in E. lia.
Qed.

Lemma neg_index_repeat {A : Type} (a : A) (j k : nat) :
  (1 <= k <= j)%nat -> neg_index (repeat a j) k = Ok a.
Proof.
  intros Hk.
  destruct (neg_index_ok (repeat a j) k) as (b & E & Hin);
    [rewrite repeat_length; exact Hk |].
  apply repeat_spec in Hin. subst b. exact E.
Qed.

Lemma truediv_some (x y : R) : 0 < y -> truediv x y = Ok (x / y).
Proof. intros H. apply truediv_ok. lra. Qed.

(** [_dp]: defined on velocities of one dimension, zero on a short
    history and when one of the two last velocities has norm zero. *)
Lemma dp_defined (d : nat) (s : Fatigue.t) :
  Forall (fun x => List.length x = d) (Fatigue.v s) ->
  exists dp, Fatigue._dp s = Ok dp
    /\ ((List.length (Fatigue.v s) < 2)%nat -> dp = 0)
    /\ (forall a b, neg_index (Fatigue.v s) 2 = Ok a ->
                    neg_index (Fatigue.v s) 1 = Ok b ->
                    NP.norm a = 0 \/ NP.norm b = 0 -> dp = 0).
Proof.
  intros HF. unfold Fatigue._dp, bind.
  destruct (Nat.ltb_spec (List.length (Fatigue.v s)) 2) as [L | L].
  - exists 0. repeat split; auto.
  - destruct (neg_index_ok (Fatigue.v s) 2) as (a & Ea & Ia); [lia |].
    destruct (neg_index_ok (Fatigue.v s) 1) as (b & Eb & Ib); [lia |].
    rewrite Ea, Eb. cbv zeta.
    rewrite Forall_forall in HF.
    pose proof (HF a Ia) as La. pose proof (HF b Ib) as Lb.
    pose proof (norm_nonneg a) as Na. pose proof (norm_nonneg b) as Nb.
    destruct (gt (NP.norm a) 0) eqn:Ga; simpl.
    + destruct (gt (NP.norm b) 0) eqn:Gb; simpl.
      * apply gt_true in Ga, Gb.
        rewrite dot_same_length by congruence.
        rewrite truediv_some by (apply Rmult_lt_0_compat; lra).
        eexists; split; [reflexivity |]. split; [lia |].
        intros a' b' Ha' Hb' Hz. inversion Ha'; inversion Hb'; subst. lra.
      * exists 0. repeat split; auto.
    + exists 0. repeat split; auto.
Qed.

(** [_cc]: defined on velocities of one dimension, zero on a short
    history and when the two older velocities are equal. *)
Lemma cc_defined (d : nat) (s : Fatigue.t) :
  Forall (fun x => List.length x = d) (Fatigue.v s) ->
  exists cc, Fatigue._cc s = Ok cc
    /\ ((List.length (Fatigue.v s) < 3)%nat -> cc = 0)
    /\ (forall a b ba, neg_index (Fatigue.v s) 3 = Ok a ->
                       neg_index (Fatigue.v s) 2 = Ok b ->
                       NP.sub b a = Ok ba ->
                       NP.norm ba = 0 -> cc = 0).
Proof.
  intros HF. unfold Fatigue._cc, bind.
  destruct (Nat.ltb_spec (List.length (Fatigue.v s)) 3) as [L | L].
  - exists 0. repeat split; auto.
  - destruct (neg_index_ok (Fatigue.v s) 3) as (a & Ea & Ia); [lia |].
    destruct (neg_index_ok (Fatigue.v s) 2) as (b & Eb & Ib); [lia |].
    destruct (neg_index_ok (Fatigue.v s) 1) as (c & Ec & Ic); [lia |].
    rewrite Ea, Eb, Ec.
    rewrite Forall_forall in HF.
    pose proof (HF a Ia) as La. pose proof (HF b Ib) as Lb.
    pose proof (HF c Ic) as Lc.
    rewrite (sub_same_length c b) by congruence.
    rewrite (sub_same_length b a) by congruence.
    rewrite sub_same_length
      by (rewrite !zip_with_length; congruence).
    cbv zeta.
    set (ba := NP.zip_with Rminus b a).
    set (dd := NP.zip_with Rminus _ ba).
    pose proof (norm_nonneg ba) as Nba. pose proof (norm_nonneg dd) as Ndd.
    destruct (gt (NP.norm ba ^ 3) 0) eqn:G.
    + apply gt_true in G.
      rewrite truediv_some by lra.
      assert (0 <= NP.norm dd / NP.norm ba ^ 3).
      { apply Rmult_le_pos; [exact Ndd | left; apply Rinv_0_lt_compat; lra]. }
      rewrite truediv_some by lra.
      eexists; split; [reflexivity |]. split; [lia |].
      intros a' b' ba' Ha' Hb' Hba' Hz.
      inversion Ha'; inversion Hb'; subst a' b'.
      rewrite sub_same_length in Hba' by congruence.
      inversion Hba'; subst ba'. fold ba in Hz. rewrite Hz in G.
      simpl in G. lra.
    + exists 0. repeat split; auto.
Qed.

(** [_sc]: always defined; zero on a short history, when the
    decomposition fails, and when the singular values do not sum to a
    positive number. *)
Lemma sc_defined (svd : list NP.ndarray -> option (list R)) (s : Fatigue.t) :
  exists sc, Fatigue._sc svd s = Ok sc
    /\ ((List.length (Fatigue.e s) < 2)%nat -> sc = 0)
    /\ (svd (Fatigue.e s) = None -> sc = 0)
    /\ (forall sv, svd (Fatigue.e s) = Some sv -> NP.sum sv <= 0 -> sc = 0).
Proof.
  unfold Fatigue._sc.
  destruct (Nat.ltb_spec (List.length (Fatigue.e s)) 2) as [L | L].
  - exists 0. repeat split; auto.
  - destruct (svd (Fatigue.e s)) as [sv |] eqn:E; simpl.
    + destruct (gt (NP.sum sv) 0) eqn:G.
      * apply gt_true in G. rewrite truediv_some by lra. simpl.
        eexists; split; [reflexivity |]. split; [lia |].
        split; [discriminate |].
        intros sv' Hsv' Hle. inversion Hsv'; subst. lra.
      * exists 0. repeat split; auto.
    + exists 0. repeat split; auto.
Qed.

Lemma clamp_bounds (x : R) : 0 <= Rmax 0 (Rmin 1 x) <= 1.
Proof.
  unfold Rmax, Rmin.
  destruct (Rle_dec 1 x); destruct (Rle_dec 0 _); lra.
Qed.

Lemma round4_unit (x : R) : 0 <= x <= 1 -> 0 <= round x 4 <= 1.
Proof.
  intros [H0 H1]. split.
  - apply (round_ge 4 0%Z); [simpl; lra | exact H0].
  - apply (round_le 4 10000%Z); [simpl; lra | exact H1].
Qed.

(** [score()] returns, and the fatigue it returns is between 0 and 1. *)
Lemma score_defined
  (svd : list NP.ndarray -> option (list R)) (d : nat) (s : Fatigue.t) :
  Forall (fun x => List.length x = d) (Fatigue.v s) ->
  exists f comps st, Fatigue.score svd s = Ok (f, comps, st) /\ 0 <= f <= 1.
Proof.
  intros HF.
  destruct (dp_defined d s HF) as (dp & Edp & _).
  destruct (sc_defined svd s) as (sc & Esc & _).
  destruct (cc_defined d s HF) as (cc & Ecc & _).
  unfold Fatigue.score, bind. rewrite Edp, Esc, Ecc.
  destruct (Nat.ltb _ 2).
  - exists 0, [], fresh. split; [reflexivity | lra].
  - do 3 eexists. split; [reflexivity |].
    apply round4_unit, clamp_bounds.
Qed.

(** C10.  On histories whose velocities have one dimension (embeddings of
    a fixed length), [score()] returns: no exception leaves it, and the
    fatigue it returns lies in [0, 1].  Each sub-score is defined; it is
    zero on a history too short for it, when a norm in its denominator
    is zero, and, for the spectral concentration, when the singular value
    decomposition raises or the singular values do not sum to a positive
    number. *)
Theorem score_never_raises
  (svd : list NP.ndarray -> option (list R)) (d : nat) (s : Fatigue.t) :
  Forall (fun x => List.length x = d) (Fatigue.v s) ->
  (exists f comps st, Fatigue.score svd s = Ok (f, comps, st) /\ 0 <= f <= 1)
  /\ (exists dp, Fatigue._dp s = Ok dp
        /\ ((List.length (Fatigue.v s) < 2)%nat -> dp = 0)
        /\ (forall a b, neg_index (Fatigue.v s) 2 = Ok a ->
                        neg_index (Fatigue.v s) 1 = Ok b ->
                        NP.norm a = 0 \/ NP.norm b = 0 -> dp = 0))
  /\ (exists sc, Fatigue._sc svd s = Ok sc
        /\ ((List.length (Fatigue.e s) < 2)%nat -> sc = 0)
        /\ (svd (Fatigue.e s) = None -> sc = 0)
        /\ (forall sv, svd (Fatigue.e s) = Some sv -> NP.sum sv <= 0 -> sc = 0))
  /\ (exists cc, Fatigue._cc s = Ok cc
        /\ ((List.length (Fatigue.v s) < 3)%nat -> cc = 0)
        /\ (forall a b ba, neg_index (Fatigue.v s) 3 = Ok a ->
                           neg_index (Fatigue.v s) 2 = Ok b ->
                           NP.sub b a = Ok ba ->
                           NP.norm ba = 0 -> cc = 0)).
Proof.
  intros HF.
  split; [exact (score_defined svd d s HF) |].
  split; [exact (dp_defined d s HF) |].
  split; [exact (sc_defined svd s) | exact (cc_defined d s HF)].
Qed.

(** A window of three zero embeddings, and a decomposition that raises:
    every guard of [score()] is taken. *)
Lemma score_never_raises_witness :
  exists f comps st,
    Fatigue.score (fun _ => None)
      (Fatigue.mk 5 [[0; 0]; [0; 0]; [0; 0]] [[0; 0]; [0; 0]])
    = Ok (f, comps, st) /\ 0 <= f <= 1.
Proof.
  apply (score_never_raises (fun _ => None) 2
           (Fatigue.mk 5 [[0; 0]; [0; 0]; [0; 0]] [[0; 0]; [0; 0]])).
  simpl. repeat constructor.
Defined.

(** ** [Fatigue]: the same embedding again and again *)

Lemma repeat_snoc {A : Type} (a : A) (n : nat) :
  repeat a n ++ [a] = repeat a (S n).
Proof. symmetry. apply repeat_cons. Qed.

Lemma last_repeat {A : Type} (a d : A) (n : nat) : last (repeat a (S n)) d = a.
Proof. rewrite <- repeat_snoc. apply last_last. Qed.

Lemma tl_repeat {A : Type} (a : A) (n : nat) : tl (repeat a (S n)) = repeat a n.
Proof. reflexivity. Qed.

Lemma match_nonempty {A B : Type} (l : list A) (a b : B) :
  l <> [] -> match l with [] => a | _ :: _ => b end = b.
Proof. destruct l; [contradiction | reflexivity]. Qed.

(** The object after [m] updates with the embedding [x]. *)
Lemma update_constant_window (w0 m : nat) (x : NP.ndarray) :
  Fatigue.update (constant_window w0 x m) x = Ok (constant_window w0 x (S m)).
Proof.
  unfold Fatigue.update, constant_window, bind, pop0. simpl Fatigue.e.
  simpl Fatigue.v. simpl Fatigue.w.
  destruct (Nat.min m w0) as [| k] eqn:Ek.
  - (* no embedding stored: the first call, or a window of size zero *)
    simpl.
    assert (Ej : Nat.min (m - 1) w0 = 0%nat) by lia.
    rewrite Ej. simpl.
    destruct w0 as [| w1].
    + simpl. rewrite Nat.min_0_r. reflexivity.
    + assert (m = 0%nat) by lia. subst m. simpl. reflexivity.
  - rewrite (neg_index_repeat x (S k) 1) by lia.
    rewrite sub_self.
    rewrite match_nonempty by (simpl; discriminate).
    rewrite !repeat_snoc, !repeat_length.
    assert (Hm : (1 <= m)%nat) by lia.
    assert (Hw : (1 <= w0)%nat) by lia.
    f_equal. f_equal.
    + destruct (Nat.ltb_spec w0 (S (S k))) as [L | L].
      * rewrite tl_repeat. f_equal. lia.
      * f_equal. lia.
    + replace (S m - 1)%nat with m by lia. rewrite Ek.
      destruct (Nat.ltb_spec w0 (S (Nat.min (m - 1) w0))) as [L | L].
      * rewrite tl_repeat. f_equal. lia.
      * f_equal. lia.
Qed.

Lemma calls_constant_window (w0 : nat) (x : NP.ndarray) (n m : nat) :
  Fatigue.calls (constant_window w0 x m) (repeat x n)
  = constant_window w0 x (m + n).
Proof.
  unfold Fatigue.calls, Fatigue.run.
  revert m; induction n as [| n IH]; intros m; simpl.
  - rewrite Nat.add_0_r. reflexivity.
  - rewrite update_constant_window, IH. f_equal. lia.
Qed.

Lemma calls_repeat (w0 : nat) (x : NP.ndarray) (n : nat) :
  Fatigue.calls (Fatigue.init w0) (repeat x n) = constant_window w0 x n.
Proof.
  change (Fatigue.init w0) with (constant_window w0 x 0).
  apply calls_constant_window.
Qed.

(** No velocity, no persistence: the guards on the norms answer zero. *)
Lemma dp_constant_window (w0 m : nat) (x : NP.ndarray) :
  Fatigue._dp (constant_window w0 x m) = Ok 0.
Proof.
  unfold Fatigue._dp, constant_window, bind. simpl Fatigue.v.
  rewrite repeat_length.
  destruct (Nat.ltb_spec (Nat.min (m - 1) w0) 2) as [L | L]; [reflexivity |].
  rewrite !neg_index_repeat by lia. cbv zeta.
  rewrite norm_zeros.
  replace (gt 0 0) with false by (symmetry; apply gt_false; lra).
  reflexivity.
Qed.

Lemma cc_constant_window (w0 m : nat) (x : NP.ndarray) :
  Fatigue._cc (constant_window w0 x m) = Ok 0.
Proof.
  unfold Fatigue._cc, constant_window, bind. simpl Fatigue.v.
  rewrite repeat_length.
  destruct (Nat.ltb_spec (Nat.min (m - 1) w0) 3) as [L | L]; [reflexivity |].
  rewrite !neg_index_repeat by lia.
  rewrite !sub_same_length by reflexivity.
  rewrite !zip_with_zeros. cbv zeta. rewrite norm_zeros.
  replace (gt (0 ^ 3) 0) with false by (symmetry; apply gt_false; simpl; lra).
  reflexivity.
Qed.

Lemma sum_firstn_le (sv : list R) (k : nat) :
  Forall (fun x => 0 <= x) sv ->
  0 <= NP.sum (firstn k sv) <= NP.sum sv.
Proof.
  intros HF. revert k; induction HF as [| y sv Hy HF IH]; intros k.
  - rewrite firstn_nil. simpl. lra.
  - destruct k as [| k]; simpl.
    + specialize (IH 0%nat). simpl in IH. lra.
    + specialize (IH k). lra.
Qed.

(** With singular values that are not negative the concentration is a
    share. *)
Lemma sc_share (svd : list NP.ndarray -> option (list R)) (s : Fatigue.t) :
  Fatigue.svd_nonneg svd ->
  exists sc, Fatigue._sc svd s = Ok sc /\ 0 <= sc <= 1.
Proof.
  intros Hsvd. unfold Fatigue._sc.
  destruct (Nat.ltb _ 2); [exists 0; split; [reflexivity | lra] |].
  destruct (svd (Fatigue.e s)) as [sv |] eqn:E; unfold try_except;
    [| exists 0; split; [reflexivity | lra]].
  destruct (gt (NP.sum sv) 0) eqn:G; [| exists 0; split; [reflexivity | lra]].
  apply gt_true in G. rewrite truediv_some by lra.
  eexists; split; [reflexivity |].
  pose proof (sum_firstn_le sv (Nat.min 3 (List.length sv)) (Hsvd _ _ E)) as [H0 H1].
  split.
  - apply Rmult_le_pos; [exact H0 | left; apply Rinv_0_lt_compat; lra].
  - apply (Rmult_le_reg_r (NP.sum sv)); [lra |].
    unfold Rdiv. rewrite Rmult_assoc, Rinv_l by lra. lra.
Qed.

Lemma clamp_share (sc : R) :
  0 <= sc <= 1 ->
  Rmax 0 (Rmin 1 (0.35 * 0 + 0.35 * sc + 0.3 * 0)) = 0.35 * sc.
Proof.
  intros H. unfold Rmax, Rmin.
  destruct (Rle_dec 1 _); destruct (Rle_dec 0 _); lra.
Qed.

Lemma status_of_fresh (f theta_soft theta_hard : R) :
  f <= theta_soft -> f <= theta_hard -> status_of f theta_soft theta_hard = fresh.
Proof.
  intros Hs Hh. unfold status_of.
  replace (gt f theta_hard) with false by (symmetry; apply gt_false; exact Hh).
  replace (gt f theta_soft) with false by (symmetry; apply gt_false; exact Hs).
  reflexivity.
Qed.

(** The score on the window of a repeated embedding, in terms of the
    spectral concentration. *)
Lemma score_constant_window
  (svd : list NP.ndarray -> option (list R)) (w0 m : nat) (x : NP.ndarray) (sc : R) :
  Fatigue._sc svd (constant_window w0 x m) = Ok sc ->
  0 <= sc <= 1 ->
  Fatigue.score svd (constant_window w0 x m)
  = if Nat.ltb (Nat.min m w0) 2 then Ok (0, [], fresh)
    else Ok (round (0.35 * sc) 4,
             [("dp"%string, 0); ("sc"%string, round sc 4); ("cc"%string, 0)],
             fresh).
Proof.
  intros Esc Hsc. unfold Fatigue.score, bind.
  rewrite dp_constant_window, cc_constant_window, Esc.
  unfold constant_window at 1. simpl Fatigue.e. rewrite repeat_length.
  destruct (Nat.ltb (Nat.min m w0) 2); [reflexivity |].
  rewrite clamp_share by exact Hsc.
  rewrite (round_decimal 4 0 0) by (simpl; lra).
  rewrite status_of_fresh by (unfold THETA_SOFT, THETA_HARD; lra).
  reflexivity.
Qed.

Lemma modulated_thresholds_floor (ps : PulseEstimator.t) :
  PulseEstimator.tau ps <= 1 ->
  0.544 <= fst (fst (fst (PulseEstimator.modulate_thresholds ps)))
  /\ 0.672 <= snd (fst (fst (PulseEstimator.modulate_thresholds ps))).
Proof.
  intros Ht. unfold PulseEstimator.modulate_thresholds. simpl.
  unfold THETA_SOFT, THETA_HARD.
  split.
  - apply (round_ge 4 5440%Z); [simpl; lra |].
    unfold Rmin. destruct (Rle_dec _ _); lra.
  - apply (round_ge 4 6720%Z); [simpl; lra |].
    unfold Rmin. destruct (Rle_dec _ _); lra.
Qed.

(** C1 (amended).  Feeding one embedding [x] again and again does not
    raise fatigue.  Every velocity is the zero vector, so the guards of
    [_dp] and [_cc] answer [dp = 0] and [cc = 0]; with singular values
    that are not negative the fatigue is [0.35 * sc], at most 0.35, after
    any number of updates: it never exceeds the soft threshold 0.68, the
    status is ["fresh"], and it stays ["fresh"] under the thresholds
    modulated by any pulse [tau <= 1]. *)
Theorem repeated_embedding_stays_fresh
  (svd : list NP.ndarray -> option (list R)) (w0 n : nat) (x : NP.ndarray) :
  Fatigue.svd_nonneg svd ->
  exists f comps,
    Fatigue.score svd (Fatigue.calls (Fatigue.init w0) (repeat x n))
    = Ok (f, comps, fresh)
    /\ 0 <= f <= 0.35
    /\ (comps = []
        \/ exists sc, comps = [("dp"%string, 0); ("sc"%string, sc); ("cc"%string, 0)])
    /\ (forall ps : PulseEstimator.t,
           PulseEstimator.tau ps <= 1 ->
           status_of f
             (fst (fst (fst (PulseEstimator.modulate_thresholds ps))))
             (snd (fst (fst (PulseEstimator.modulate_thresholds ps))))
           = fresh).
Proof.
  intros Hsvd. rewrite calls_repeat.
  destruct (sc_share svd (constant_window w0 x n) Hsvd) as (sc & Esc & Hsc).
  rewrite (score_constant_window svd w0 n x sc Esc Hsc).
  assert (Hfresh : forall f, f <= 0.35 ->
            forall ps : PulseEstimator.t,
              PulseEstimator.tau ps <= 1 ->
              status_of f
                (fst (fst (fst (PulseEstimator.modulate_thresholds ps))))
                (snd (fst (fst (PulseEstimator.modulate_thresholds ps))))
              = fresh).
  { intros f Hf ps Hps.
    destruct (modulated_thresholds_floor ps Hps) as [H1 H2].
    apply status_of_fresh; lra. }
  destruct (Nat.ltb (Nat.min n w0) 2).
  - exists 0, []. repeat split; try lra; auto.
    apply Hfresh. lra.
  - assert (Hr : 0 <= round (0.35 * sc) 4 <= 0.35).
    { split.
      - apply (round_ge 4 0%Z); [simpl; lra | lra].
      - apply (round_le 4 3500%Z); [simpl; lra | lra]. }
    do 2 eexists. split; [reflexivity |].
    split; [exact Hr |]. split; [right; eexists; reflexivity |].
    apply Hfresh. lra.
Qed.

Lemma svd_rank_one_nonneg : Fatigue.svd_nonneg Fatigue.svd_rank_one.
Proof.
  intros rows sv H. unfold Fatigue.svd_rank_one in H. inversion H; subst.
  constructor; [apply sqrt_pos |].
  apply Forall_forall. intros y Hy. apply repeat_spec in Hy. lra.
Qed.

Lemma repeated_embedding_stays_fresh_witness :
  exists f comps,
    Fatigue.score Fatigue.svd_rank_one
      (Fatigue.calls (Fatigue.init 5) (repeat [1; 0] 5))
    = Ok (f, comps, fresh)
    /\ 0 <= f <= 0.35
    /\ (comps = []
        \/ exists sc, comps = [("dp"%string, 0); ("sc"%string, sc); ("cc"%string, 0)])
    /\ (forall ps : PulseEstimator.t,
           PulseEstimator.tau ps <= 1 ->
           status_of f
             (fst (fst (fst (PulseEstimator.modulate_thresholds ps))))
             (snd (fst (fst (PulseEstimator.modulate_thresholds ps))))
           = fresh).
Proof.
  apply (repeated_embedding_stays_fresh Fatigue.svd_rank_one 5 5 [1; 0]).
  exact svd_rank_one_nonneg.
Defined.

(** The unit vector [(1, 0)] repeated: a window of [k >= 2] equal rows has
    the singular values [sqrt k] and [0], all of them among the top three. *)
Lemma sc_unit_window (w0 m : nat) :
  (2 <= Nat.min m w0)%nat ->
  Fatigue._sc Fatigue.svd_rank_one (constant_window w0 [1; 0] m) = Ok 1.
Proof.
  intros Hk. unfold Fatigue._sc, constant_window. simpl Fatigue.e.
  rewrite repeat_length.
  destruct (Nat.ltb_spec (Nat.min m w0) 2) as [L | _]; [lia |].
  unfold Fatigue.svd_rank_one. rewrite repeat_length.
  destruct (Nat.min m w0) as [| [| k]]; try lia.
  change (hd [] (repeat [1; 0] (S (S k)))) with [1; 0].
  set (F := sqrt _).
  assert (HF : 0 < F).
  { unfold F. apply sqrt_lt_R0. simpl.
    match goal with
    | |- 0 < _ + (_ + ?q) =>
        assert (H : 0 <= q) by (clear; induction k as [| k IH]; simpl; lra);
        set (q0 := q) in *
    end.
    lra. }
  clearbody F.
  simpl repeat. rewrite Nat.min_0_r. simpl repeat. simpl List.length.
  simpl firstn.
  replace (gt (NP.sum [F; 0]) 0) with true
    by (symmetry; apply gt_true; simpl; lra).
  rewrite truediv_some by (simpl; lra).
  unfold try_except. f_equal. simpl. field. lra.
Qed.

Lemma call_constant_window (w0 m : nat) (x : NP.ndarray) :
  Fatigue.call (constant_window w0 x m) (Fatigue.Update x)
  = constant_window w0 x (S m).
Proof. simpl. rewrite update_constant_window. reflexivity. Qed.

(** C1 as specified fails for the unit vector [(1, 0)]: the five scores
    are 0, then 0.35 four times, with [dp = 0], [sc = 1], [cc = 0] and
    the status ["fresh"]; the fatigue neither rises from the second turn
    on nor reaches 0.68. *)
Lemma repeated_embedding_fatigue_is_flat :
  Fatigue.trace Fatigue.svd_rank_one (Fatigue.init 5) (repeat [1; 0] 5)
  = [ Ok (0, [], fresh);
      Ok (0.35, [("dp"%string, 0); ("sc"%string, 1); ("cc"%string, 0)], fresh);
      Ok (0.35, [("dp"%string, 0); ("sc"%string, 1); ("cc"%string, 0)], fresh);
      Ok (0.35, [("dp"%string, 0); ("sc"%string, 1); ("cc"%string, 0)], fresh);
      Ok (0.35, [("dp"%string, 0); ("sc"%string, 1); ("cc"%string, 0)], fresh) ]
  /\ ~ specified_rise Fatigue.svd_rank_one [1; 0].
Proof.
  assert (E1 : Fatigue.score Fatigue.svd_rank_one (constant_window 5 [1; 0] 1)
               = Ok (0, [], fresh)) by reflexivity.
  assert (En : forall m, (2 <= m)%nat ->
             Fatigue.score Fatigue.svd_rank_one (constant_window 5 [1; 0] m)
             = Ok (0.35, [("dp"%string, 0); ("sc"%string, 1); ("cc"%string, 0)],
                   fresh)).
  { intros m Hm.
    rewrite (score_constant_window _ 5 m [1; 0] 1);
      [| apply sc_unit_window; lia | lra].
    destruct (Nat.ltb_spec (Nat.min m 5) 2) as [L | _]; [lia |].
    rewrite (round_decimal 4 10000 1) by (simpl; lra).
    replace (0.35 * 1) with 0.35 by lra.
    rewrite (round_decimal 4 3500 0.35) by (simpl; lra).
    reflexivity. }
  assert (Etr : Fatigue.trace Fatigue.svd_rank_one (Fatigue.init 5) (repeat [1; 0] 5)
          = [ Ok (0, [], fresh);
              Ok (0.35, [("dp"%string, 0); ("sc"%string, 1); ("cc"%string, 0)], fresh);
              Ok (0.35, [("dp"%string, 0); ("sc"%string, 1); ("cc"%string, 0)], fresh);
              Ok (0.35, [("dp"%string, 0); ("sc"%string, 1); ("cc"%string, 0)], fresh);
              Ok (0.35, [("dp"%string, 0); ("sc"%string, 1); ("cc"%string, 0)], fresh) ]).
  { change (Fatigue.init 5) with (constant_window 5 [1; 0] 0).
    simpl repeat. unfold Fatigue.trace.
    rewrite !call_constant_window.
    rewrite E1, !En by lia. reflexivity. }
  split; [exact Etr |].
  intros H. unfold specified_rise in H. cbv zeta in H.
  match type of H with
  | context [Fatigue.trace ?a ?b ?c] =>
      let E := fresh "E" in
      pose proof (Etr : Fatigue.trace a b c = _) as E; rewrite E in H
  end.
  simpl in H.
  destruct H as [(_ & H & _) _]. lra.
Qed.

(** ** [PulseEstimator.modulate_thresholds] *)

Lemma Rmin_mono_r (c x y : R) : x <= y -> Rmin c x <= Rmin c y.
Proof. intros H. unfold Rmin. destruct (Rle_dec c x), (Rle_dec c y); lra. Qed.

Lemma Rmax_mono_r (c x y : R) : x <= y -> Rmax c x <= Rmax c y.
Proof. intros H. unfold Rmax. destruct (Rle_dec c x), (Rle_dec c y); lra. Qed.

Lemma round4_close (x : R) : Rabs (round x 4 - x) <= 0.00005.
Proof.
  pose proof (round_near 4 x) as H. simpl in H.
  replace (/ 2 / (10 * (10 * (10 * (10 * 1))))) with 0.00005 in H by lra.
  exact H.
Qed.

Lemma round_value (n : nat) (k : Z) (x c : R) :
  x = c -> c * 10 ^ n = IZR k -> round x n = c.
Proof. intros E H. subst x. apply (round_decimal n k), H. Qed.

(** C7.  The thresholds are the stated formulas of [mod = 1.2 - 0.4 tau]
    rounded to four decimals (so within 0.00005 of them); they are
    monotone in the pulse: a greater [tau] gives soft, hard and pod-high
    thresholds that are not greater and a pod-soft threshold that is not
    smaller; and at [tau = 0] they are (0.816, 0.98, 0.98, 0.4), at
    [tau = 1] they are (0.544, 0.672, 0.68, 0.6): strictly lower soft,
    hard and pod-high, strictly higher pod-soft. *)
Theorem modulate_thresholds_monotone (s1 s2 : PulseEstimator.t) :
  PulseEstimator.tau s1 <= PulseEstimator.tau s2 ->
  (theta_soft_of s2 <= theta_soft_of s1
   /\ theta_hard_of s2 <= theta_hard_of s1
   /\ pod_high_of s2 <= pod_high_of s1
   /\ pod_soft_of s1 <= pod_soft_of s2)
  /\ (Rabs (theta_soft_of s1 - Rmin 0.95 (0.68 * modulation s1)) <= 0.00005
      /\ Rabs (theta_hard_of s1 - Rmin 0.98 (0.84 * modulation s1)) <= 0.00005
      /\ Rabs (pod_high_of s1 - Rmin 0.98 (0.85 * modulation s1)) <= 0.00005
      /\ Rabs (pod_soft_of s1 - Rmax 0.30 (0.50 * (2 - modulation s1))) <= 0.00005)
  /\ (PulseEstimator.tau s1 = 0 -> PulseEstimator.tau s2 = 1 ->
      PulseEstimator.modulate_thresholds s1 = (0.816, 0.98, 0.98, 0.4)
      /\ PulseEstimator.modulate_thresholds s2 = (0.544, 0.672, 0.68, 0.6)
      /\ theta_soft_of s2 < theta_soft_of s1
      /\ theta_hard_of s2 < theta_hard_of s1
      /\ pod_high_of s2 < pod_high_of s1
      /\ pod_soft_of s1 < pod_soft_of s2).
Proof.
  intros Hle.
  unfold theta_soft_of, theta_hard_of, pod_high_of, pod_soft_of, modulation,
    PulseEstimator.modulate_thresholds, THETA_SOFT, THETA_HARD, POD_THETA_HIGH,
    POD_THETA_SOFT.
  cbv zeta. simpl fst. simpl snd.
  split; [| split].
  - repeat split; apply round_mono;
      (apply Rmin_mono_r || apply Rmax_mono_r); lra.
  - repeat split; apply round4_close.
  - intros H0 H1. rewrite H0, H1.
    assert (E1 : round (Rmin 0.95 (0.68 * (1.2 - 0.4 * 0))) 4 = 0.816).
    { apply (round_value 4 8160); [| simpl; lra].
      unfold Rmin. destruct (Rle_dec _ _); lra. }
    assert (E2 : round (Rmin 0.98 (0.84 * (1.2 - 0.4 * 0))) 4 = 0.98).
    { apply (round_value 4 9800); [| simpl; lra].
      unfold Rmin. destruct (Rle_dec _ _); lra. }
    assert (E3 : round (Rmin 0.98 (0.85 * (1.2 - 0.4 * 0))) 4 = 0.98).
    { apply (round_value 4 9800); [| simpl; lra].
      unfold Rmin. destruct (Rle_dec _ _); lra. }
    assert (E4 : round (Rmax 0.30 (0.50 * (2 - (1.2 - 0.4 * 0)))) 4 = 0.4).
    { apply (round_value 4 4000); [| simpl; lra].
      unfold Rmax. destruct (Rle_dec _ _); lra. }
    assert (F1 : round (Rmin 0.95 (0.68 * (1.2 - 0.4 * 1))) 4 = 0.544).
    { apply (round_value 4 5440); [| simpl; lra].
      unfold Rmin. destruct (Rle_dec _ _); lra. }
    assert (F2 : round (Rmin 0.98 (0.84 * (1.2 - 0.4 * 1))) 4 = 0.672).
    { apply (round_value 4 6720); [| simpl; lra].
      unfold Rmin. destruct (Rle_dec _ _); lra. }
    assert (F3 : round (Rmin 0.98 (0.85 * (1.2 - 0.4 * 1))) 4 = 0.68).
    { apply (round_value 4 6800); [| simpl; lra].
      unfold Rmin. destruct (Rle_dec _ _); lra. }
    assert (F4 : round (Rmax 0.30 (0.50 * (2 - (1.2 - 0.4 * 1)))) 4 = 0.6).
    { apply (round_value 4 6000); [| simpl; lra].
      unfold Rmax. destruct (Rle_dec _ _); lra. }
    rewrite E1, E2, E3, E4, F1, F2, F3, F4.
    repeat split; lra.
Qed.

Lemma modulate_thresholds_monotone_witness :
  PulseEstimator.modulate_thresholds
    (PulseEstimator.mk 0.45 0.15 0.25 0.15 0.7 0 None None None)
  = (0.816, 0.98, 0.98, 0.4)
  /\ PulseEstimator.modulate_thresholds
       (PulseEstimator.mk 0.45 0.15 0.25 0.15 0.7 1 None None None)
     = (0.544, 0.672, 0.68, 0.6)
  /\ theta_soft_of (PulseEstimator.mk 0.45 0.15 0.25 0.15 0.7 1 None None None)
     < theta_soft_of (PulseEstimator.mk 0.45 0.15 0.25 0.15 0.7 0 None None None)
  /\ theta_hard_of (PulseEstimator.mk 0.45 0.15 0.25 0.15 0.7 1 None None None)
     < theta_hard_of (PulseEstimator.mk 0.45 0.15 0.25 0.15 0.7 0 None None None)
  /\ pod_high_of (PulseEstimator.mk 0.45 0.15 0.25 0.15 0.7 1 None None None)
     < pod_high_of (PulseEstimator.mk 0.45 0.15 0.25 0.15 0.7 0 None None None)
  /\ pod_soft_of (PulseEstimator.mk 0.45 0.15 0.25 0.15 0.7 0 None None None)
     < pod_soft_of (PulseEstimator.mk 0.45 0.15 0.25 0.15 0.7 1 None None None).
Proof.
  apply (modulate_thresholds_monotone
           (PulseEstimator.mk 0.45 0.15 0.25 0.15 0.7 0 None None None)
           (PulseEstimator.mk 0.45 0.15 0.25 0.15 0.7 1 None None None)).
  - simpl. lra.
  - reflexivity.
  - reflexivity.
Defined.

(** ** [Pods.unveil] *)

Lemma dict_get_setitem_same {V : Type} (d : Dict.t V) (k : string) (x y : V) :
  Dict.get d k = Some y -> Dict.get (Dict.setitem d k x) k = Some x.
Proof.
  induction d as [| [k' z] d IH]; simpl; [discriminate |].
  destruct (String.eqb k k') eqn:E; simpl; rewrite E; auto.
Qed.

Lemma dict_get_setitem_other {V : Type} (d : Dict.t V) (k k' : string) (x : V) :
  k' <> k -> Dict.get (Dict.setitem d k x) k' = Dict.get d k'.
Proof.
  intros Hne. induction d as [| [k0 z] d IH]; simpl.
  - destruct (String.eqb k' k) eqn:E; [apply String.eqb_eq in E; contradiction |].
    reflexivity.
  - destruct (String.eqb k k0) eqn:E; simpl.
    + apply String.eqb_eq in E. subst k0.
      destruct (String.eqb k' k) eqn:E'; [apply String.eqb_eq in E'; contradiction |].
      reflexivity.
    + destruct (String.eqb k' k0); [reflexivity | exact IH].
Qed.

Lemma dict_setitem_keys {V : Type} (d : Dict.t V) (k : string) (x y : V) :
  Dict.get d k = Some y -> map fst (Dict.setitem d k x) = map fst d.
Proof.
  induction d as [| [k' z] d IH]; simpl; [discriminate |].
  destruct (String.eqb k k') eqn:E; simpl; [reflexivity |].
  intros H. rewrite IH by exact H. reflexivity.
Qed.

Lemma dict_setitem_twice {V : Type} (d : Dict.t V) (k : string) (x y : V) :
  Dict.get d k = Some y ->
  Dict.setitem (Dict.setitem d k x) k x = Dict.setitem d k x.
Proof.
  induction d as [| [k' z] d IH]; simpl; [discriminate |].
  destruct (String.eqb k k') eqn:E; simpl; rewrite E; [reflexivity |].
  intros H. rewrite IH by exact H. reflexivity.
Qed.

(** What [unveil] returns, by the two cases of [pid in s.p]. *)
Lemma unveil_known (s : Pods.t) (pid : string) (x : Pods.pod) :
  Dict.get (Pods.p s) pid = Some x ->
  Pods.unveil s pid
  = Ok (Pods.mk (Dict.setitem (Pods.p s) pid
                   (Pods.mk_pod (Pods.emb x) (Pods.content x) Pods.unveiled)),
        Some (Pods.content x)).
Proof.
  intros H. unfold Pods.unveil, Dict.contains, Dict.getitem, bind.
  rewrite H. simpl Pods.p.
  rewrite (dict_get_setitem_same _ _ _ x H). reflexivity.
Qed.

Lemma unveil_unknown (s : Pods.t) (pid : string) :
  Dict.get (Pods.p s) pid = None -> Pods.unveil s pid = Ok (s, None).
Proof.
  intros H. unfold Pods.unveil, Dict.contains. rewrite H. reflexivity.
Qed.

(** C9.  [unveil(pid)] never raises.  Called again on the object it
    returned, it returns that object unchanged (idempotent).  With an
    unknown identifier it changes nothing and returns [None].  With a
    known one it returns the content and leaves that pod unveiled, with
    its embedding and content; the other pods, and the keys with their
    order, are untouched; and a pod that was unveiled is unveiled
    afterwards: no call goes back to latent. *)
Theorem unveil_idempotent_total (s : Pods.t) (pid : string) :
  exists s1 r1,
    Pods.unveil s pid = Ok (s1, r1)
    /\ (exists r2, Pods.unveil s1 pid = Ok (s1, r2))
    /\ (Dict.get (Pods.p s) pid = None -> s1 = s /\ r1 = None)
    /\ (forall x, Dict.get (Pods.p s) pid = Some x ->
                  r1 = Some (Pods.content x)
                  /\ Dict.get (Pods.p s1) pid
                     = Some (Pods.mk_pod (Pods.emb x) (Pods.content x) Pods.unveiled))
    /\ (forall k, k <> pid -> Dict.get (Pods.p s1) k = Dict.get (Pods.p s) k)
    /\ map fst (Pods.p s1) = map fst (Pods.p s)
    /\ (forall k x, Dict.get (Pods.p s) k = Some x ->
                    Pods.state x = Pods.unveiled ->
                    exists y, Dict.get (Pods.p s1) k = Some y
                              /\ Pods.state y = Pods.unveiled).
Proof.
  destruct (Dict.get (Pods.p s) pid) as [x |] eqn:E.
  - set (x' := Pods.mk_pod (Pods.emb x) (Pods.content x) Pods.unveiled).
    exists (Pods.mk (Dict.setitem (Pods.p s) pid x')), (Some (Pods.content x)).
    assert (E' : Dict.get (Dict.setitem (Pods.p s) pid x') pid = Some x')
      by (eapply dict_get_setitem_same; eauto).
    split; [apply unveil_known, E |].
    split.
    { exists (Some (Pods.content x')).
      rewrite (unveil_known _ pid x') by exact E'.
      simpl Pods.p. unfold x' at 2 3. simpl Pods.emb. simpl Pods.content.
      fold x'. rewrite (dict_setitem_twice _ _ _ x E). reflexivity. }
    split; [discriminate |].
    split.
    { intros y Hy. inversion Hy; subst y. split; [reflexivity | exact E']. }
    split.
    { intros k Hk. simpl. apply dict_get_setitem_other, Hk. }
    split.
    { simpl. eapply dict_setitem_keys; eauto. }
    intros k y Hy Hst. simpl Pods.p.
    destruct (string_dec k pid) as [-> | Hne].
    + exists x'. split; [exact E' | reflexivity].
    + exists y. split; [| exact Hst].
      rewrite dict_get_setitem_other by exact Hne. exact Hy.
  - exists s, None.
    split; [apply unveil_unknown, E |].
    split; [exists None; apply unveil_unknown, E |].
    split; [auto |].
    split; [discriminate |].
    split; [reflexivity |].
    split; [reflexivity |].
    intros k y Hy Hst. exists y. auto.
Qed.

(** ** [RhythmStore.compute_signature]: breathing events *)

Lemma index_app_head {A : Type} (pre rest : list A) (x : A) :
  index (pre ++ x :: rest) (List.length pre) = Ok x.
Proof.
  unfold index. rewrite nth_error_app2 by lia.
  rewrite Nat.sub_diag. reflexivity.
Qed.

(** The loop over [i] visits the consecutive pairs in order. *)
Lemma breathing_loop_scan (rest pre : list RhythmStore.sample)
  (prev : RhythmStore.sample) (acc : list RhythmStore.breathing_event) :
  for_each (seq (S (List.length pre)) (List.length rest)) acc
    (fun acc i =>
       cur <- index (pre ++ prev :: rest) i ;;
       prev0 <- index (pre ++ prev :: rest) (i - 1) ;;
       Ok (acc ++ RhythmStore.pair_events prev0 cur))
  = Ok (acc ++ RhythmStore.scan_pairs prev rest).
Proof.
  revert pre prev acc; induction rest as [| cur rest IH]; intros pre prev acc.
  - simpl. rewrite app_nil_r. reflexivity.
  - simpl seq. simpl for_each.
    rewrite Nat.sub_0_r, index_app_head.
    assert (E : index (pre ++ prev :: cur :: rest) (S (List.length pre)) = Ok cur).
    { replace (pre ++ prev :: cur :: rest) with ((pre ++ [prev]) ++ cur :: rest)
        by (rewrite <- app_assoc; reflexivity).
      replace (S (List.length pre)) with (List.length (pre ++ [prev]))
        by (rewrite length_app; simpl; lia).
      apply index_app_head. }
    rewrite E. unfold bind at 1 2 3.
    specialize (IH (pre ++ [prev]) cur (acc ++ RhythmStore.pair_events prev cur)).
    rewrite <- app_assoc in IH. simpl app in IH.
    rewrite length_app in IH. simpl List.length in IH.
    rewrite Nat.add_1_r in IH.
    rewrite IH. simpl RhythmStore.scan_pairs. rewrite app_assoc. reflexivity.
Qed.

Lemma breathing_events_scan (first : RhythmStore.sample)
  (rest : list RhythmStore.sample) :
  RhythmStore.breathing_events (first :: rest)
  = Ok (RhythmStore.scan_pairs first rest).
Proof.
  unfold RhythmStore.breathing_events.
  replace (List.length (first :: rest) - 1)%nat with (List.length rest)
    by (simpl; lia).
  apply (breathing_loop_scan rest [] first []).
Qed.

(** The events computed and the events specified differ by the tagged
    events of the first sample, and by nothing else. *)
Lemma breathing_events_miss_first (first : RhythmStore.sample)
  (rest : list RhythmStore.sample) :
  exists evs,
    RhythmStore.breathing_events (first :: rest) = Ok evs
    /\ RhythmStore.breathing_events_as_specified (first :: rest)
       = RhythmStore.tagged_events first ++ evs.
Proof.
  exists (RhythmStore.scan_pairs first rest).
  split; [apply breathing_events_scan | reflexivity].
Qed.

(** C5 at a failing input: a session of one turn on which a pod was
    unveiled.  The loop starts at the second sample, so the tagged event
    of the first one is not passed through: [compute_signature] returns
    no breathing event, where the specification lists ["pod_unveiled"]
    at turn 1. *)
Theorem first_sample_events_dropped :
  let sm := RhythmStore.mk_sample 1 0 0.5 0 fresh [] [] ["pod_unveiled"%string] in
  let store := RhythmStore.mk "ledgers" [sm] (Some "s1"%string)
                 (Some "llama3"%string) None in
  RhythmStore.breathing_events [sm] = Ok []
  /\ (exists sg, RhythmStore.compute_signature store = Ok sg
                 /\ RhythmStore.sig_breathing_events sg = Some [])
  /\ RhythmStore.breathing_events_as_specified [sm]
     = [RhythmStore.mk_event 1 "pod_unveiled" None None].
Proof.
  cbv zeta. split; [reflexivity |]. split; [| reflexivity].
  unfold RhythmStore.compute_signature. simpl RhythmStore.samples.
  cbv zeta. simpl map. simpl List.length.
  unfold Py.sum. simpl fold_left. simpl INR.
  rewrite !truediv_some by lra.
  unfold bind. simpl Nat.ltb. cbv iota.
  unfold RhythmStore.fatigue_trend. simpl.
  eexists. split; reflexivity.
Qed.

(** ** [Vessel._detect_pod_adaptive] *)

(** With the fixed constant for hard threshold the code and the
    specification agree. *)
Lemma detect_as_specified_fixed (pods : Pods.t) (q : NP.ndarray)
  (f_score pod_high pod_soft : R) :
  Vessel.detect_as_specified pods q f_score pod_high pod_soft THETA_HARD
  = Vessel._detect_pod_adaptive pods q f_score pod_high pod_soft.
Proof. reflexivity. Qed.

Lemma norm_unit_x : NP.norm [1; 0] = 1.
Proof.
  unfold NP.norm. simpl.
  replace (1 * 1 + (0 * 0 + 0)) with 1 by lra. apply sqrt_1.
Qed.

Lemma norm_three_four_fifths : NP.norm [0.6; 0.8] = 1.
Proof.
  unfold NP.norm. simpl.
  replace (0.6 * 0.6 + (0.8 * 0.8 + 0)) with 1 by lra. apply sqrt_1.
Qed.

(** C2 at a failing input.  One latent pod with seed embedding [(1, 0)],
    the query [(0.6, 0.8)] (cosine similarity 0.6), fatigue 0.8, and the
    thresholds that [modulate_thresholds] gives at the pulse 0.7:
    hard 0.7728, pod-high 0.782, pod-soft 0.54.  The fatigue exceeds the
    modulated hard threshold and the similarity exceeds pod-soft, so the
    pod matches as specified; the code compares the fatigue with the
    constant [THETA_HARD = 0.84] and returns no pod. *)
Theorem adaptive_detection_uses_fixed_hard_threshold :
  let pods := Pods.mk [("pod-1"%string, Pods.mk_pod [1; 0] "seed" Pods.latent)] in
  let pulse := PulseEstimator.mk 0.45 0.15 0.25 0.15 0.7 0.7 None None None in
  PulseEstimator.modulate_thresholds pulse = (0.6256, 0.7728, 0.782, 0.54)
  /\ Vessel._detect_pod_adaptive pods [0.6; 0.8] 0.8 0.782 0.54 = Ok None
  /\ exists sim,
       Vessel.detect_as_specified pods [0.6; 0.8] 0.8 0.782 0.54 0.7728
       = Ok (Some ("pod-1"%string, sim, "seed"%string))
       /\ sim = 0.6.
Proof.
  cbv zeta. split; [| split].
  - unfold PulseEstimator.modulate_thresholds, THETA_SOFT, THETA_HARD,
      POD_THETA_HIGH, POD_THETA_SOFT. simpl PulseEstimator.tau. cbv zeta.
    rewrite (round_value 4 6256 _ 0.6256);
      [| unfold Rmin; destruct (Rle_dec _ _); lra | simpl; lra].
    rewrite (round_value 4 7728 _ 0.7728);
      [| unfold Rmin; destruct (Rle_dec _ _); lra | simpl; lra].
    rewrite (round_value 4 7820 _ 0.782);
      [| unfold Rmin; destruct (Rle_dec _ _); lra | simpl; lra].
    rewrite (round_value 4 5400 _ 0.54);
      [| unfold Rmax; destruct (Rle_dec _ _); lra | simpl; lra].
    reflexivity.
  - unfold Vessel._detect_pod_adaptive, Vessel.detect_body, Dict.items.
    simpl for_each. simpl Pods.is_latent. simpl negb. cbv iota zeta.
    rewrite norm_unit_x, norm_three_four_fifths.
    replace (eq 1 0) with false by (symmetry; apply eq_false; lra).
    simpl orb. cbv iota.
    rewrite truediv_some by lra.
    unfold bind, THETA_HARD. cmp. reflexivity.
  - exists ((0.6 * 1 + (0.8 * 0 + 0)) / (1 * 1)). split; [| lra].
    unfold Vessel.detect_as_specified, Vessel.detect_body_as_specified, Dict.items.
    simpl for_each. simpl Pods.is_latent. simpl negb. cbv iota zeta.
    rewrite norm_unit_x, norm_three_four_fifths.
    replace (eq 1 0) with false by (symmetry; apply eq_false; lra).
    simpl orb. cbv iota.
    rewrite truediv_some by lra.
    unfold bind. cmp. reflexivity.
Qed.

(** ** What [_detect_pod_adaptive] returns *)

Lemma detect_body_cases (q : NP.ndarray) (f_score pod_high pod_soft : R)
  (best : option Pods.hit) (k : string) (x : Pods.pod) :
  List.length q = List.length (Pods.emb x) ->
  (matches q f_score pod_high pod_soft x
   /\ Pods.improves best (cosine q (Pods.emb x)) = true
   /\ Vessel.detect_body q f_score pod_high pod_soft best (k, x)
      = Ok (Some (k, cosine q (Pods.emb x), Pods.content x)))
  \/ (matches q f_score pod_high pod_soft x
      /\ Pods.improves best (cosine q (Pods.emb x)) = false
      /\ Vessel.detect_body q f_score pod_high pod_soft best (k, x) = Ok best)
  \/ (~ matches q f_score pod_high pod_soft x
      /\ Vessel.detect_body q f_score pod_high pod_soft best (k, x) = Ok best).
Proof.
  intros Hl. unfold Vessel.detect_body, matches.
  destruct (Pods.state x) eqn:Est; simpl Pods.is_latent; simpl negb; cbv iota;
    [| right; right; split; [intros (H & _); discriminate | reflexivity]].
  cbv zeta.
  destruct (eq (NP.norm (Pods.emb x)) 0) eqn:E1; simpl orb; cbv iota.
  { apply eq_true in E1. right; right.
    split; [intros (_ & H & _); contradiction | reflexivity]. }
  destruct (eq (NP.norm q) 0) eqn:E2; cbv iota.
  { apply eq_true in E2. right; right.
    split; [intros (_ & _ & H & _); contradiction | reflexivity]. }
  apply eq_false in E1, E2.
  rewrite dot_same_length by exact Hl. unfold bind.
  rewrite truediv_ok
    by (intros H; apply Rmult_integral in H; destruct H; contradiction).
  cbv iota beta. fold (cosine q (Pods.emb x)).
  set (sim := cosine q (Pods.emb x)).
  destruct (gt sim pod_high) eqn:G1; simpl orb.
  - apply gt_true in G1.
    destruct (Pods.improves best sim) eqn:I.
    + left. repeat split; auto.
    + right; left. repeat split; auto.
  - apply gt_false in G1.
    destruct (gt f_score THETA_HARD) eqn:G2; simpl andb.
    + apply gt_true in G2.
      destruct (gt sim pod_soft) eqn:G3.
      * apply gt_true in G3.
        destruct (Pods.improves best sim) eqn:I.
        -- left. repeat split; auto.
        -- right; left. repeat split; auto.
      * apply gt_false in G3. right; right.
        split; [| reflexivity].
        intros (_ & _ & _ & [H | [_ H]]); lra.
    + apply gt_false in G2. right; right.
      split; [| reflexivity].
      intros (_ & _ & _ & [H | [H _]]); lra.
Qed.

Lemma for_each_cons {A B : Type} (x : A) (l : list A) (acc : B)
  (body : B -> A -> result B) :
  for_each (x :: l) acc body = bind (body acc x) (fun acc' => for_each l acc' body).
Proof. reflexivity. Qed.

(** The loop, from any best hit so far: the result is the best hit so
    far or a pod of the list that matches; no matching pod of the list,
    and not the best hit so far, has a greater similarity. *)
Lemma detect_loop (q : NP.ndarray) (f_score pod_high pod_soft : R)
  (l : list (string * Pods.pod)) :
  Forall (fun kv => List.length q = List.length (Pods.emb (snd kv))) l ->
  forall best : option Pods.hit,
  exists r,
    for_each l best (Vessel.detect_body q f_score pod_high pod_soft) = Ok r
    /\ (r = best
        \/ exists k x, In (k, x) l
                       /\ matches q f_score pod_high pod_soft x
                       /\ r = Some (k, cosine q (Pods.emb x), Pods.content x))
    /\ (forall k x, In (k, x) l -> matches q f_score pod_high pod_soft x ->
                    exists k0 sim c, r = Some (k0, sim, c)
                                     /\ cosine q (Pods.emb x) <= sim)
    /\ (forall kb sb cb, best = Some (kb, sb, cb) ->
                         exists k0 sim c, r = Some (k0, sim, c) /\ sb <= sim).
Proof.
  induction 1 as [| [k x] l Hx HF IH]; intros best.
  - exists best. split; [reflexivity |]. split; [left; reflexivity |].
    split; [intros k x []|].
    intros kb sb cb E. exists kb, sb, cb. split; [exact E | lra].
  - simpl snd in Hx. rewrite for_each_cons.
    destruct (detect_body_cases q f_score pod_high pod_soft best k x Hx)
      as [(Hm & Hi & E) | [(Hm & Hi & E) | (Hm & E)]]; rewrite E; unfold bind.
    + (* the pod matches and becomes the best hit *)
      destruct (IH (Some (k, cosine q (Pods.emb x), Pods.content x)))
        as (r & Er & Hr & Hmax & Hbest).
      exists r. split; [exact Er |].
      destruct (Hbest _ _ _ eq_refl) as (k0 & sim & c & Erk & Hle).
      split; [| split].
      * right. destruct Hr as [-> | (k1 & x1 & Hin & Hm1 & E1)].
        -- exists k, x. split; [left; reflexivity | auto].
        -- exists k1, x1. split; [right; exact Hin | auto].
      * intros k1 x1 [Heq | Hin] Hm1.
        -- inversion Heq; subst. exists k0, sim, c. auto.
        -- apply Hmax with (k := k1); assumption.
      * intros kb sb cb Eb. subst best. simpl in Hi. apply gt_true in Hi.
        exists k0, sim, c. split; [exact Erk | lra].
    + (* the pod matches and the best hit so far is kept *)
      destruct (IH best) as (r & Er & Hr & Hmax & Hbest).
      exists r. split; [exact Er |].
      split; [| split].
      * destruct Hr as [-> | (k1 & x1 & Hin & Hm1 & E1)]; [left; reflexivity |].
        right. exists k1, x1. split; [right; exact Hin | auto].
      * intros k1 x1 [Heq | Hin] Hm1.
        -- inversion Heq; subst.
           destruct best as [[[kb sb] cb] |]; [| discriminate].
           simpl in Hi. apply gt_false in Hi.
           destruct (Hbest _ _ _ eq_refl) as (k0 & sim & c & Erk & Hle).
           exists k0, sim, c. split; [exact Erk | lra].
        -- apply Hmax with (k := k1); assumption.
      * exact Hbest.
    + (* the pod does not match *)
      destruct (IH best) as (r & Er & Hr & Hmax & Hbest).
      exists r. split; [exact Er |].
      split; [| split].
      * destruct Hr as [-> | (k1 & x1 & Hin & Hm1 & E1)]; [left; reflexivity |].
        right. exists k1, x1. split; [right; exact Hin | auto].
      * intros k1 x1 [Heq | Hin] Hm1.
        -- inversion Heq; subst. contradiction.
        -- apply Hmax with (k := k1); assumption.
      * exact Hbest.
Qed.

(** The part of C2 that the code keeps.  With seed embeddings of the
    dimension of the query, the detection returns: [None] when no pod
    passes, else a pod that passes, with its identifier, similarity and
    content, and no pod that passes has a greater similarity.  A pod
    passes when it is latent, neither norm is zero, and its similarity is
    above [pod_high], or above [pod_soft] while the fatigue is above the
    constant [THETA_HARD]. *)
Lemma detect_pod_adaptive_spec (pods : Pods.t) (q : NP.ndarray)
  (f_score pod_high pod_soft : R) :
  Forall (fun kv => List.length q = List.length (Pods.emb (snd kv)))
    (Dict.items (Pods.p pods)) ->
  exists r,
    Vessel._detect_pod_adaptive pods q f_score pod_high pod_soft = Ok r
    /\ match r with
       | None =>
           forall k x, In (k, x) (Dict.items (Pods.p pods)) ->
                       ~ matches q f_score pod_high pod_soft x
       | Some (k, sim, c) =>
           (exists x, In (k, x) (Dict.items (Pods.p pods))
                      /\ matches q f_score pod_high pod_soft x
                      /\ sim = cosine q (Pods.emb x)
                      /\ c = Pods.content x)
           /\ forall k' x', In (k', x') (Dict.items (Pods.p pods)) ->
                            matches q f_score pod_high pod_soft x' ->
                            cosine q (Pods.emb x') <= sim
       end.
Proof.
  intros HF. unfold Vessel._detect_pod_adaptive.
  destruct (detect_loop q f_score pod_high pod_soft _ HF None)
    as (r & Er & Hr & Hmax & _).
  exists r. split; [exact Er |].
  destruct r as [[[k sim] c] |].
  - split.
    + destruct Hr as [H | (k1 & x1 & Hin & Hm & E)]; [discriminate |].
      inversion E; subst. exists x1. auto.
    + intros k' x' Hin Hm.
      destruct (Hmax k' x' Hin Hm) as (k0 & sim0 & c0 & E & Hle).
      inversion E; subst. exact Hle.
  - intros k x Hin Hm.
    destruct (Hmax k x Hin Hm) as (k0 & sim0 & c0 & E & _). discriminate.
Qed.

(** ** [DirectionTracker.update] *)

Lemma sum_squares_div (a : NP.ndarray) (c : R) :
  c <> 0 ->
  NP.sum (map (fun x => x * x) (map (fun x => x / c) a))
  = NP.sum (map (fun x => x * x) a) / (c * c).
Proof.
  intros Hc. induction a as [| x a IH]; simpl.
  - unfold Rdiv. lra.
  - rewrite IH. field. exact Hc.
Qed.

Lemma norm_div_norm (a : NP.ndarray) :
  0 < NP.norm a -> NP.norm (map (fun x => x / NP.norm a) a) = 1.
Proof.
  intros Hpos. unfold NP.norm at 1.
  rewrite sum_squares_div by lra.
  rewrite <- norm_sqr.
  replace (NP.norm a * NP.norm a / (NP.norm a * NP.norm a)) with 1
    by (field; lra).
  apply sqrt_1.
Qed.

(** The closing lines of [update]: they never raise; a vector of positive
    norm is divided by its norm, any other is kept. *)
Lemma normalized_spec (s : DirectionTracker.t) (d : NP.ndarray) :
  exists d',
    DirectionTracker.normalized s d
    = Ok (DirectionTracker.mk (Some d') (DirectionTracker.base_alpha s))
    /\ (0 < NP.norm d -> d' = map (fun x => x / NP.norm d) d /\ NP.norm d' = 1)
    /\ (NP.norm d = 0 -> d' = d).
Proof.
  unfold DirectionTracker.normalized, NP.div_scalar, bind.
  pose proof (norm_nonneg d) as Hn.
  destruct (gt (NP.norm d) 0) eqn:G.
  - apply gt_true in G.
    replace (eq (NP.norm d) 0) with false by (symmetry; apply eq_false; lra).
    eexists. split; [reflexivity |].
    split; [| lra].
    intros _. split; [reflexivity | apply norm_div_norm; lra].
  - apply gt_false in G.
    exists d. split; [reflexivity |]. split; [lra | reflexivity].
Qed.

Lemma update_unit_or_zero (s s' : DirectionTracker.t) (x : NP.ndarray) (tau_h : R) :
  DirectionTracker.update s x tau_h = Ok s' -> 
  exists d, DirectionTracker.tau_dir s' = Some d
            /\ (NP.norm d = 1 \/ NP.norm d = 0).
Proof.
  assert (Hn : forall d s1, DirectionTracker.normalized s d = Ok s1 ->
             exists d', DirectionTracker.tau_dir s1 = Some d'
                        /\ (NP.norm d' = 1 \/ NP.norm d' = 0)).
  { intros d s1 H.
    destruct (normalized_spec s d) as (d' & E & Hpos & Hzero).
    rewrite E in H. inversion H; subst s1. simpl.
    exists d'. split; [reflexivity |].
    pose proof (norm_nonneg d) as Hd.
    destruct (Req_dec (NP.norm d) 0) as [Z | NZ].
    - right. rewrite (Hzero Z). exact Z.
    - left. apply Hpos. lra. }
  unfold DirectionTracker.update, bind.
  destruct (DirectionTracker.tau_dir s); [| apply Hn].
  destruct (NP.add _ _); [apply Hn | discriminate].
Qed.

Lemma calls_unit_or_zero (cs : list (NP.ndarray * R)) (s : DirectionTracker.t) :
  unit_or_zero s -> unit_or_zero (DirectionTracker.calls s cs).
Proof.
  unfold DirectionTracker.calls.
  revert s; induction cs as [| c cs IH]; intros s H; simpl; [exact H |].
  apply IH. unfold DirectionTracker.call.
  destruct (DirectionTracker.update s (fst c) (snd c)) as [s' |] eqn:E;
    [| exact H].
  destruct (update_unit_or_zero _ _ _ _ E) as (d & Ed & Hd).
  unfold unit_or_zero. rewrite Ed. exact Hd.
Qed.

(** C4 (amended).  Once set, the sustained direction is a unit vector or
    a vector of norm zero, after any sequence of [update] calls: every
    update that returns leaves the direction set, divided by its norm
    when that norm is positive.  The first observation of an embedding
    of positive norm sets it to the normalized embedding, a unit vector;
    an embedding of norm zero is stored as it is. *)
Theorem direction_unit_or_zero :
  (forall cs : list (NP.ndarray * R),
      unit_or_zero (DirectionTracker.calls DirectionTracker.init cs))
  /\ (forall (s s' : DirectionTracker.t) (x : NP.ndarray) (tau_h : R),
         DirectionTracker.update s x tau_h = Ok s' ->
         exists d, DirectionTracker.tau_dir s' = Some d
                   /\ (NP.norm d = 1 \/ NP.norm d = 0))
  /\ (forall (x : NP.ndarray) (tau_h : R),
         exists d,
           DirectionTracker.update DirectionTracker.init x tau_h
           = Ok (DirectionTracker.mk (Some d) 0.85)
           /\ (0 < NP.norm x ->
               d = map (fun y => y / NP.norm x) x /\ NP.norm d = 1)
           /\ (NP.norm x = 0 -> d = x)).
Proof.
  split; [| split].
  - intros cs. apply calls_unit_or_zero. exact I.
  - exact update_unit_or_zero.
  - intros x tau_h. unfold DirectionTracker.update. simpl.
    apply (normalized_spec DirectionTracker.init x).
Qed.

(** C4 as specified fails on an embedding of norm zero (the embedding of
    an empty message in the fallback provider): the direction is set,
    and it is not a unit vector. *)
Lemma direction_zero_embedding_not_unit :
  DirectionTracker.tau_dir
    (DirectionTracker.calls DirectionTracker.init [([0; 0], 0.5)])
  = Some [0; 0]
  /\ NP.norm [0; 0] = 0
  /\ NP.norm [0; 0] <> 1.
Proof.
  assert (Hz : NP.norm [0; 0] = 0) by apply (norm_zeros 2).
  split; [| split; [exact Hz | rewrite Hz; lra]].
  unfold DirectionTracker.calls, DirectionTracker.call. simpl fold_left.
  destruct (normalized_spec DirectionTracker.init [0; 0]) as (d & E & _ & Hzero).
  unfold DirectionTracker.update. simpl DirectionTracker.tau_dir. cbv iota.
  rewrite E. simpl. rewrite (Hzero Hz). reflexivity.
Qed.

(** ** [PulseEstimator]: the pulse stays between 0.5 and sigmoid(1) *)

Lemma exp_le (x y : R) : x <= y -> exp x <= exp y.
Proof.
  intros [H | H]; [left; apply exp_increasing, H | subst; right; reflexivity].
Qed.

Lemma exp_square_lower (x a b : R) :
  0 <= a -> a <= exp x -> b <= a * a -> b <= exp (2 * x).
Proof.
  intros Ha Hx Hb.
  replace (2 * x) with (x + x) by lra. rewrite exp_plus.
  apply Rle_trans with (a * a); [exact Hb |].
  apply Rmult_le_compat; assumption.
Qed.

(** A lower bound of [exp (-1)]: [exp (-1/4096) >= 1 - 1/4096], squared
    twelve times, each square rounded down to ten decimals. *)
Lemma exp_minus_one_lower : 0.3678344394 <= exp (- 1).
Proof.
  pose proof (exp_ineq1_le (- / 4096)) as H0.
  assert (B0 : 0.999755859375 <= exp (- / 4096)) by lra.
  assert (B1 : 0.9995117783 <= exp (2 * (- / 4096)))
    by (apply (exp_square_lower _ 0.999755859375); [lra | exact B0 | lra]).
  assert (B2 : 0.9990237949 <= exp (2 * (2 * (- / 4096))))
    by (apply (exp_square_lower _ 0.9995117783); [lra | exact B1 | lra]).
  assert (B3 : 0.9980485427 <= exp (2 * (2 * (2 * (- / 4096)))))
    by (apply (exp_square_lower _ 0.9990237949); [lra | exact B2 | lra]).
  assert (B4 : 0.9961008935 <= exp (2 * (2 * (2 * (2 * (- / 4096))))))
    by (apply (exp_square_lower _ 0.9980485427); [lra | exact B3 | lra]).
  assert (B5 : 0.9922169900 <= exp (2 * (2 * (2 * (2 * (2 * (- / 4096)))))))
    by (apply (exp_square_lower _ 0.9961008935); [lra | exact B4 | lra]).
  assert (B6 : 0.9844945552 <= exp (2 * (2 * (2 * (2 * (2 * (2 * (- / 4096))))))))
    by (apply (exp_square_lower _ 0.9922169900); [lra | exact B5 | lra]).
  assert (B7 : 0.9692295292 <= exp (2 * (2 * (2 * (2 * (2 * (2 * (2 * (- / 4096)))))))))
    by (apply (exp_square_lower _ 0.9844945552); [lra | exact B6 | lra]).
  assert (B8 : 0.9394058802 <= exp (2 * (2 * (2 * (2 * (2 * (2 * (2 * (2 * (- / 4096))))))))))
    by (apply (exp_square_lower _ 0.9692295292); [lra | exact B7 | lra]).
  assert (B9 : 0.8824834077 <= exp (2 * (2 * (2 * (2 * (2 * (2 * (2 * (2 * (2 * (- / 4096)))))))))))
    by (apply (exp_square_lower _ 0.9394058802); [lra | exact B8 | lra]).
  assert (B10 : 0.7787769648 <= exp (2 * (2 * (2 * (2 * (2 * (2 * (2 * (2 * (2 * (2 * (- / 4096))))))))))))
    by (apply (exp_square_lower _ 0.8824834077); [lra | exact B9 | lra]).
  assert (B11 : 0.6064935609 <= exp (2 * (2 * (2 * (2 * (2 * (2 * (2 * (2 * (2 * (2 * (2 * (- / 4096)))))))))))))
    by (apply (exp_square_lower _ 0.7787769648); [lra | exact B10 | lra]).
  assert (B12 : 0.3678344394 <= exp (2 * (2 * (2 * (2 * (2 * (2 * (2 * (2 * (2 * (2 * (2 * (2 * (- / 4096))))))))))))))
    by (apply (exp_square_lower _ 0.6064935609); [lra | exact B11 | lra]).
  replace (- 1) with (2 * (2 * (2 * (2 * (2 * (2 * (2 * (2 * (2 * (2 * (2 * (2 * (- / 4096))))))))))))) by lra.
  exact B12.
Qed.

Lemma sigmoid_defined (z : R) :
  truediv 1 (1 + exp (- z)) = Ok (PulseEstimator.sigmoid z).
Proof.
  pose proof (exp_pos (- z)). rewrite truediv_some by lra. reflexivity.
Qed.

Lemma sigmoid_mono (x y : R) :
  x <= y -> PulseEstimator.sigmoid x <= PulseEstimator.sigmoid y.
Proof.
  intros H. unfold PulseEstimator.sigmoid.
  pose proof (exp_pos (- x)). pose proof (exp_pos (- y)).
  assert (exp (- y) <= exp (- x)) by (apply exp_le; lra).
  unfold Rdiv. rewrite !Rmult_1_l.
  apply Rinv_le_contravar; lra.
Qed.

Lemma sigmoid_0 : PulseEstimator.sigmoid 0 = 0.5.
Proof.
  unfold PulseEstimator.sigmoid. rewrite Ropp_0, exp_0. lra.
Qed.

Lemma sigmoid_1_upper : PulseEstimator.sigmoid 1 <= 0.7311.
Proof.
  unfold PulseEstimator.sigmoid.
  pose proof exp_minus_one_lower as H.
  apply (Rmult_le_reg_r (1 + exp (- 1))); [lra |].
  unfold Rdiv. rewrite Rmult_assoc, Rinv_l by lra. lra.
Qed.

Lemma sigmoid_unit (z : R) :
  0 <= z <= 1 -> 0.5 <= PulseEstimator.sigmoid z <= PulseEstimator.sigmoid 1.
Proof.
  intros [H0 H1]. rewrite <- sigmoid_0. split; apply sigmoid_mono; lra.
Qed.

Lemma phi_L_bounds (s : PulseEstimator.t) (t : R) :
  time_ok s t -> 0 < PulseEstimator.phi_L s t <= 1.
Proof.
  unfold time_ok, PulseEstimator.phi_L.
  destruct (PulseEstimator.last_time s) as [l |]; intros H; [| lra].
  cbv zeta. split; [apply exp_pos |].
  rewrite <- exp_0. apply exp_le. lra.
Qed.

Lemma M_t_bounds (msg : string) : 0 <= PulseEstimator.M_t msg <= 1.
Proof.
  unfold PulseEstimator.M_t.
  pose proof (pos_INR (String.length msg)) as H.
  unfold Rmin. destruct (Rle_dec _ _); lra.
Qed.

(** The shape shared by [N_t] and [D_t]: one minus the positive part of
    a cosine, or the neutral 0.5. *)
Lemma cosine_factor_bounds (a b : NP.ndarray) (n : R) :
  (if gt (NP.norm a) 0 && gt (NP.norm b) 0
   then d <- NP.dot a b ;;
        c <- truediv d (NP.norm a * NP.norm b) ;;
        Ok (1 - Rmax 0 c)
   else Ok 0.5) = Ok n ->
  0 <= n <= 1.
Proof.
  destruct (gt (NP.norm a) 0) eqn:Ga; simpl andb.
  - destruct (gt (NP.norm b) 0) eqn:Gb.
    + apply gt_true in Ga, Gb. unfold NP.dot, bind.
      destruct (Nat.eqb _ _); [| discriminate].
      rewrite truediv_some by (apply Rmult_lt_0_compat; lra).
      intros H. inversion H; subst n.
      pose proof (cosine_le_1 a b Ga Gb) as Hc.
      unfold Rmax. destruct (Rle_dec _ _); lra.
    + intros H. inversion H. lra.
  - intros H. inversion H. lra.
Qed.

Lemma N_t_bounds (s : PulseEstimator.t) (emb : NP.ndarray) (n : R) :
  PulseEstimator.N_t s emb = Ok n -> 0 <= n <= 1.
Proof.
  unfold PulseEstimator.N_t.
  destruct (PulseEstimator.last_user_emb s) as [last |].
  - cbv zeta. apply cosine_factor_bounds.
  - intros H. inversion H. lra.
Qed.

Lemma D_t_bounds (s : PulseEstimator.t) (emb : NP.ndarray) (d : R) :
  PulseEstimator.D_t s emb = Ok d -> 0 <= d <= 1.
Proof.
  unfold PulseEstimator.D_t.
  destruct (PulseEstimator.prev_user_emb s) as [prev |];
    [| intros H; inversion H; lra].
  destruct (PulseEstimator.last_user_emb s) as [last |];
    [| intros H; inversion H; lra].
  unfold bind at 1.
  destruct (NP.sub last prev) as [v_prev |]; [| discriminate].
  unfold bind at 1.
  destruct (NP.sub emb last) as [v_curr |]; [| discriminate].
  cbv zeta. apply cosine_factor_bounds.
Qed.

Lemma z_bounds (s : PulseEstimator.t) (phi m n d : R) :
  pulse_weights s = pulse_weights PulseEstimator.init ->
  0 <= phi <= 1 -> 0 <= m <= 1 -> 0 <= n <= 1 -> 0 <= d <= 1 ->
  0 <= PulseEstimator.z_of s phi m n d <= 1.
Proof.
  intros Hw Hphi Hm Hn Hd. unfold pulse_weights in Hw. simpl in Hw.
  injection Hw as H1 H2 H3 H4 H5.
  unfold PulseEstimator.z_of. rewrite H1, H2, H3, H4. lra.
Qed.

Lemma round4_pulse (x : R) :
  0.5 <= x <= PulseEstimator.sigmoid 1 -> 0.5 <= round x 4 <= 0.7311.
Proof.
  intros [H0 H1]. pose proof sigmoid_1_upper. split.
  - apply (round_ge 4 5000%Z); [simpl; lra | exact H0].
  - apply (round_le 4 7311%Z); [simpl; lra | lra].
Qed.

(** One [update] from a state of the session. *)
Lemma pulse_update_step (s s' : PulseEstimator.t) (msg : string)
  (emb : NP.ndarray) (t r : R) :
  pulse_ok s -> time_ok s t ->
  PulseEstimator.update s msg emb t = Ok (s', r) ->
  pulse_ok s'
  /\ PulseEstimator.last_time s' = Some t
  /\ r = round (PulseEstimator.tau s') 4
  /\ 0.5 <= r <= 0.7311.
Proof.
  intros [Hw Htau] Ht H.
  pose proof (pulse_update_weights _ _ _ _ _ _ H) as Hw'.
  unfold PulseEstimator.update in H.
  destruct (PulseEstimator.N_t s emb) as [n |] eqn:En; [| discriminate].
  destruct (PulseEstimator.D_t s emb) as [d |] eqn:Ed; [| discriminate].
  unfold bind in H. rewrite sigmoid_defined in H.
  pose proof (phi_L_bounds s t Ht) as Hphi.
  pose proof (M_t_bounds msg) as Hm.
  pose proof (N_t_bounds _ _ _ En) as Hn.
  pose proof (D_t_bounds _ _ _ Ed) as Hd.
  assert (Hz : 0 <= PulseEstimator.z_of s (PulseEstimator.phi_L s t)
                      (PulseEstimator.M_t msg) n d <= 1)
    by (apply z_bounds; auto; lra).
  pose proof (sigmoid_unit _ Hz) as Hsig.
  set (raw := PulseEstimator.sigmoid (PulseEstimator.z_of _ _ _ _ _)) in *.
  assert (Hsm : PulseEstimator.smoothing s = 0.7).
  { unfold pulse_weights in Hw. simpl in Hw.
    injection Hw as _ _ _ _ H5. exact H5. }
  inversion H; subst s' r; clear H. simpl PulseEstimator.tau.
  simpl PulseEstimator.last_time.
  assert (Hnew : 0.5 <= PulseEstimator.smoothing s * raw
                        + (1 - PulseEstimator.smoothing s) * PulseEstimator.tau s
                 <= PulseEstimator.sigmoid 1).
  { rewrite Hsm. lra. }
  split; [split; [congruence | exact Hnew] |].
  split; [reflexivity |]. split; [reflexivity |].
  apply round4_pulse, Hnew.
Qed.

Lemma nondecreasing_head (x : R) (l : list R) :
  PulseEstimator.nondecreasing (x :: l) -> Forall (fun y => x <= y) l.
Proof.
  revert x; induction l as [| y l IH]; intros x H; [constructor |].
  destruct H as [Hxy Hl]. constructor; [exact Hxy |].
  specialize (IH y Hl).
  eapply Forall_impl; [| exact IH]. simpl. intros z Hz. lra.
Qed.

Lemma nondecreasing_tail (x : R) (l : list R) :
  PulseEstimator.nondecreasing (x :: l) -> PulseEstimator.nondecreasing l.
Proof. destruct l; [trivial | intros [_ H]; exact H]. Qed.

(** A session whose timestamps never go back, from a state that is not
    ahead of them. *)
Lemma pulse_session (cs : list (string * NP.ndarray * R)) :
  forall (s : PulseEstimator.t) (outs : list R),
    pulse_ok s ->
    Forall (fun r => 0.5 <= r <= 0.7311) outs ->
    PulseEstimator.nondecreasing (map timestamp_of cs) ->
    Forall (fun c => time_ok s (timestamp_of c)) cs ->
    pulse_ok (fst (fold_left PulseEstimator.call cs (s, outs)))
    /\ Forall (fun r => 0.5 <= r <= 0.7311)
         (snd (fold_left PulseEstimator.call cs (s, outs)))
    /\ forall t, Forall (fun c => timestamp_of c <= t) cs -> time_ok s t ->
                 time_ok (fst (fold_left PulseEstimator.call cs (s, outs))) t.
Proof.
  induction cs as [| c cs IH]; intros s outs Hs Houts Hnd Htime; simpl.
  - auto.
  - destruct c as [[msg emb] t0]. simpl map in Hnd.
    inversion Htime as [| c0 cs0 Ht0 Hrest]; subst.
    unfold timestamp_of in Ht0. simpl snd in Ht0.
    pose proof (nondecreasing_head _ _ Hnd) as Hhead.
    pose proof (nondecreasing_tail _ _ Hnd) as Htail.
    unfold PulseEstimator.call at 2. simpl fst. simpl snd.
    destruct (PulseEstimator.update s msg emb t0) as [[s1 r1] |] eqn:E.
    + destruct (pulse_update_step _ _ _ _ _ _ Hs Ht0 E) as (Hs1 & Hl1 & _ & Hr1).
      assert (Htime1 : Forall (fun c => time_ok s1 (timestamp_of c)) cs).
      { rewrite Forall_map in Hhead.
        eapply Forall_impl; [| exact Hhead].
        intros c Hc. unfold time_ok. rewrite Hl1. exact Hc. }
      destruct (IH s1 (outs ++ [r1]) Hs1) as (H1 & H2 & H3); auto.
      { apply Forall_app. split; [exact Houts |].
        apply Forall_cons; [exact Hr1 | apply Forall_nil]. }
      split; [exact H1 |]. split; [exact H2 |].
      intros t Hall _. inversion Hall; subst.
      apply H3; [assumption |].
      unfold time_ok. rewrite Hl1. assumption.
    + destruct (IH s outs Hs Houts Htail Hrest) as (H1 & H2 & H3).
      split; [exact H1 |]. split; [exact H2 |].
      intros t Hall Hst. inversion Hall; subst. apply H3; assumption.
Qed.

(** ** [RhythmStore.compute_signature] on the pulses of a session *)

Lemma pair_loop {A B : Type} (f : B -> A -> A -> B) (rest pre : list A)
  (prev : A) (acc : B) :
  for_each (seq (S (List.length pre)) (List.length rest)) acc
    (fun acc i =>
       cur <- index (pre ++ prev :: rest) i ;;
       prev0 <- index (pre ++ prev :: rest) (i - 1) ;;
       Ok (f acc prev0 cur))
  = Ok (fold_pairs f acc prev rest).
Proof.
  revert pre prev acc; induction rest as [| cur rest IH]; intros pre prev acc.
  - reflexivity.
  - simpl seq. simpl for_each.
    rewrite Nat.sub_0_r, index_app_head.
    assert (E : index (pre ++ prev :: cur :: rest) (S (List.length pre)) = Ok cur).
    { replace (pre ++ prev :: cur :: rest) with ((pre ++ [prev]) ++ cur :: rest)
        by (rewrite <- app_assoc; reflexivity).
      replace (S (List.length pre)) with (List.length (pre ++ [prev]))
        by (rewrite length_app; simpl; lia).
      apply index_app_head. }
    rewrite E. unfold bind at 1 2 3.
    specialize (IH (pre ++ [prev]) cur (f acc prev cur)).
    rewrite <- app_assoc in IH. simpl app in IH.
    rewrite length_app in IH. simpl List.length in IH.
    rewrite Nat.add_1_r in IH.
    exact IH.
Qed.

Lemma curvature_defined (x : R) (rest : list R) :
  RhythmStore.curvature (x :: rest)
  = Ok (fold_pairs (fun acc b a => acc + Rabs (a - b)) 0 x rest).
Proof.
  unfold RhythmStore.curvature.
  replace (List.length (x :: rest) - 1)%nat with (List.length rest)
    by (simpl; lia).
  apply (pair_loop (fun acc b a => acc + Rabs (a - b)) rest [] x 0).
Qed.

Lemma fatigue_trend_defined (l : list R) :
  exists tr, RhythmStore.fatigue_trend l = Ok tr.
Proof.
  unfold RhythmStore.fatigue_trend. cbv zeta.
  destruct (Nat.ltb_spec 0 (Nat.div (List.length l) 2)) as [H0 | H0];
    [| eexists; reflexivity].
  destruct (Nat.ltb_spec (Nat.div (List.length l) 2) (List.length l)) as [H1 | H1];
    [| eexists; reflexivity].
  simpl andb. cbv iota.
  rewrite truediv_some by (apply lt_0_INR; exact H0).
  rewrite truediv_some by (apply lt_0_INR; lia).
  unfold bind.
  destruct (gt _ _); [eexists; reflexivity |].
  destruct (gt _ _); eexists; reflexivity.
Qed.

(** [compute_signature] on a session with samples: it returns, and the
    rhythm is classified on the mean of the recorded pulses. *)
Lemma compute_signature_nonempty (s : RhythmStore.t) :
  RhythmStore.samples s <> [] ->
  exists sg tau_var peak_f f_trend,
    RhythmStore.compute_signature s = Ok sg
    /\ RhythmStore.mean_tau_h sg
       = round (Py.sum (map RhythmStore.tau_h (RhythmStore.samples s))
                / INR (List.length (RhythmStore.samples s))) 4
    /\ RhythmStore.sig_dominant_rhythm sg
       = RhythmStore.dominant_rhythm
           (Py.sum (map RhythmStore.tau_h (RhythmStore.samples s))
            / INR (List.length (RhythmStore.samples s)))
           tau_var peak_f f_trend.
Proof.
  intros Hne. unfold RhythmStore.compute_signature.
  destruct (RhythmStore.samples s) as [| sm0 rest] eqn:E; [contradiction |].
  cbv zeta. rewrite !length_map.
  assert (Hlen : 0 < INR (List.length (sm0 :: rest)))
    by (apply lt_0_INR; simpl; lia).
  rewrite !truediv_some by exact Hlen.
  unfold bind at 1.
  set (mean := Py.sum (map RhythmStore.tau_h (sm0 :: rest))
               / INR (List.length (sm0 :: rest))).
  assert (Hvar : exists tau_var,
             (if Nat.ltb 1 (List.length (sm0 :: rest))
              then truediv (Py.sum (map (fun x => (x - mean) ^ 2)
                                      (map RhythmStore.tau_h (sm0 :: rest))))
                     (INR (List.length (sm0 :: rest)))
              else Ok 0) = Ok tau_var).
  { destruct (Nat.ltb 1 _); [| eexists; reflexivity].
    rewrite truediv_some by exact Hlen. eexists; reflexivity. }
  destruct Hvar as [tau_var Evar]. rewrite Evar.
  unfold bind at 1. unfold bind at 1.
  destruct (fatigue_trend_defined (map RhythmStore.fatigue (sm0 :: rest)))
    as [f_trend Etr].
  rewrite Etr. unfold bind at 1.
  rewrite breathing_events_scan. unfold bind at 1.
  simpl map at 1. rewrite curvature_defined. unfold bind.
  do 4 eexists. split; [reflexivity |]. split; reflexivity.
Qed.

Lemma fold_left_sum_lower (l : list R) (a c : R) :
  Forall (fun x => c <= x) l ->
  a + c * INR (List.length l) <= fold_left Rplus l a.
Proof.
  intros HF. revert a; induction HF as [| x l Hx HF IH]; intros a.
  - simpl. lra.
  - simpl fold_left. specialize (IH (a + x)).
    change (List.length (x :: l)) with (S (List.length l)).
    rewrite S_INR. lra.
Qed.

Lemma mean_lower (l : list R) (c : R) :
  l <> [] -> Forall (fun x => c <= x) l ->
  c <= Py.sum l / INR (List.length l).
Proof.
  intros Hne HF.
  assert (Hlen : 0 < INR (List.length l)).
  { apply lt_0_INR. destruct l; [contradiction | simpl; lia]. }
  pose proof (fold_left_sum_lower l 0 c HF) as H. unfold Py.sum.
  apply (Rmult_le_reg_r (INR (List.length l))); [exact Hlen |].
  unfold Rdiv. rewrite Rmult_assoc, Rinv_l by lra. lra.
Qed.

Lemma dominant_not_reflective (mean tau_var peak_f : R) (tr : RhythmStore.trend) :
  0.4 <= mean ->
  RhythmStore.dominant_rhythm mean tau_var peak_f tr <> RhythmStore.reflective.
Proof.
  intros H. unfold RhythmStore.dominant_rhythm.
  replace (lt mean 0.4) with false by (symmetry; apply lt_false; exact H).
  simpl andb. cbv iota.
  destruct (gt mean 0.65); [discriminate |].
  destruct (gt tau_var 0.03); [discriminate |].
  destruct (_ && _); [discriminate |].
  destruct (RhythmStore.is_falling tr); discriminate.
Qed.

(** A rhythm session that recorded pulses of at least 0.5 is never
    classified as reflective, and its mean pulse is at least 0.5. *)
Lemma signature_of_pulses (outs : list R) (s : RhythmStore.t) :
  Forall (fun r => 0.5 <= r <= 0.7311) outs ->
  records_pulses outs (RhythmStore.samples s) ->
  exists sg, RhythmStore.compute_signature s = Ok sg
    /\ RhythmStore.sig_dominant_rhythm sg <> RhythmStore.reflective
    /\ (RhythmStore.samples s <> [] -> 0.5 <= RhythmStore.mean_tau_h sg).
Proof.
  intros Houts Hrec.
  destruct (RhythmStore.samples s) as [| sm0 rest] eqn:E.
  - unfold RhythmStore.compute_signature. rewrite E.
    eexists. split; [reflexivity |]. split; [discriminate | contradiction].
  - assert (Hne : RhythmStore.samples s <> []) by (rewrite E; discriminate).
    destruct (compute_signature_nonempty s Hne)
      as (sg & tau_var & peak_f & f_trend & Esg & Emean & Edom).
    assert (Htaus : Forall (fun x => 0.5 <= x)
                      (map RhythmStore.tau_h (RhythmStore.samples s))).
    { rewrite E. apply Forall_map.
      unfold records_pulses in Hrec. clear - Houts Hrec.
      induction Hrec as [| r sm outs' l' Hr Hrec IH]; [constructor |].
      inversion Houts; subst. constructor; [| apply IH; assumption].
      rewrite Hr. apply (round_ge 4 5000%Z); [simpl; lra | lra]. }
    assert (Hmean : 0.5 <= Py.sum (map RhythmStore.tau_h (RhythmStore.samples s))
                           / INR (List.length (RhythmStore.samples s))).
    { rewrite <- (length_map RhythmStore.tau_h).
      apply mean_lower; [| exact Htaus].
      rewrite E. discriminate. }
    rewrite <- E. exists sg. split; [exact Esg |]. split.
    + rewrite Edom. apply dominant_not_reflective. lra.
    + intros _. rewrite Emean.
      apply (round_ge 4 5000%Z); [simpl; lra | exact Hmean].
Qed.

Lemma nondecreasing_snoc (l : list R) (t : R) :
  PulseEstimator.nondecreasing (l ++ [t]) ->
  PulseEstimator.nondecreasing l /\ Forall (fun x => x <= t) l.
Proof.
  induction l as [| x l IH]; intros H; [split; [exact I | constructor] |].
  pose proof (nondecreasing_head x (l ++ [t]) H) as Hhead.
  pose proof (nondecreasing_tail x (l ++ [t]) H) as Htail.
  destruct (IH Htail) as [Hl Hall].
  apply Forall_app in Hhead as [Hxl Hxt]. inversion Hxt; subst.
  split; [| constructor; assumption].
  destruct l as [| y l]; [exact I |].
  split; [inversion Hxl; assumption | exact Hl].
Qed.

Lemma time_ok_init (cs : list (string * NP.ndarray * R)) :
  Forall (fun c => time_ok PulseEstimator.init (timestamp_of c)) cs.
Proof. apply Forall_forall. intros c _. exact I. Qed.

Lemma pulse_ok_init : pulse_ok PulseEstimator.init.
Proof.
  split; [reflexivity |]. simpl. rewrite <- sigmoid_0.
  split; [lra | apply sigmoid_mono; lra].
Qed.

(** C6.  In a session of [update] calls whose timestamps never go back,
    consider any call and the state [s] the calls before it left.  The
    four factors of the call lie in [0, 1]; so does their weighted sum
    [z]; the raw pulse sigmoid(z) is defined and lies between 0.5 and
    sigmoid(1), and sigmoid(1) <= 0.7311; the smoothed pulse stays
    between 0.5 and sigmoid(1), before the call and after it; every
    pulse returned in the session lies between 0.5 and 0.7311.  Hence a
    rhythm session that records these pulses has a mean pulse of at
    least 0.5 and is never classified as reflective. *)
Theorem pulse_stays_above_half
  (pre : list (string * NP.ndarray * R)) (msg : string) (emb : NP.ndarray) (t : R) :
  PulseEstimator.nondecreasing (map timestamp_of (pre ++ [(msg, emb, t)])) ->
  let s := fst (PulseEstimator.calls PulseEstimator.init pre) in
  let outs := snd (PulseEstimator.calls PulseEstimator.init (pre ++ [(msg, emb, t)])) in
  (0 <= PulseEstimator.phi_L s t <= 1
   /\ 0 <= PulseEstimator.M_t msg <= 1
   /\ (forall n, PulseEstimator.N_t s emb = Ok n -> 0 <= n <= 1)
   /\ (forall d, PulseEstimator.D_t s emb = Ok d -> 0 <= d <= 1))
  /\ (forall n d,
         PulseEstimator.N_t s emb = Ok n -> PulseEstimator.D_t s emb = Ok d ->
         let z := PulseEstimator.z_of s (PulseEstimator.phi_L s t)
                    (PulseEstimator.M_t msg) n d in
         0 <= z <= 1
         /\ truediv 1 (1 + exp (- z)) = Ok (PulseEstimator.sigmoid z)
         /\ 0.5 <= PulseEstimator.sigmoid z <= PulseEstimator.sigmoid 1)
  /\ PulseEstimator.sigmoid 1 <= 0.7311
  /\ 0.5 <= PulseEstimator.tau s <= PulseEstimator.sigmoid 1
  /\ (forall s' r,
         PulseEstimator.update s msg emb t = Ok (s', r) ->
         0.5 <= PulseEstimator.tau s' <= PulseEstimator.sigmoid 1
         /\ 0.5 <= r <= 0.7311)
  /\ Forall (fun r => 0.5 <= r <= 0.7311) outs
  /\ (forall store : RhythmStore.t,
         records_pulses outs (RhythmStore.samples store) ->
         exists sg,
           RhythmStore.compute_signature store = Ok sg
           /\ RhythmStore.sig_dominant_rhythm sg <> RhythmStore.reflective
           /\ (RhythmStore.samples store <> [] ->
               0.5 <= RhythmStore.mean_tau_h sg)).
Proof.
  intros Hnd. cbv zeta.
  assert (Hpre : PulseEstimator.nondecreasing (map timestamp_of pre)
                 /\ Forall (fun c => timestamp_of c <= t) pre).
  { rewrite map_app in Hnd. simpl map in Hnd.
    destruct (nondecreasing_snoc _ _ Hnd) as [H1 H2].
    split; [exact H1 |]. rewrite Forall_map in H2. exact H2. }
  destruct Hpre as [Hpre Hall].
  destruct (pulse_session pre PulseEstimator.init [] pulse_ok_init
              (Forall_nil _) Hpre (time_ok_init pre)) as (Hs & _ & Htime).
  specialize (Htime t Hall I).
  destruct (pulse_session (pre ++ [(msg, emb, t)]) PulseEstimator.init []
              pulse_ok_init (Forall_nil _) Hnd (time_ok_init _))
    as (_ & Houts & _).
  unfold PulseEstimator.calls.
  set (s := fst (fold_left PulseEstimator.call pre (PulseEstimator.init, []))) in *.
  pose proof (phi_L_bounds s t Htime) as Hphi.
  pose proof (M_t_bounds msg) as Hm.
  split.
  { split; [lra |]. split; [exact Hm |].
    split; [apply N_t_bounds | apply D_t_bounds]. }
  split.
  { intros n d En Ed.
    assert (Hz : 0 <= PulseEstimator.z_of s (PulseEstimator.phi_L s t)
                        (PulseEstimator.M_t msg) n d <= 1).
    { apply z_bounds; [apply Hs | lra | exact Hm | |].
      - eapply N_t_bounds; eauto.
      - eapply D_t_bounds; eauto. }
    split; [exact Hz |]. split; [apply sigmoid_defined | apply sigmoid_unit, Hz]. }
  split; [apply sigmoid_1_upper |].
  split; [apply Hs |].
  split.
  { intros s' r E.
    destruct (pulse_update_step _ _ _ _ _ _ Hs Htime E) as (Hs' & _ & _ & Hr).
    split; [apply Hs' | exact Hr]. }
  split; [exact Houts |].
  intros store Hrec. apply (signature_of_pulses _ _ Houts Hrec).
Qed.

(** Two turns ten seconds apart. *)
Lemma pulse_stays_above_half_witness :
  Forall (fun r => 0.5 <= r <= 0.7311)
    (snd (PulseEstimator.calls PulseEstimator.init
            ([("hello"%string, [1; 0], 0)] ++ [("again"%string, [0; 1], 10)]))).
Proof.
  pose proof (pulse_stays_above_half
                [("hello"%string, [1; 0], 0)] "again" [0; 1] 10) as H.
  cbv zeta in H. apply H.
  simpl. split; [lra | exact I].
Defined.

(** ** Sessions with embeddings of one dimension: every call returns *)

Lemma update_dims (d : nat) (s s' : Fatigue.t) (x : NP.ndarray) :
  Forall (fun y => List.length y = d) (Fatigue.e s) ->
  Forall (fun y => List.length y = d) (Fatigue.v s) ->
  List.length x = d ->
  Fatigue.update s x = Ok s' ->
  Forall (fun y => List.length y = d) (Fatigue.e s')
  /\ Forall (fun y => List.length y = d) (Fatigue.v s').
Proof.
  intros He Hv Hx H.
  apply update_histories in H as (v1 & Hv1 & Ev' & Ee' & _).
  rewrite Ev', Ee'.
  assert (He1 : Forall (fun y => List.length y = d) (Fatigue.e s ++ [x]))
    by (apply Forall_app; split; [exact He | repeat constructor; exact Hx]).
  assert (Hv1' : Forall (fun y => List.length y = d) v1).
  { destruct Hv1 as [[_ ->] | (dd & Hne & Ed & ->)]; [exact Hv |].
    apply Forall_app; split; [exact Hv |]. constructor; [| constructor].
    assert (Hl : List.length (last (Fatigue.e s) []) = d)
      by (apply (last_in_Forall (fun y => List.length y = d)); assumption).
    rewrite sub_same_length in Ed by congruence.
    inversion Ed; subst dd. rewrite zip_with_length; congruence. }
  split.
  - destruct (Nat.ltb (Fatigue.w s) (List.length (Fatigue.e s ++ [x])));
      [apply Forall_tl |]; exact He1.
  - destruct (Nat.ltb (Fatigue.w s) (List.length v1));
      [apply Forall_tl |]; exact Hv1'.
Qed.

(** After updates with embeddings of dimension [d] the velocities have
    dimension [d]: the histories on which [score()] is shown to return. *)
Lemma calls_dims (d : nat) (xs : list NP.ndarray) :
  Forall (fun x => List.length x = d) xs ->
  forall s : Fatigue.t,
    Forall (fun y => List.length y = d) (Fatigue.e s) ->
    Forall (fun y => List.length y = d) (Fatigue.v s) ->
    Forall (fun y => List.length y = d) (Fatigue.e (Fatigue.calls s xs))
    /\ Forall (fun y => List.length y = d) (Fatigue.v (Fatigue.calls s xs)).
Proof.
  unfold Fatigue.calls, Fatigue.run.
  induction 1 as [| x xs Hx HF IH]; intros s He Hv; simpl; [auto |].
  destruct (Fatigue.update s x) as [s1 |] eqn:E; [| apply IH; assumption].
  destruct (update_dims d s s1 x He Hv Hx E) as [He1 Hv1].
  apply IH; assumption.
Qed.

Lemma score_defined_in_session
  (svd : list NP.ndarray -> option (list R)) (w0 d : nat) (xs : list NP.ndarray) :
  Forall (fun x => List.length x = d) xs ->
  exists f comps st,
    Fatigue.score svd (Fatigue.calls (Fatigue.init w0) xs) = Ok (f, comps, st)
    /\ 0 <= f <= 1.
Proof.
  intros HF.
  destruct (calls_dims d xs HF (Fatigue.init w0)) as [_ Hv];
    [constructor | constructor |].
  apply (score_defined svd d _ Hv).
Qed.

Lemma cosine_factor_defined (a b : NP.ndarray) :
  List.length a = List.length b ->
  exists n,
    (if gt (NP.norm a) 0 && gt (NP.norm b) 0
     then d <- NP.dot a b ;;
          c <- truediv d (NP.norm a * NP.norm b) ;;
          Ok (1 - Rmax 0 c)
     else Ok 0.5) = Ok n.
Proof.
  intros Hl.
  destruct (gt (NP.norm a) 0) eqn:Ga; simpl andb; [| eexists; reflexivity].
  destruct (gt (NP.norm b) 0) eqn:Gb; [| eexists; reflexivity].
  apply gt_true in Ga, Gb.
  rewrite dot_same_length by exact Hl. unfold bind.
  rewrite truediv_some by (apply Rmult_lt_0_compat; lra).
  eexists; reflexivity.
Qed.

Lemma pulse_update_defined (d : nat) (s : PulseEstimator.t) (msg : string)
  (emb : NP.ndarray) (t : R) :
  pulse_dim d s -> List.length emb = d ->
  exists s' r, PulseEstimator.update s msg emb t = Ok (s', r) /\ pulse_dim d s'.
Proof.
  intros [Hlast Hprev] Hemb.
  assert (Hn : exists n, PulseEstimator.N_t s emb = Ok n).
  { unfold PulseEstimator.N_t.
    destruct (PulseEstimator.last_user_emb s) as [last |];
      [| eexists; reflexivity].
    cbv zeta. apply cosine_factor_defined. congruence. }
  assert (Hd : exists dd, PulseEstimator.D_t s emb = Ok dd).
  { unfold PulseEstimator.D_t.
    destruct (PulseEstimator.prev_user_emb s) as [prev |];
      [| eexists; reflexivity].
    destruct (PulseEstimator.last_user_emb s) as [last |];
      [| eexists; reflexivity].
    rewrite (sub_same_length last prev) by congruence.
    rewrite (sub_same_length emb last) by congruence.
    unfold bind at 1 2. cbv zeta.
    apply cosine_factor_defined.
    rewrite !zip_with_length; congruence. }
  destruct Hn as [n En]. destruct Hd as [dd Ed].
  unfold PulseEstimator.update. rewrite En, Ed. unfold bind.
  rewrite sigmoid_defined.
  do 2 eexists. split; [reflexivity |].
  unfold pulse_dim. simpl. split; [exact Hemb | exact Hlast].
Qed.

(** In a session with embeddings of one dimension every [update] returns
    a pulse. *)
Lemma pulse_session_returns (d : nat) (cs : list (string * NP.ndarray * R)) :
  Forall (fun c => List.length (embedding_of c) = d) cs ->
  List.length (snd (PulseEstimator.calls PulseEstimator.init cs)) = List.length cs.
Proof.
  intros HF. unfold PulseEstimator.calls.
  assert (G : forall (s : PulseEstimator.t) (outs : list R),
             pulse_dim d s ->
             List.length (snd (fold_left PulseEstimator.call cs (s, outs)))
             = (List.length outs + List.length cs)%nat).
  { induction HF as [| c cs Hc HF IH]; intros s outs Hs; simpl; [lia |].
    destruct c as [[msg emb] t]. unfold embedding_of in Hc. simpl in Hc.
    destruct (pulse_update_defined d s msg emb t Hs Hc) as (s1 & r1 & E & Hs1).
    unfold PulseEstimator.call at 2. simpl fst. rewrite E.
    rewrite (IH s1 (snd (s, outs) ++ [r1]) Hs1).
    simpl snd. rewrite length_app. simpl. lia. }
  apply (G PulseEstimator.init []). split; exact I.
Qed.

(* ================================================================= *)
(** * Part III: further properties of the code *)
(* ================================================================= *)

(** ** Inner products *)

Lemma inner_comm (a b : NP.ndarray) : inner a b = inner b a.
Proof.
  unfold inner. revert b; induction a as [| x a IH]; intros [| y b]; simpl;
    try reflexivity.
  rewrite IH. lra.
Qed.

Lemma inner_self (a : NP.ndarray) : inner a a = NP.norm a * NP.norm a.
Proof.
  rewrite norm_sqr. unfold inner.
  induction a as [| x a IH]; simpl; [reflexivity | rewrite IH; reflexivity].
Qed.

Lemma inner_scale_l (c : R) (a b : NP.ndarray) :
  inner (NP.scale c a) b = c * inner a b.
Proof.
  unfold inner, NP.scale. revert b; induction a as [| x a IH]; intros [| y b];
    simpl; try lra.
  rewrite IH. lra.
Qed.

Lemma inner_add_l (a b u : NP.ndarray) :
  List.length a = List.length b ->
  inner (NP.zip_with Rplus a b) u = inner a u + inner b u.
Proof.
  unfold inner. revert b u; induction a as [| x a IH]; intros [| y b] u H;
    simpl in *; try discriminate; [lra |].
  destruct u as [| z u]; simpl; [lra |].
  rewrite IH by congruence. lra.
Qed.

Lemma scale_length (c : R) (a : NP.ndarray) :
  List.length (NP.scale c a) = List.length a.
Proof. apply length_map. Qed.

Lemma inner_abs_le (a b : NP.ndarray) :
  Rabs (inner a b) <= NP.norm a * NP.norm b.
Proof.
  pose proof (cauchy_schwarz_sums a b) as CS.
  rewrite <- !norm_sqr in CS. fold (inner a b) in CS.
  pose proof (norm_nonneg a). pose proof (norm_nonneg b).
  apply sq_le_sq; [nra |].
  rewrite <- Rabs_mult. rewrite Rabs_pos_eq by nra. nra.
Qed.

Lemma Rabs_bound (a b : R) : Rabs a <= b -> - b <= a <= b.
Proof. unfold Rabs. destruct (Rcase_abs a); lra. Qed.

Lemma div_norm_scale (a : NP.ndarray) (n : R) :
  map (fun x => x / n) a = NP.scale (/ n) a.
Proof.
  unfold NP.scale. apply map_ext. intros x. unfold Rdiv. lra.
Qed.

(** ** [DirectionTracker.alignment] *)

Lemma alignment_value (s : DirectionTracker.t) (emb d : NP.ndarray) :
  DirectionTracker.tau_dir s = Some d ->
  List.length emb = List.length d ->
  NP.norm emb <> 0 ->
  DirectionTracker.alignment s emb = Ok (round (inner emb d / NP.norm emb) 4).
Proof.
  intros Hd Hl Hn. unfold DirectionTracker.alignment. rewrite Hd. cbv zeta.
  replace (eq (NP.norm emb) 0) with false by (symmetry; apply eq_false; exact Hn).
  rewrite dot_same_length by exact Hl. unfold bind.
  rewrite truediv_ok by exact Hn. reflexivity.
Qed.

Lemma round4_pm1 (x : R) : -1 <= x <= 1 -> -1 <= round x 4 <= 1.
Proof.
  intros [H0 H1]. split.
  - apply (round_ge 4 (-10000)%Z); [simpl; lra | exact H0].
  - apply (round_le 4 10000%Z); [simpl; lra | exact H1].
Qed.

(** The alignment score is defined and lies in [-1, 1] in every session:
    it is the neutral 0.5 while no direction is set and for an embedding
    of norm zero, and otherwise the rounded projection on a direction of
    norm at most one. *)
Theorem alignment_in_range (cs : list (NP.ndarray * R)) (emb : NP.ndarray) :
  direction_dim (DirectionTracker.calls DirectionTracker.init cs) emb ->
  exists a,
    DirectionTracker.alignment (DirectionTracker.calls DirectionTracker.init cs) emb
    = Ok a
    /\ -1 <= a <= 1
    /\ (DirectionTracker.tau_dir (DirectionTracker.calls DirectionTracker.init cs)
        = None -> a = 0.5)
    /\ (NP.norm emb = 0 -> a = 0.5).
Proof.
  intros Hdim.
  pose proof (calls_unit_or_zero cs DirectionTracker.init I) as Hu.
  set (s := DirectionTracker.calls DirectionTracker.init cs) in *.
  unfold direction_dim in Hdim. unfold unit_or_zero in Hu.
  destruct (DirectionTracker.tau_dir s) as [d |] eqn:Ed.
  - destruct (Req_dec (NP.norm emb) 0) as [Z | NZ].
    + exists 0.5. unfold DirectionTracker.alignment. rewrite Ed. cbv zeta.
      replace (eq (NP.norm emb) 0) with true by (symmetry; apply eq_true; exact Z).
      repeat split; auto; lra.
    + rewrite (alignment_value s emb d Ed Hdim NZ).
      eexists. split; [reflexivity |].
      split; [| split; [discriminate | contradiction]].
      apply round4_pm1.
      pose proof (inner_abs_le emb d) as Habs.
      pose proof (norm_nonneg emb) as Hne. pose proof (norm_nonneg d) as Hnd.
      assert (Hpos : 0 < NP.norm emb) by lra.
      assert (Hd1 : NP.norm d <= 1) by (destruct Hu; lra).
      assert (Hb : Rabs (inner emb d) <= NP.norm emb) by nra.
      apply Rabs_bound in Hb.
      split.
      * apply (Rmult_le_reg_r (NP.norm emb)); [exact Hpos |].
        unfold Rdiv. rewrite Rmult_assoc, Rinv_l by lra. lra.
      * apply (Rmult_le_reg_r (NP.norm emb)); [exact Hpos |].
        unfold Rdiv. rewrite Rmult_assoc, Rinv_l by lra. lra.
  - exists 0.5. unfold DirectionTracker.alignment. rewrite Ed.
    repeat split; auto; lra.
Qed.

Lemma alignment_in_range_witness :
  exists a,
    DirectionTracker.alignment
      (DirectionTracker.calls DirectionTracker.init [([3; 4], 0.5)]) [1; 0]
    = Ok a
    /\ -1 <= a <= 1
    /\ (DirectionTracker.tau_dir
          (DirectionTracker.calls DirectionTracker.init [([3; 4], 0.5)])
        = None -> a = 0.5)
    /\ (NP.norm [1; 0] = 0 -> a = 0.5).
Proof.
  apply (alignment_in_range [([3; 4], 0.5)] [1; 0]).
  unfold direction_dim.
  destruct (normalized_spec DirectionTracker.init [3; 4]) as (d & E & Hpos & Hzero).
  unfold DirectionTracker.calls, DirectionTracker.call, DirectionTracker.update.
  simpl fold_left. simpl DirectionTracker.tau_dir. cbv iota.
  rewrite E. simpl DirectionTracker.tau_dir.
  destruct (Req_dec_T (NP.norm [3; 4]) 0) as [Z | NZ].
  - rewrite (Hzero Z). reflexivity.
  - pose proof (norm_nonneg [3; 4]) as Hn.
    assert (Hp : 0 < NP.norm [3; 4]) by lra.
    destruct (Hpos Hp) as [-> _]. rewrite length_map. reflexivity.
Defined.

Lemma sum_squares_scale (c : R) (a : NP.ndarray) :
  NP.sum (map (fun x => x * x) (NP.scale c a))
  = c * c * NP.sum (map (fun x => x * x) a).
Proof.
  unfold NP.scale. induction a as [| x a IH]; simpl; [lra | rewrite IH; lra].
Qed.

Lemma norm_scale (c : R) (a : NP.ndarray) :
  NP.norm (NP.scale c a) = Rabs c * NP.norm a.
Proof.
  unfold NP.norm. rewrite sum_squares_scale.
  rewrite sqrt_mult; [| nra | apply sum_squares_nonneg].
  f_equal. apply sqrt_Rsqr_abs.
Qed.

Lemma first_direction (x : NP.ndarray) (tau_h : R) :
  0 < NP.norm x ->
  DirectionTracker.tau_dir
    (DirectionTracker.calls DirectionTracker.init [(x, tau_h)])
  = Some (NP.scale (/ NP.norm x) x).
Proof.
  intros Hp.
  destruct (normalized_spec DirectionTracker.init x) as (d & E & Hpos & _).
  unfold DirectionTracker.calls, DirectionTracker.call, DirectionTracker.update.
  simpl fold_left. simpl DirectionTracker.tau_dir. cbv iota.
  rewrite E. simpl. destruct (Hpos Hp) as [-> _].
  rewrite div_norm_scale. reflexivity.
Qed.

(** After the first observation [x], every positive multiple of [x] is
    fully aligned (score 1) and every negative multiple fully opposed
    (score -1): the score depends on the direction of the checked
    embedding, not on its length. *)
Theorem alignment_of_first_observation (x : NP.ndarray) (tau_h c : R) :
  0 < NP.norm x ->
  c <> 0 ->
  DirectionTracker.alignment
    (DirectionTracker.calls DirectionTracker.init [(x, tau_h)]) (NP.scale c x)
  = Ok (if Rlt_dec 0 c then 1 else -1).
Proof.
  intros Hp Hc.
  pose proof (first_direction x tau_h Hp) as Ed.
  assert (Hn : NP.norm (NP.scale c x) <> 0).
  { rewrite norm_scale. pose proof (Rabs_pos_lt c Hc). nra. }
  rewrite (alignment_value _ _ _ Ed);
    [| rewrite !scale_length; reflexivity | exact Hn].
  f_equal.
  rewrite inner_scale_l, inner_comm, inner_scale_l, inner_self, norm_scale.
  set (n := NP.norm x) in *.
  destruct (Rlt_dec 0 c) as [Hlt | Hge].
  - rewrite Rabs_pos_eq by lra.
    apply (round_value 4 10000); [field; lra | simpl; lra].
  - assert (c < 0) by lra. rewrite Rabs_left by assumption.
    apply (round_value 4 (-10000)); [field; lra | simpl; lra].
Qed.

Lemma alignment_of_first_observation_witness :
  DirectionTracker.alignment
    (DirectionTracker.calls DirectionTracker.init [([1; 0], 0.5)])
    (NP.scale 2 [1; 0])
  = Ok (if Rlt_dec 0 2 then 1 else -1).
Proof.
  apply (alignment_of_first_observation [1; 0] 0.5 2).
  - rewrite norm_unit_x. lra.
  - lra.
Defined.

(** ** [DirectionTracker.modulate_embedding] *)

Lemma zip_plus_length (a b : NP.ndarray) :
  List.length a = List.length b ->
  List.length (NP.zip_with Rplus a b) = List.length a.
Proof. apply zip_with_length. Qed.

Lemma modulate_value (s : DirectionTracker.t) (emb d : NP.ndarray) (lam : R) :
  DirectionTracker.tau_dir s = Some d ->
  List.length emb = List.length d ->
  DirectionTracker.modulate_embedding s emb lam
  = Ok (NP.zip_with Rplus emb (NP.scale (lam * inner emb d) d)).
Proof.
  intros Hd Hl. unfold DirectionTracker.modulate_embedding. rewrite Hd.
  rewrite dot_same_length by exact Hl. unfold bind.
  rewrite add_same_length by (rewrite scale_length; exact Hl).
  reflexivity.
Qed.

Lemma sum_squares_plus (a b : NP.ndarray) :
  List.length a = List.length b ->
  NP.sum (map (fun x => x * x) (NP.zip_with Rplus a b))
  = NP.sum (map (fun x => x * x) a) + 2 * inner a b
    + NP.sum (map (fun x => x * x) b).
Proof.
  unfold inner. revert b; induction a as [| x a IH]; intros [| y b] H;
    simpl in *; try discriminate; [lra |].
  rewrite IH by congruence. lra.
Qed.

(** The truth-modulation [e' = e + lam (e . tau) tau] on a unit direction:
    it returns an embedding of the same dimension whose component along
    the direction is multiplied by [1 + lam]; the inner product with any
    vector orthogonal to the direction is unchanged; and for [lam >= 0]
    and an embedding that does not oppose the direction, the cosine with
    the direction does not decrease. *)
Theorem modulate_embedding_amplifies
  (s : DirectionTracker.t) (emb d : NP.ndarray) (lam : R) :
  DirectionTracker.tau_dir s = Some d ->
  List.length emb = List.length d ->
  NP.norm d = 1 ->
  exists e',
    DirectionTracker.modulate_embedding s emb lam = Ok e'
    /\ List.length e' = List.length emb
    /\ inner e' d = (1 + lam) * inner emb d
    /\ (forall u, inner d u = 0 -> inner e' u = inner emb u)
    /\ (0 <= lam -> 0 <= inner emb d -> 0 < NP.norm emb ->
        0 < NP.norm e'
        /\ inner emb d / NP.norm emb <= inner e' d / NP.norm e').
Proof.
  intros Hd Hl Hn.
  rewrite (modulate_value s emb d lam Hd Hl).
  set (p := inner emb d).
  set (e' := NP.zip_with Rplus emb (NP.scale (lam * p) d)).
  assert (Hl' : List.length emb = List.length (NP.scale (lam * p) d))
    by (rewrite scale_length; exact Hl).
  assert (Hdd : inner d d = 1) by (rewrite inner_self, Hn; lra).
  assert (Hp' : inner e' d = (1 + lam) * p).
  { unfold e'. rewrite inner_add_l by exact Hl'.
    rewrite inner_scale_l, Hdd. fold p. lra. }
  exists e'. split; [reflexivity |].
  split; [unfold e'; apply zip_plus_length, Hl' |].
  split; [exact Hp' |].
  split.
  { intros u Hu. unfold e'. rewrite inner_add_l by exact Hl'.
    rewrite inner_scale_l, Hu. lra. }
  intros Hlam Hpos Hne.
  assert (Hsq : NP.norm e' * NP.norm e'
                = NP.norm emb * NP.norm emb + (2 * lam + lam * lam) * (p * p)).
  { rewrite !norm_sqr. unfold e'. rewrite sum_squares_plus by exact Hl'.
    rewrite inner_comm, inner_scale_l, inner_comm. fold p.
    rewrite sum_squares_scale, <- (norm_sqr d), Hn. lra. }
  pose proof (norm_nonneg e') as Hne'.
  pose proof (inner_abs_le emb d) as Hcs. rewrite Hn in Hcs. fold p in Hcs.
  rewrite Rabs_pos_eq in Hcs by exact Hpos.
  assert (Hpp : p * p <= NP.norm emb * NP.norm emb) by nra.
  assert (Hpos' : 0 < NP.norm e').
  { destruct (Rle_lt_or_eq_dec _ _ Hne') as [H | H]; [exact H |].
    rewrite <- H in Hsq. exfalso.
    assert (0 <= (2 * lam + lam * lam) * (p * p)) by (apply Rmult_le_pos; nra).
    nra. }
  split; [exact Hpos' |].
  rewrite Hp'.
  assert (Hup : NP.norm e' <= (1 + lam) * NP.norm emb).
  { apply sq_le_sq; [nra |].
    assert ((2 * lam + lam * lam) * (p * p)
            <= (2 * lam + lam * lam) * (NP.norm emb * NP.norm emb))
      by (apply Rmult_le_compat_l; nra).
    nra. }
  apply (Rmult_le_reg_r (NP.norm emb * NP.norm e')); [nra |].
  replace (p / NP.norm emb * (NP.norm emb * NP.norm e')) with (p * NP.norm e')
    by (field; lra).
  replace ((1 + lam) * p / NP.norm e' * (NP.norm emb * NP.norm e'))
    with (p * ((1 + lam) * NP.norm emb)) by (field; lra).
  apply Rmult_le_compat_l; assumption.
Qed.

Lemma modulate_embedding_amplifies_witness :
  exists e',
    DirectionTracker.modulate_embedding
      (DirectionTracker.mk (Some [1; 0]) 0.85) [0.6; 0.8] 0.3 = Ok e'
    /\ List.length e' = List.length [0.6; 0.8]
    /\ inner e' [1; 0] = (1 + 0.3) * inner [0.6; 0.8] [1; 0]
    /\ (forall u, inner [1; 0] u = 0 -> inner e' u = inner [0.6; 0.8] u)
    /\ (0 <= 0.3 -> 0 <= inner [0.6; 0.8] [1; 0] -> 0 < NP.norm [0.6; 0.8] ->
        0 < NP.norm e'
        /\ inner [0.6; 0.8] [1; 0] / NP.norm [0.6; 0.8]
           <= inner e' [1; 0] / NP.norm e').
Proof.
  apply (modulate_embedding_amplifies
           (DirectionTracker.mk (Some [1; 0]) 0.85) [0.6; 0.8] [1; 0] 0.3).
  - reflexivity.
  - reflexivity.
  - exact norm_unit_x.
Defined.

(** ** [Pods]: the dict of pods *)

Lemma dict_get_in {V : Type} (d : Dict.t V) (k : string) (x : V) :
  Dict.get d k = Some x -> In (k, x) d.
Proof.
  induction d as [| [k' y] d IH]; simpl; [discriminate |].
  destruct (String.eqb k k') eqn:E.
  - apply String.eqb_eq in E. subst k'. intros H; inversion H; subst.
    left; reflexivity.
  - intros H. right. apply IH, H.
Qed.

Lemma dict_in_get {V : Type} (d : Dict.t V) (k : string) (x : V) :
  distinct_keys d -> In (k, x) d -> Dict.get d k = Some x.
Proof.
  unfold distinct_keys.
  induction d as [| [k' y] d IH]; simpl; intros Hnd Hin; [contradiction |].
  inversion Hnd as [| k0 l Hnotin Hnd']; subst.
  destruct Hin as [Heq | Hin].
  - inversion Heq; subst. rewrite String.eqb_refl. reflexivity.
  - destruct (String.eqb k k') eqn:E.
    + apply String.eqb_eq in E. subst k'. exfalso. apply Hnotin.
      apply (in_map fst) in Hin. exact Hin.
    + apply IH; assumption.
Qed.

Lemma dict_get_none_keys {V : Type} (d : Dict.t V) (k : string) :
  Dict.get d k = None -> ~ In k (map fst d).
Proof.
  induction d as [| [k' y] d IH]; simpl; [tauto |].
  destruct (String.eqb k k') eqn:E; [discriminate |].
  apply String.eqb_neq in E. intros H [Heq | Hin]; [congruence |].
  apply IH; assumption.
Qed.

Lemma dict_setitem_new {V : Type} (d : Dict.t V) (k : string) (x : V) :
  Dict.get d k = None -> Dict.setitem d k x = d ++ [(k, x)].
Proof.
  induction d as [| [k' y] d IH]; simpl; [reflexivity |].
  destruct (String.eqb k k'); [discriminate |].
  intros H. rewrite IH by exact H. reflexivity.
Qed.

Lemma dict_get_setitem {V : Type} (d : Dict.t V) (k : string) (x : V) :
  Dict.get (Dict.setitem d k x) k = Some x.
Proof.
  induction d as [| [k' y] d IH]; simpl.
  - rewrite String.eqb_refl. reflexivity.
  - destruct (String.eqb k k') eqn:E; simpl; rewrite E; auto.
Qed.

Lemma NoDup_snoc {A : Type} (l : list A) (a : A) :
  NoDup l -> ~ In a l -> NoDup (l ++ [a]).
Proof.
  induction 1 as [| x l Hx Hnd IH]; intros Ha; simpl.
  - constructor; [intros [] | constructor].
  - constructor.
    + intros Hin. apply in_app_or in Hin as [Hin | [Heq | []]].
      * contradiction.
      * subst. apply Ha. left; reflexivity.
    + apply IH. intros Hin. apply Ha. right; exact Hin.
Qed.

Lemma dict_setitem_distinct {V : Type} (d : Dict.t V) (k : string) (x : V) :
  distinct_keys d -> distinct_keys (Dict.setitem d k x).
Proof.
  unfold distinct_keys. intros Hnd.
  destruct (Dict.get d k) as [y |] eqn:E.
  - rewrite (dict_setitem_keys d k x y E). exact Hnd.
  - rewrite (dict_setitem_new d k x E), map_app. simpl.
    apply NoDup_snoc; [exact Hnd | apply dict_get_none_keys, E].
Qed.

(** [create] and lookup: the new pod is stored latent under its identifier
    with the embedding of its content, the other pods are untouched, the
    keys stay distinct, a fresh identifier goes to the end of the dict;
    and [unveil] of that identifier returns the content given to
    [create]. *)
Theorem create_then_unveil (get_emb : string -> NP.ndarray) (pid : string)
  (s : Pods.t) (c : string) :
  let s1 := fst (Pods.create get_emb pid s c) in
  snd (Pods.create get_emb pid s c) = pid
  /\ Dict.get (Pods.p s1) pid = Some (Pods.mk_pod (get_emb c) c Pods.latent)
  /\ (forall k, k <> pid -> Dict.get (Pods.p s1) k = Dict.get (Pods.p s) k)
  /\ (distinct_keys (Pods.p s) -> distinct_keys (Pods.p s1))
  /\ (Dict.get (Pods.p s) pid = None ->
      Pods.p s1 = Pods.p s ++ [(pid, Pods.mk_pod (get_emb c) c Pods.latent)])
  /\ exists s2,
       Pods.unveil s1 pid = Ok (s2, Some c)
       /\ Dict.get (Pods.p s2) pid = Some (Pods.mk_pod (get_emb c) c Pods.unveiled).
Proof.
  cbv zeta. unfold Pods.create. simpl fst. simpl snd. simpl Pods.p.
  set (x := Pods.mk_pod (get_emb c) c Pods.latent).
  assert (E : Dict.get (Dict.setitem (Pods.p s) pid x) pid = Some x)
    by apply dict_get_setitem.
  split; [reflexivity |]. split; [exact E |].
  split; [intros k Hk; apply dict_get_setitem_other, Hk |].
  split; [apply dict_setitem_distinct |].
  split; [apply dict_setitem_new |].
  eexists. split.
  - rewrite (unveil_known (Pods.mk (Dict.setitem (Pods.p s) pid x)) pid x E).
    reflexivity.
  - simpl Pods.p. apply dict_get_setitem.
Qed.

(** ** Detection never returns an unveiled pod *)

(** Where a hit of a detection loop comes from: it is the best hit so
    far, or a latent pod of the list under its own key and content. *)
Lemma loop_hit_origin
  (body : option Pods.hit -> string * Pods.pod -> result (option Pods.hit))
  (l : list (string * Pods.pod)) :
  (forall best kv r, body best kv = Ok r ->
     r = best
     \/ (Pods.state (snd kv) = Pods.latent
         /\ exists sim, r = Some (fst kv, sim, Pods.content (snd kv)))) ->
  forall best r,
    for_each l best body = Ok r ->
    r = best
    \/ exists k x sim, In (k, x) l /\ Pods.state x = Pods.latent
                       /\ r = Some (k, sim, Pods.content x).
Proof.
  intros Hbody. induction l as [| [k x] l IH]; intros best r H.
  - simpl in H. inversion H. left; reflexivity.
  - rewrite for_each_cons in H. unfold bind in H.
    destruct (body best (k, x)) as [b1 |] eqn:E; [| discriminate].
    destruct (IH b1 r H) as [-> | (k1 & x1 & sim & Hin & Hst & Er)].
    + destruct (Hbody best (k, x) b1 E) as [-> | (Hst & sim & ->)];
        [left; reflexivity |].
      right. exists k, x, sim. simpl. auto.
    + right. exists k1, x1, sim. simpl. auto.
Qed.

Lemma adaptive_body_origin (q : NP.ndarray) (f_score pod_high pod_soft : R)
  (best : option Pods.hit) (kv : string * Pods.pod) (r : option Pods.hit) :
  Vessel.detect_body q f_score pod_high pod_soft best kv = Ok r ->
  r = best
  \/ (Pods.state (snd kv) = Pods.latent
      /\ exists sim, r = Some (fst kv, sim, Pods.content (snd kv))).
Proof.
  destruct kv as [k x]. unfold Vessel.detect_body. simpl fst. simpl snd.
  destruct (Pods.state x) eqn:Est; simpl Pods.is_latent; simpl negb; cbv iota;
    [| intros H; inversion H; left; reflexivity].
  cbv zeta.
  destruct (eq _ 0 || eq _ 0); [intros H; inversion H; left; reflexivity |].
  unfold bind.
  destruct (NP.dot q (Pods.emb x)) as [d |]; [| discriminate].
  destruct (truediv d _) as [sim |]; [| discriminate].
  destruct (_ || _); [| intros H; inversion H; left; reflexivity].
  destruct (Pods.improves best sim); intros H; inversion H;
    [right; split; [reflexivity | exists sim; reflexivity] | left; reflexivity].
Qed.

Lemma fixed_body_origin (q : NP.ndarray) (f : R)
  (best : option Pods.hit) (kv : string * Pods.pod) (r : option Pods.hit) :
  Pods.detect_body q f best kv = Ok r ->
  r = best
  \/ (Pods.state (snd kv) = Pods.latent
      /\ exists sim, r = Some (fst kv, sim, Pods.content (snd kv))).
Proof.
  destruct kv as [k x]. unfold Pods.detect_body. simpl fst. simpl snd.
  destruct (Pods.state x) eqn:Est; simpl Pods.is_latent; simpl negb; cbv iota;
    [| intros H; inversion H; left; reflexivity].
  unfold bind.
  destruct (NP.dot q (Pods.emb x)) as [d |]; [| discriminate].
  destruct (truediv d _) as [sim |]; [| discriminate].
  destruct (_ || _); [| intros H; inversion H; left; reflexivity].
  destruct (Pods.improves best sim); intros H; inversion H;
    [right; split; [reflexivity | exists sim; reflexivity] | left; reflexivity].
Qed.

Lemma unveil_state (s : Pods.t) (pid : string) :
  exists s1 r,
    Pods.unveil s pid = Ok (s1, r)
    /\ map fst (Pods.p s1) = map fst (Pods.p s)
    /\ (forall x, Dict.get (Pods.p s1) pid = Some x ->
                  Pods.state x = Pods.unveiled).
Proof.
  destruct (Dict.get (Pods.p s) pid) as [x |] eqn:E.
  - do 2 eexists. split; [apply (unveil_known s pid x E) |].
    simpl Pods.p. split; [eapply dict_setitem_keys; eauto |].
    intros y Hy. rewrite dict_get_setitem in Hy. inversion Hy. reflexivity.
  - exists s, None. split; [apply unveil_unknown, E |].
    split; [reflexivity |]. intros y Hy. congruence.
Qed.

(** A pod that [unveil] has been called on is never returned again, by
    the adaptive detection of [speak] or by [Pods.detect], whatever the
    query, the fatigue and the thresholds: every hit is a pod stored as
    latent, under a key other than the unveiled one. *)
Theorem unveiled_pod_never_detected (s s1 : Pods.t) (pid : string)
  (r : option string) :
  distinct_keys (Pods.p s) ->
  Pods.unveil s pid = Ok (s1, r) ->
  forall (q : NP.ndarray) (f_score pod_high pod_soft : R) (k : string)
         (sim : R) (c : string),
    (Vessel._detect_pod_adaptive s1 q f_score pod_high pod_soft
     = Ok (Some (k, sim, c))
     \/ Pods.detect s1 q f_score = Ok (Some (k, sim, c))) ->
    k <> pid
    /\ exists x, Dict.get (Pods.p s1) k = Some x
                 /\ Pods.state x = Pods.latent /\ Pods.content x = c.
Proof.
  intros Hnd Hun q f_score pod_high pod_soft k sim c Hdet.
  destruct (unveil_state s pid) as (s1' & r1 & E1 & Hkeys & Hpid).
  rewrite E1 in Hun. inversion Hun; subst s1' r1. clear Hun.
  assert (Hnd1 : distinct_keys (Pods.p s1)).
  { unfold distinct_keys in *. rewrite Hkeys. exact Hnd. }
  assert (Horigin : exists x sim0, In (k, x) (Pods.p s1)
                      /\ Pods.state x = Pods.latent
                      /\ Some (k, sim, c) = Some (k, sim0, Pods.content x)).
  { destruct Hdet as [H | H].
    - apply (loop_hit_origin _ _ (adaptive_body_origin q f_score pod_high pod_soft))
        in H.
      destruct H as [H | (k1 & x1 & sim1 & Hin & Hst & Er)]; [discriminate |].
      inversion Er; subst. exists x1, sim1. auto.
    - apply (loop_hit_origin _ _ (fixed_body_origin q f_score)) in H.
      destruct H as [H | (k1 & x1 & sim1 & Hin & Hst & Er)]; [discriminate |].
      inversion Er; subst. exists x1, sim1. auto. }
  destruct Horigin as (x & sim0 & Hin & Hst & Er). inversion Er; subst.
  pose proof (dict_in_get _ _ _ Hnd1 Hin) as Hget.
  split.
  - intros ->. pose proof (Hpid x Hget) as Hun. congruence.
  - exists x. auto.
Qed.

(** ** [Pods.detect] *)

(** A detection loop whose body keeps the best hit so far, or replaces
    it by a pod that passes with a greater score. *)
Lemma best_hit_loop
  (body : option Pods.hit -> string * Pods.pod -> result (option Pods.hit))
  (passes : Pods.pod -> Prop) (score : Pods.pod -> R)
  (l : list (string * Pods.pod)) :
  (forall best k x, In (k, x) l ->
     (passes x /\ Pods.improves best (score x) = true
      /\ body best (k, x) = Ok (Some (k, score x, Pods.content x)))
     \/ (passes x /\ Pods.improves best (score x) = false
         /\ body best (k, x) = Ok best)
     \/ (~ passes x /\ body best (k, x) = Ok best)) ->
  forall best : option Pods.hit,
  exists r,
    for_each l best body = Ok r
    /\ (r = best
        \/ exists k x, In (k, x) l /\ passes x
                       /\ r = Some (k, score x, Pods.content x))
    /\ (forall k x, In (k, x) l -> passes x ->
                    exists k0 sim c, r = Some (k0, sim, c) /\ score x <= sim)
    /\ (forall kb sb cb, best = Some (kb, sb, cb) ->
                         exists k0 sim c, r = Some (k0, sim, c) /\ sb <= sim).
Proof.
  induction l as [| [k x] l IH]; intros Hbody best.
  - exists best. split; [reflexivity |]. split; [left; reflexivity |].
    split; [intros k x [] |].
    intros kb sb cb E. exists kb, sb, cb. split; [exact E | lra].
  - assert (Hbody' : forall best k0 x0, In (k0, x0) l ->
              (passes x0 /\ Pods.improves best (score x0) = true
               /\ body best (k0, x0) = Ok (Some (k0, score x0, Pods.content x0)))
              \/ (passes x0 /\ Pods.improves best (score x0) = false
                  /\ body best (k0, x0) = Ok best)
              \/ (~ passes x0 /\ body best (k0, x0) = Ok best))
      by (intros b k0 x0 Hin; apply Hbody; right; exact Hin).
    specialize (IH Hbody').
    rewrite for_each_cons.
    destruct (Hbody best k x (or_introl eq_refl))
      as [(Hm & Hi & E) | [(Hm & Hi & E) | (Hm & E)]]; rewrite E; unfold bind.
    + destruct (IH (Some (k, score x, Pods.content x)))
        as (r & Er & Hr & Hmax & Hbest).
      exists r. split; [exact Er |].
      destruct (Hbest _ _ _ eq_refl) as (k0 & sim & c & Erk & Hle).
      split; [| split].
      * right. destruct Hr as [-> | (k1 & x1 & Hin & Hm1 & E1)].
        -- exists k, x. split; [left; reflexivity | auto].
        -- exists k1, x1. split; [right; exact Hin | auto].
      * intros k1 x1 [Heq | Hin] Hm1.
        -- inversion Heq; subst. exists k0, sim, c. auto.
        -- apply Hmax with (k := k1); assumption.
      * intros kb sb cb Eb. subst best. simpl in Hi. apply gt_true in Hi.
        exists k0, sim, c. split; [exact Erk | lra].
    + destruct (IH best) as (r & Er & Hr & Hmax & Hbest).
      exists r. split; [exact Er |].
      split; [| split].
      * destruct Hr as [-> | (k1 & x1 & Hin & Hm1 & E1)]; [left; reflexivity |].
        right. exists k1, x1. split; [right; exact Hin | auto].
      * intros k1 x1 [Heq | Hin] Hm1.
        -- inversion Heq; subst.
           destruct best as [[[kb sb] cb] |]; [| discriminate].
           simpl in Hi. apply gt_false in Hi.
           destruct (Hbest _ _ _ eq_refl) as (k0 & sim & c & Erk & Hle).
           exists k0, sim, c. split; [exact Erk | lra].
        -- apply Hmax with (k := k1); assumption.
      * exact Hbest.
    + destruct (IH best) as (r & Er & Hr & Hmax & Hbest).
      exists r. split; [exact Er |].
      split; [| split].
      * destruct Hr as [-> | (k1 & x1 & Hin & Hm1 & E1)]; [left; reflexivity |].
        right. exists k1, x1. split; [right; exact Hin | auto].
      * intros k1 x1 [Heq | Hin] Hm1.
        -- inversion Heq; subst. contradiction.
        -- apply Hmax with (k := k1); assumption.
      * exact Hbest.
Qed.

Lemma fixed_body_cases (q : NP.ndarray) (f : R)
  (best : option Pods.hit) (k : string) (x : Pods.pod) :
  List.length q = List.length (Pods.emb x) ->
  (matches_fixed q f x
   /\ Pods.improves best (guarded_cosine q (Pods.emb x)) = true
   /\ Pods.detect_body q f best (k, x)
      = Ok (Some (k, guarded_cosine q (Pods.emb x), Pods.content x)))
  \/ (matches_fixed q f x
      /\ Pods.improves best (guarded_cosine q (Pods.emb x)) = false
      /\ Pods.detect_body q f best (k, x) = Ok best)
  \/ (~ matches_fixed q f x /\ Pods.detect_body q f best (k, x) = Ok best).
Proof.
  intros Hl. unfold Pods.detect_body, matches_fixed.
  destruct (Pods.state x) eqn:Est; simpl Pods.is_latent; simpl negb; cbv iota;
    [| right; right; split; [intros (H & _); discriminate | reflexivity]].
  rewrite dot_same_length by exact Hl. unfold bind.
  pose proof (norm_nonneg q). pose proof (norm_nonneg (Pods.emb x)).
  rewrite truediv_some by nra.
  cbv iota beta. fold (inner q (Pods.emb x)).
  fold (guarded_cosine q (Pods.emb x)).
  set (sim := guarded_cosine q (Pods.emb x)).
  destruct (gt sim POD_THETA_HIGH) eqn:G1; simpl orb.
  - apply gt_true in G1.
    destruct (Pods.improves best sim) eqn:I.
    + left. repeat split; auto.
    + right; left. repeat split; auto.
  - apply gt_false in G1.
    destruct (gt f THETA_HARD) eqn:G2; simpl andb.
    + apply gt_true in G2.
      destruct (gt sim POD_THETA_SOFT) eqn:G3.
      * apply gt_true in G3.
        destruct (Pods.improves best sim) eqn:I.
        -- left. repeat split; auto.
        -- right; left. repeat split; auto.
      * apply gt_false in G3. right; right.
        split; [| reflexivity].
        intros (_ & [Hc | [_ Hc]]); lra.
    + apply gt_false in G2. right; right.
      split; [| reflexivity].
      intros (_ & [Hc | [Hc _]]); lra.
Qed.

Lemma guarded_cosine_zero_query (q e : NP.ndarray) :
  NP.norm q = 0 -> guarded_cosine q e = 0.
Proof.
  intros Hz. unfold guarded_cosine.
  pose proof (inner_abs_le q e) as H. rewrite Hz, Rmult_0_l in H.
  pose proof (Rabs_pos (inner q e)).
  assert (E : inner q e = 0).
  { apply Rabs_bound in H. lra. }
  rewrite E. unfold Rdiv. lra.
Qed.

(** [Pods.detect], with seed embeddings of the dimension of the query:
    it returns, never dividing by zero; [None] when no latent pod passes
    the fixed thresholds, else a latent pod that passes, with its key,
    similarity and content, and no pod that passes has a greater
    similarity; the similarity of a hit is above 0.5; and a query of
    norm zero finds nothing. *)
Theorem pods_detect_best_match (s : Pods.t) (q : NP.ndarray) (f : R) :
  Forall (fun kv => List.length q = List.length (Pods.emb (snd kv)))
    (Dict.items (Pods.p s)) ->
  exists r,
    Pods.detect s q f = Ok r
    /\ match r with
       | None =>
           forall k x, In (k, x) (Dict.items (Pods.p s)) -> ~ matches_fixed q f x
       | Some (k, sim, c) =>
           (exists x, In (k, x) (Dict.items (Pods.p s))
                      /\ matches_fixed q f x
                      /\ sim = guarded_cosine q (Pods.emb x)
                      /\ c = Pods.content x)
           /\ (forall k' x', In (k', x') (Dict.items (Pods.p s)) ->
                             matches_fixed q f x' ->
                             guarded_cosine q (Pods.emb x') <= sim)
           /\ sim > 0.5
       end
    /\ (NP.norm q = 0 -> r = None).
Proof.
  intros HF. unfold Pods.detect.
  assert (Hbody : forall best k x, In (k, x) (Dict.items (Pods.p s)) ->
            (matches_fixed q f x
             /\ Pods.improves best (guarded_cosine q (Pods.emb x)) = true
             /\ Pods.detect_body q f best (k, x)
                = Ok (Some (k, guarded_cosine q (Pods.emb x), Pods.content x)))
            \/ (matches_fixed q f x
                /\ Pods.improves best (guarded_cosine q (Pods.emb x)) = false
                /\ Pods.detect_body q f best (k, x) = Ok best)
            \/ (~ matches_fixed q f x /\ Pods.detect_body q f best (k, x) = Ok best)).
  { intros best k x Hin. apply fixed_body_cases.
    rewrite Forall_forall in HF. apply (HF (k, x) Hin). }
  destruct (best_hit_loop _ (matches_fixed q f)
              (fun x => guarded_cosine q (Pods.emb x)) _ Hbody None)
    as (r & Er & Hr & Hmax & _).
  exists r. split; [exact Er |].
  assert (Hsim : forall x, matches_fixed q f x ->
                           guarded_cosine q (Pods.emb x) > 0.5).
  { intros x (_ & [Hc | [_ Hc]]); unfold POD_THETA_HIGH, POD_THETA_SOFT in Hc; lra. }
  split.
  - destruct r as [[[k sim] c] |].
    + destruct Hr as [H | (k1 & x1 & Hin & Hm & E)]; [discriminate |].
      inversion E; subst. split; [exists x1; auto |].
      split; [| apply Hsim, Hm].
      intros k' x' Hin' Hm'.
      destruct (Hmax k' x' Hin' Hm') as (k0 & sim0 & c0 & E0 & Hle).
      inversion E0; subst. exact Hle.
    + intros k x Hin Hm.
      destruct (Hmax k x Hin Hm) as (k0 & sim0 & c0 & E & _). discriminate.
  - intros Hz. destruct Hr as [-> | (k1 & x1 & Hin & Hm & E)]; [reflexivity |].
    apply Hsim in Hm. rewrite (guarded_cosine_zero_query _ _ Hz) in Hm. lra.
Qed.

Lemma guarded_cosine_unit_x : guarded_cosine [1; 0] [1; 0] > POD_THETA_HIGH.
Proof.
  unfold guarded_cosine, inner, POD_THETA_HIGH. rewrite norm_unit_x. simpl.
  apply Rlt_gt. apply (Rmult_lt_reg_r (1 * 1 + 1e-10)); [lra |].
  unfold Rdiv. rewrite Rmult_assoc, Rinv_l by lra. lra.
Qed.

(** Two pods seeded on [(1, 0)], the first one unveiled: the query
    [(1, 0)] finds the second. *)
Lemma detect_after_unveil_example :
  Pods.detect
    (Pods.mk [("a"%string, Pods.mk_pod [1; 0] "A" Pods.unveiled);
              ("b"%string, Pods.mk_pod [1; 0] "B" Pods.latent)])
    [1; 0] 0
  = Ok (Some ("b"%string, guarded_cosine [1; 0] [1; 0], "B"%string)).
Proof.
  unfold Pods.detect. simpl Pods.p. unfold Dict.items.
  rewrite for_each_cons.
  replace (Pods.detect_body [1; 0] 0 None
             ("a"%string, Pods.mk_pod [1; 0] "A" Pods.unveiled))
    with (Ok (@None Pods.hit)) by reflexivity.
  unfold bind at 1. rewrite for_each_cons.
  destruct (fixed_body_cases [1; 0] 0 None "b"
              (Pods.mk_pod [1; 0] "B" Pods.latent) eq_refl)
    as [(_ & _ & E) | [(_ & Hi & _) | (Hm & _)]].
  - rewrite E. reflexivity.
  - discriminate Hi.
  - exfalso. apply Hm. split; [reflexivity |]. left. exact guarded_cosine_unit_x.
Qed.

Lemma unveiled_pod_never_detected_witness :
  "b"%string <> "a"%string
  /\ exists x,
       Dict.get
         [("a"%string, Pods.mk_pod [1; 0] "A" Pods.unveiled);
          ("b"%string, Pods.mk_pod [1; 0] "B" Pods.latent)] "b"
       = Some x
       /\ Pods.state x = Pods.latent /\ Pods.content x = "B"%string.
Proof.
  refine (unveiled_pod_never_detected
           (Pods.mk [("a"%string, Pods.mk_pod [1; 0] "A" Pods.latent);
                     ("b"%string, Pods.mk_pod [1; 0] "B" Pods.latent)])
           (Pods.mk [("a"%string, Pods.mk_pod [1; 0] "A" Pods.unveiled);
                     ("b"%string, Pods.mk_pod [1; 0] "B" Pods.latent)])
           "a" (Some "A"%string)
           _ _ [1; 0] 0 POD_THETA_HIGH POD_THETA_SOFT "b"
           (guarded_cosine [1; 0] [1; 0]) "B" _).
  - unfold distinct_keys. simpl.
    constructor.
    + intros [H | []]. discriminate H.
    + constructor; [intros [] | constructor].
  - reflexivity.
  - right. exact detect_after_unveil_example.
Defined.

Lemma pods_detect_best_match_witness :
  exists r,
    Pods.detect
      (Pods.mk [("a"%string, Pods.mk_pod [1; 0] "A" Pods.unveiled);
                ("b"%string, Pods.mk_pod [1; 0] "B" Pods.latent)])
      [1; 0] 0 = Ok r
    /\ r <> None.
Proof.
  destruct (pods_detect_best_match
              (Pods.mk [("a"%string, Pods.mk_pod [1; 0] "A" Pods.unveiled);
                        ("b"%string, Pods.mk_pod [1; 0] "B" Pods.latent)])
              [1; 0] 0) as (r & E & Hr & _).
  - repeat constructor.
  - exists r. split; [exact E |].
    intros ->. apply (Hr "b"%string (Pods.mk_pod [1; 0] "B" Pods.latent)).
    + right. left. reflexivity.
    + split; [reflexivity |]. left. exact guarded_cosine_unit_x.
Defined.

(** ** [RhythmStore.compute_signature]: the statistics *)

Lemma py_sum_acc (l : list R) (a : R) : fold_left Rplus l a = a + Py.sum l.
Proof.
  unfold Py.sum. revert a; induction l as [| x l IH]; intros a; simpl.
  - lra.
  - rewrite (IH (a + x)), (IH (0 + x)). lra.
Qed.

Lemma py_sum_cons (x : R) (l : list R) : Py.sum (x :: l) = x + Py.sum l.
Proof. unfold Py.sum at 1. simpl. rewrite py_sum_acc. lra. Qed.

Lemma py_sum_app (l1 l2 : list R) : Py.sum (l1 ++ l2) = Py.sum l1 + Py.sum l2.
Proof.
  induction l1 as [| x l1 IH]; simpl.
  - unfold Py.sum at 2. simpl. lra.
  - rewrite !py_sum_cons, IH. lra.
Qed.

Lemma py_sum_upper (l : list R) (c : R) :
  Forall (fun x => x <= c) l -> Py.sum l <= c * INR (List.length l).
Proof.
  induction 1 as [| x l Hx HF IH].
  - unfold Py.sum. simpl. lra.
  - rewrite py_sum_cons. change (List.length (x :: l)) with (S (List.length l)).
    rewrite S_INR. lra.
Qed.

Lemma py_sum_lower (l : list R) (c : R) :
  Forall (fun x => c <= x) l -> c * INR (List.length l) <= Py.sum l.
Proof.
  induction 1 as [| x l Hx HF IH].
  - unfold Py.sum. simpl. lra.
  - rewrite py_sum_cons. change (List.length (x :: l)) with (S (List.length l)).
    rewrite S_INR. lra.
Qed.

Lemma length_pos_INR {A : Type} (l : list A) : l <> [] -> 0 < INR (List.length l).
Proof. intros H. apply lt_0_INR. destruct l; [contradiction | simpl; lia]. Qed.

Lemma mean_bounds (l : list R) (a b : R) :
  l <> [] -> Forall (fun x => a <= x <= b) l -> a <= mean l <= b.
Proof.
  intros Hne HF. pose proof (length_pos_INR l Hne) as Hlen.
  assert (Hlo : a * INR (List.length l) <= Py.sum l).
  { apply py_sum_lower. eapply Forall_impl; [| exact HF]. simpl. intros; lra. }
  assert (Hup : Py.sum l <= b * INR (List.length l)).
  { apply py_sum_upper. eapply Forall_impl; [| exact HF]. simpl. intros; lra. }
  unfold mean. split.
  - apply (Rmult_le_reg_r (INR (List.length l))); [exact Hlen |].
    unfold Rdiv. rewrite Rmult_assoc, Rinv_l by lra. lra.
  - apply (Rmult_le_reg_r (INR (List.length l))); [exact Hlen |].
    unfold Rdiv. rewrite Rmult_assoc, Rinv_l by lra. lra.
Qed.

(** [sum((x - c)^2)], expanded. *)
Lemma sum_sq_dev (l : list R) (c : R) :
  Py.sum (map (fun x => (x - c) ^ 2) l)
  = Py.sum (map (fun x => x * x) l) - 2 * c * Py.sum l
    + INR (List.length l) * (c * c).
Proof.
  induction l as [| x l IH].
  - unfold Py.sum. simpl. lra.
  - rewrite !map_cons, !py_sum_cons, IH.
    change (List.length (x :: l)) with (S (List.length l)).
    rewrite S_INR. lra.
Qed.

Lemma sum_sq_dev_nonneg (l : list R) (c : R) :
  0 <= Py.sum (map (fun x => (x - c) ^ 2) l).
Proof.
  induction l as [| x l IH].
  - unfold Py.sum. simpl. lra.
  - rewrite map_cons, py_sum_cons. cbv beta.
    pose proof (pow2_ge_0 (x - c)). lra.
Qed.

(** The mean minimises the sum of the squared deviations. *)
Lemma sum_sq_dev_mean (l : list R) (c : R) :
  l <> [] ->
  Py.sum (map (fun x => (x - mean l) ^ 2) l)
  <= Py.sum (map (fun x => (x - c) ^ 2) l).
Proof.
  intros Hne. pose proof (length_pos_INR l Hne) as Hlen.
  rewrite !sum_sq_dev.
  assert (E : Py.sum l = INR (List.length l) * mean l)
    by (unfold mean; field; lra).
  rewrite E. set (n := INR (List.length l)) in *. set (m := mean l).
  assert (0 <= n * ((m - c) * (m - c))).
  { apply Rmult_le_pos; [lra |]. apply Rle_0_sqr. }
  nra.
Qed.

Lemma variance_nonneg (l : list R) : 0 <= variance l.
Proof.
  unfold variance. destruct (Nat.ltb_spec 1 (List.length l)) as [H | H]; [| lra].
  apply Rmult_le_pos; [apply sum_sq_dev_nonneg |].
  apply Rlt_le, Rinv_0_lt_compat, lt_0_INR. lia.
Qed.

(** Popoviciu: values in [[a, b]] have a variance of at most
    [((b - a) / 2)^2]. *)
Lemma variance_upper (l : list R) (a b : R) :
  Forall (fun x => a <= x <= b) l ->
  variance l <= ((b - a) / 2) * ((b - a) / 2).
Proof.
  intros HF. unfold variance.
  destruct (Nat.ltb_spec 1 (List.length l)) as [H | H];
    [| apply Rle_0_sqr].
  assert (Hne : l <> []) by (destruct l; [simpl in H; lia | discriminate]).
  pose proof (length_pos_INR l Hne) as Hlen.
  pose proof (sum_sq_dev_mean l ((a + b) / 2) Hne) as Hmin.
  assert (Hup : Py.sum (map (fun x => (x - (a + b) / 2) ^ 2) l)
                <= ((b - a) / 2) * ((b - a) / 2) * INR (List.length l)).
  { rewrite <- (length_map (fun x => (x - (a + b) / 2) ^ 2) l).
    apply py_sum_upper. apply Forall_map.
    eapply Forall_impl; [| exact HF]. simpl. intros x Hx. nra. }
  apply (Rmult_le_reg_r (INR (List.length l))); [exact Hlen |].
  unfold Rdiv at 1. rewrite Rmult_assoc, Rinv_l by lra. lra.
Qed.

Lemma max_list_acc_le (l : list R) (x : R) : x <= max_list x l.
Proof.
  unfold max_list. revert x; induction l as [| y l IH]; intros x; simpl; [lra |].
  destruct (gt y x) eqn:G.
  - apply gt_true in G. specialize (IH y). lra.
  - apply IH.
Qed.

Lemma max_list_ge (l : list R) (x : R) :
  Forall (fun y => y <= max_list x l) (x :: l).
Proof.
  constructor; [apply max_list_acc_le |].
  unfold max_list. revert x; induction l as [| y l IH]; intros x; [constructor |].
  simpl fold_left. destruct (gt y x) eqn:G.
  - constructor; [apply (max_list_acc_le l y) | apply IH].
  - apply gt_false in G. constructor; [| apply IH].
    pose proof (max_list_acc_le l x) as H. unfold max_list in H. lra.
Qed.

Lemma max_list_in (l : list R) (x : R) : In (max_list x l) (x :: l).
Proof.
  unfold max_list. revert x; induction l as [| y l IH]; intros x; [left; reflexivity |].
  simpl fold_left. destruct (gt y x).
  - right. apply IH.
  - destruct (IH x) as [H | H]; [left; exact H | right; right; exact H].
Qed.

Lemma fold_pairs_acc (rest : list R) (prev acc : R) :
  fold_pairs (fun acc b a => acc + Rabs (a - b)) acc prev rest
  = acc + fold_pairs (fun acc b a => acc + Rabs (a - b)) 0 prev rest.
Proof.
  revert prev acc; induction rest as [| cur rest IH]; intros prev acc; simpl.
  - lra.
  - rewrite (IH cur (acc + _)), (IH cur (0 + _)). lra.
Qed.

Lemma total_variation_cons (x y : R) (l : list R) :
  total_variation (x :: y :: l) = Rabs (y - x) + total_variation (y :: l).
Proof. unfold total_variation. simpl. rewrite fold_pairs_acc. lra. Qed.

Lemma total_variation_bounds (l : list R) :
  0 <= total_variation l
  /\ Rabs (last l 0 - hd 0 l) <= total_variation l
  /\ (PulseEstimator.nondecreasing l -> total_variation l = last l 0 - hd 0 l)
  /\ (total_variation l = 0 -> Forall (fun x => x = hd 0 l) l).
Proof.
  destruct l as [| x l].
  { simpl. rewrite Rminus_diag, Rabs_R0. repeat split; try lra. constructor. }
  revert x; induction l as [| y l IH]; intros x.
  { unfold total_variation. simpl. rewrite Rminus_diag, Rabs_R0.
    repeat split; try lra. constructor; [reflexivity | constructor]. }
  rewrite total_variation_cons.
  destruct (IH y) as (H0 & Hnet & Hmono & Hzero).
  change (last (x :: y :: l) 0) with (last (y :: l) 0).
  change (hd 0 (x :: y :: l)) with x. change (hd 0 (y :: l)) with y in *.
  pose proof (Rabs_pos (y - x)) as Hp.
  split; [lra |]. split; [| split].
  - pose proof (Rabs_triang (last (y :: l) 0 - y) (y - x)) as Ht.
    replace (last (y :: l) 0 - y + (y - x)) with (last (y :: l) 0 - x) in Ht by lra.
    lra.
  - intros [Hxy Hnd]. rewrite (Hmono Hnd), Rabs_pos_eq by lra. lra.
  - intros Hz.
    assert (Hxy : Rabs (y - x) = 0) by lra.
    assert (Htv : total_variation (y :: l) = 0) by lra.
    assert (Eyx : y = x).
    { destruct (Req_dec (y - x) 0) as [E | E]; [lra |].
      apply Rabs_no_R0 in E. contradiction. }
    constructor; [reflexivity |].
    specialize (Hzero Htv). subst y. exact Hzero.
Qed.

Lemma dominant_not_empty (m v p : R) (tr : RhythmStore.trend) :
  RhythmStore.dominant_rhythm m v p tr <> RhythmStore.empty.
Proof.
  unfold RhythmStore.dominant_rhythm.
  destruct (_ && _); [discriminate |].
  destruct (gt m 0.65); [discriminate |].
  destruct (gt v 0.03); [discriminate |].
  destruct (_ && _); [discriminate |].
  destruct (RhythmStore.is_falling tr); discriminate.
Qed.

(** The signature of a session with samples, field by field. *)
Lemma compute_signature_value (s : RhythmStore.t) (sm0 : RhythmStore.sample)
  (rest : list RhythmStore.sample) :
  RhythmStore.samples s = sm0 :: rest ->
  let taus := map RhythmStore.tau_h (sm0 :: rest) in
  let fatigues := map RhythmStore.fatigue (sm0 :: rest) in
  let peak := max_list (RhythmStore.fatigue sm0) (map RhythmStore.fatigue rest) in
  exists tr,
    RhythmStore.fatigue_trend fatigues = Ok tr
    /\ RhythmStore.compute_signature s
       = Ok {| RhythmStore.mean_tau_h := round (mean taus) 4;
               RhythmStore.tau_h_variance := Some (round (variance taus) 4);
               RhythmStore.mean_fatigue := Some (round (mean fatigues) 4);
               RhythmStore.peak_fatigue := Some (round peak 4);
               RhythmStore.sig_fatigue_trend := Some tr;
               RhythmStore.sig_breathing_events
                 := Some (RhythmStore.scan_pairs sm0 rest);
               RhythmStore.sig_dominant_rhythm
                 := RhythmStore.dominant_rhythm (mean taus) (variance taus) peak tr;
               RhythmStore.curvature_integral
                 := round (total_variation taus) 4 |}.
Proof.
  intros E. cbv zeta.
  destruct (fatigue_trend_defined (map RhythmStore.fatigue (sm0 :: rest)))
    as [tr Etr].
  exists tr. split; [exact Etr |].
  unfold RhythmStore.compute_signature. rewrite E. cbv zeta.
  assert (Hlen : 0 < INR (List.length (map RhythmStore.tau_h (sm0 :: rest))))
    by (apply length_pos_INR; discriminate).
  assert (Hlenf : 0 < INR (List.length (map RhythmStore.fatigue (sm0 :: rest))))
    by (apply length_pos_INR; discriminate).
  rewrite (truediv_some _ _ Hlen). unfold bind at 1.
  fold (mean (map RhythmStore.tau_h (sm0 :: rest))).
  assert (Evar : (if Nat.ltb 1 (List.length (map RhythmStore.tau_h (sm0 :: rest)))
                  then truediv
                         (Py.sum (map (fun x => (x - mean (map RhythmStore.tau_h (sm0 :: rest))) ^ 2)
                                    (map RhythmStore.tau_h (sm0 :: rest))))
                         (INR (List.length (map RhythmStore.tau_h (sm0 :: rest))))
                  else Ok 0)
                 = Ok (variance (map RhythmStore.tau_h (sm0 :: rest)))).
  { unfold variance. destruct (Nat.ltb 1 _); [| reflexivity].
    apply truediv_some, Hlen. }
  rewrite Evar. unfold bind at 1.
  rewrite (truediv_some _ _ Hlenf). unfold bind at 1.
  fold (mean (map RhythmStore.fatigue (sm0 :: rest))).
  rewrite Etr. unfold bind at 1.
  rewrite breathing_events_scan. unfold bind at 1.
  rewrite (curvature_defined (RhythmStore.tau_h sm0) (map RhythmStore.tau_h rest)
           : RhythmStore.curvature (map RhythmStore.tau_h (sm0 :: rest)) = _).
  unfold bind. reflexivity.
Qed.

(** [compute_signature] never raises: no division by zero, no index out
    of range.  Without samples it returns the three-key signature of an
    empty session.  With samples, the variance reported is not negative,
    the peak fatigue is the rounded fatigue of one of the samples, no
    sample and not the mean lies above it, the breathing events are those
    of the consecutive pairs, the curvature is not negative, and the
    rhythm is not ["empty"]. *)
Theorem compute_signature_statistics (s : RhythmStore.t) :
  exists sg,
    RhythmStore.compute_signature s = Ok sg
    /\ match RhythmStore.samples s with
       | [] => sg = empty_signature
       | sm0 :: rest =>
           exists v mf pf,
             RhythmStore.tau_h_variance sg = Some v /\ 0 <= v
             /\ RhythmStore.mean_fatigue sg = Some mf
             /\ RhythmStore.peak_fatigue sg = Some pf
             /\ mf <= pf
             /\ (exists sm, In sm (sm0 :: rest)
                            /\ pf = round (RhythmStore.fatigue sm) 4)
             /\ (forall sm, In sm (sm0 :: rest) ->
                            round (RhythmStore.fatigue sm) 4 <= pf)
             /\ RhythmStore.sig_breathing_events sg
                = Some (RhythmStore.scan_pairs sm0 rest)
             /\ 0 <= RhythmStore.curvature_integral sg
             /\ RhythmStore.sig_dominant_rhythm sg <> RhythmStore.empty
       end.
Proof.
  destruct (RhythmStore.samples s) as [| sm0 rest] eqn:E.
  - exists empty_signature. split; [| reflexivity].
    unfold RhythmStore.compute_signature. rewrite E. reflexivity.
  - destruct (compute_signature_value s sm0 rest E) as (tr & _ & Esg).
    eexists. split; [exact Esg |].
    set (fs := map RhythmStore.fatigue (sm0 :: rest)).
    set (peak := max_list (RhythmStore.fatigue sm0) (map RhythmStore.fatigue rest)).
    assert (Hge : Forall (fun y => y <= peak) fs)
      by apply (max_list_ge (map RhythmStore.fatigue rest) (RhythmStore.fatigue sm0)).
    assert (Hin : In peak fs)
      by apply (max_list_in (map RhythmStore.fatigue rest) (RhythmStore.fatigue sm0)).
    do 3 eexists. simpl.
    split; [reflexivity |].
    split; [apply (round_ge 4 0%Z); [simpl; lra | apply variance_nonneg] |].
    split; [reflexivity |]. split; [reflexivity |].
    split.
    { apply round_mono.
      assert (Hm : peak <= mean fs <= peak \/ mean fs <= peak).
      { right.
        assert (Hne : fs <> []) by discriminate.
        pose proof (length_pos_INR fs Hne) as Hlen.
        pose proof (py_sum_upper fs peak Hge) as Hup. unfold mean.
        apply (Rmult_le_reg_r (INR (List.length fs))); [exact Hlen |].
        unfold Rdiv. rewrite Rmult_assoc, Rinv_l by lra. lra. }
      destruct Hm as [[_ H] | H]; exact H. }
    split.
    { unfold fs in Hin. apply in_map_iff in Hin.
      destruct Hin as (sm & Esm & Hsm). exists sm.
      split; [exact Hsm |]. fold peak. rewrite Esm. reflexivity. }
    split.
    { intros sm Hsm. apply round_mono.
      rewrite Forall_forall in Hge. apply Hge. unfold fs.
      apply in_map, Hsm. }
    split; [reflexivity |].
    split; [| apply dominant_not_empty].
    apply (round_ge 4 0%Z); [simpl; lra |].
    apply (total_variation_bounds (map RhythmStore.tau_h (sm0 :: rest))).
Qed.

(** The curvature integral is the total variation of the pulses: it is
    defined for every series, not negative, at least the distance of the
    last pulse from the first, equal to the rise of a series that never
    falls, and zero only for a constant series. *)
Theorem curvature_total_variation (taus : list R) :
  exists c,
    RhythmStore.curvature taus = Ok c
    /\ c = total_variation taus
    /\ 0 <= c
    /\ Rabs (last taus 0 - hd 0 taus) <= c
    /\ (PulseEstimator.nondecreasing taus -> c = last taus 0 - hd 0 taus)
    /\ (c = 0 -> Forall (fun x => x = hd 0 taus) taus).
Proof.
  exists (total_variation taus).
  split; [| split; [reflexivity | apply total_variation_bounds]].
  destruct taus as [| x rest]; [reflexivity | apply curvature_defined].
Qed.

Lemma records_pulses_bounds (outs : list R) (l : list RhythmStore.sample) :
  Forall (fun r => 0.5 <= r <= 0.7311) outs ->
  records_pulses outs l ->
  Forall (fun x => 0.5 <= x <= 0.7311) (map RhythmStore.tau_h l).
Proof.
  intros Houts Hrec. unfold records_pulses in Hrec.
  induction Hrec as [| r sm outs' l' Hr Hrec IH]; [constructor |].
  inversion Houts; subst. rewrite map_cons.
  constructor; [| apply IH; assumption].
  rewrite Hr. split.
  - apply (round_ge 4 5000%Z); [simpl; lra | lra].
  - apply (round_le 4 7311%Z); [simpl; lra | lra].
Qed.

Lemma records_pulses_map (outs : list R) :
  records_pulses outs (map pulse_sample outs).
Proof.
  unfold records_pulses. induction outs as [| r outs IH]; simpl; constructor.
  - reflexivity.
  - exact IH.
Qed.

(** A session whose samples record the pulses of a live session of
    [PulseEstimator.update] calls: the pulses lie between 0.5 and 0.7311,
    so that their variance is at most 0.0134; the classification never
    reaches ["reflective"], which needs a mean below 0.4, nor
    ["reflective_with_burst"], which needs a variance above 0.03. *)
Theorem live_session_rhythm (cs : list (string * NP.ndarray * R))
  (s : RhythmStore.t) :
  PulseEstimator.nondecreasing (map timestamp_of cs) ->
  records_pulses (snd (PulseEstimator.calls PulseEstimator.init cs))
    (RhythmStore.samples s) ->
  exists sg,
    RhythmStore.compute_signature s = Ok sg
    /\ RhythmStore.sig_dominant_rhythm sg <> RhythmStore.reflective
    /\ RhythmStore.sig_dominant_rhythm sg <> RhythmStore.reflective_with_burst
    /\ (forall v, RhythmStore.tau_h_variance sg = Some v -> 0 <= v <= 0.0134)
    /\ (RhythmStore.sig_dominant_rhythm sg = RhythmStore.exploratory ->
        mean (map RhythmStore.tau_h (RhythmStore.samples s)) > 0.65).
Proof.
  intros Hnd Hrec.
  destruct (pulse_session cs PulseEstimator.init [] pulse_ok_init
              (Forall_nil _) Hnd (time_ok_init cs)) as (_ & Houts & _).
  pose proof (records_pulses_bounds _ _ Houts Hrec) as Htaus.
  destruct (RhythmStore.samples s) as [| sm0 rest] eqn:E.
  - exists empty_signature. split.
    { unfold RhythmStore.compute_signature. rewrite E. reflexivity. }
    simpl. repeat split; try discriminate.
  - destruct (compute_signature_value s sm0 rest E) as (tr & _ & Esg).
    eexists. split; [exact Esg |]. simpl RhythmStore.sig_dominant_rhythm.
    simpl RhythmStore.tau_h_variance.
    set (taus := map RhythmStore.tau_h (sm0 :: rest)) in *.
    assert (Hne : taus <> []) by discriminate.
    pose proof (mean_bounds taus _ _ Hne Htaus) as Hmean.
    pose proof (variance_upper taus _ _ Htaus) as Hvar.
    pose proof (variance_nonneg taus) as Hvar0.
    assert (Hv : variance taus <= 0.0134) by lra.
    set (m := mean taus) in *. set (v := variance taus) in *.
    assert (Hcases : forall p,
              RhythmStore.dominant_rhythm m v p tr <> RhythmStore.reflective
              /\ RhythmStore.dominant_rhythm m v p tr
                 <> RhythmStore.reflective_with_burst
              /\ (RhythmStore.dominant_rhythm m v p tr = RhythmStore.exploratory
                  -> m > 0.65)).
    { intros p. unfold RhythmStore.dominant_rhythm.
      replace (lt m 0.4) with false by (symmetry; apply lt_false; lra).
      replace (gt v 0.03) with false by (symmetry; apply gt_false; lra).
      simpl andb. cbv iota.
      destruct (gt m 0.65) eqn:G.
      - apply gt_true in G. repeat split; try discriminate. intros _. exact G.
      - destruct (_ && _); [repeat split; discriminate |].
        destruct (RhythmStore.is_falling tr); repeat split; discriminate. }
    destruct (Hcases (max_list (RhythmStore.fatigue sm0)
                        (map RhythmStore.fatigue rest))) as (H1 & H2 & H3).
    split; [exact H1 |]. split; [exact H2 |]. split; [| exact H3].
    intros v0 Ev. inversion Ev; subst v0. split.
    + apply (round_ge 4 0%Z); [simpl; lra | exact Hvar0].
    + apply (round_le 4 134%Z); [simpl; lra | exact Hv].
Qed.

Lemma live_session_rhythm_witness :
  exists sg,
    RhythmStore.compute_signature
      (RhythmStore.mk "ledgers"
         (map pulse_sample
            (snd (PulseEstimator.calls PulseEstimator.init
                    [("hello"%string, [1; 0], 0)])))
         None None None) = Ok sg
    /\ RhythmStore.sig_dominant_rhythm sg <> RhythmStore.reflective
    /\ RhythmStore.sig_dominant_rhythm sg <> RhythmStore.reflective_with_burst
    /\ (forall v, RhythmStore.tau_h_variance sg = Some v -> 0 <= v <= 0.0134)
    /\ (RhythmStore.sig_dominant_rhythm sg = RhythmStore.exploratory ->
        mean (map RhythmStore.tau_h
                (map pulse_sample
                   (snd (PulseEstimator.calls PulseEstimator.init
                           [("hello"%string, [1; 0], 0)]))))
        > 0.65).
Proof.
  apply (live_session_rhythm [("hello"%string, [1; 0], 0)]
           (RhythmStore.mk "ledgers"
              (map pulse_sample
                 (snd (PulseEstimator.calls PulseEstimator.init
                         [("hello"%string, [1; 0], 0)])))
              None None None)).
  - exact I.
  - apply records_pulses_map.
Defined.

(** ** [RhythmStore.compute_signature]: the fatigue trend *)

Lemma mean_le (l : list R) (c : R) :
  l <> [] -> Forall (fun x => x <= c) l -> mean l <= c.
Proof.
  intros Hne HF. pose proof (length_pos_INR l Hne) as Hlen.
  pose proof (py_sum_upper l c HF) as Hup. unfold mean.
  apply (Rmult_le_reg_r (INR (List.length l))); [exact Hlen |].
  unfold Rdiv. rewrite Rmult_assoc, Rinv_l by lra. lra.
Qed.

Lemma mean_ge (l : list R) (c : R) :
  l <> [] -> Forall (fun x => c <= x) l -> c <= mean l.
Proof.
  intros Hne HF. pose proof (length_pos_INR l Hne) as Hlen.
  pose proof (py_sum_lower l c HF) as Hlo. unfold mean.
  apply (Rmult_le_reg_r (INR (List.length l))); [exact Hlen |].
  unfold Rdiv. rewrite Rmult_assoc, Rinv_l by lra. lra.
Qed.

Lemma nondecreasing_app_le (l1 l2 : list R) :
  PulseEstimator.nondecreasing (l1 ++ l2) ->
  forall x y, In x l1 -> In y l2 -> x <= y.
Proof.
  induction l1 as [| x0 l1 IH]; intros Hnd x y Hx Hy; [destruct Hx |].
  rewrite <- app_comm_cons in Hnd.
  destruct Hx as [-> | Hx].
  - pose proof (nondecreasing_head _ _ Hnd) as Hh.
    rewrite Forall_forall in Hh. apply Hh, in_or_app. right. exact Hy.
  - apply IH; [exact (nondecreasing_tail _ _ Hnd) | exact Hx | exact Hy].
Qed.

(** When no value of [l1] is above a value of [l2], the mean of [l1] is
    not above the mean of [l2]. *)
Lemma mean_halves (l1 l2 : list R) :
  l1 <> [] -> l2 <> [] ->
  (forall x y, In x l1 -> In y l2 -> x <= y) ->
  mean l1 <= mean l2.
Proof.
  intros H1 H2 Hle. apply mean_ge; [exact H2 |].
  apply Forall_forall. intros y Hy.
  apply mean_le; [exact H1 |].
  apply Forall_forall. intros x Hx. apply Hle; assumption.
Qed.

(** The two halves [fatigue_trend] compares, when it compares. *)
Lemma fatigue_trend_value (l : list R) :
  let mid := Nat.div (List.length l) 2 in
  (2 <= List.length l)%nat ->
  firstn mid l <> [] /\ skipn mid l <> []
  /\ RhythmStore.fatigue_trend l
     = Ok (if gt (mean (skipn mid l)) (mean (firstn mid l) + 0.05)
           then RhythmStore.rising
           else if gt (mean (firstn mid l)) (mean (skipn mid l) + 0.05)
                then RhythmStore.falling
                else RhythmStore.stable).
Proof.
  intros mid Hlen.
  assert (Hmid : (0 < mid < List.length l)%nat).
  { unfold mid. split.
    - apply Nat.div_str_pos. lia.
    - apply Nat.div_lt; lia. }
  assert (L1 : List.length (firstn mid l) = mid)
    by (apply firstn_length_le; lia).
  assert (L2 : List.length (skipn mid l) = (List.length l - mid)%nat)
    by apply length_skipn.
  split; [intros E; rewrite E in L1; simpl in L1; lia |].
  split; [intros E; rewrite E in L2; simpl in L2; lia |].
  unfold RhythmStore.fatigue_trend. cbv zeta. fold mid.
  destruct (Nat.ltb_spec 0 mid) as [_ | H]; [| lia].
  destruct (Nat.ltb_spec mid (List.length l)) as [_ | H]; [| lia].
  simpl andb. cbv iota.
  rewrite truediv_some by (apply lt_0_INR; lia).
  rewrite truediv_some by (apply lt_0_INR; lia).
  unfold bind, mean. rewrite L1, L2.
  destruct (gt _ _); [reflexivity |].
  destruct (gt _ _); reflexivity.
Qed.

(** The fatigue trend is defined for every series; it is ["stable"] for
    fewer than two values, never ["falling"] for a series that never
    falls, and never ["rising"] for a series that never rises. *)
Theorem fatigue_trend_monotone (l : list R) :
  exists tr,
    RhythmStore.fatigue_trend l = Ok tr
    /\ ((List.length l < 2)%nat -> tr = RhythmStore.stable)
    /\ (PulseEstimator.nondecreasing l -> tr <> RhythmStore.falling)
    /\ (PulseEstimator.nondecreasing (rev l) -> tr <> RhythmStore.rising).
Proof.
  destruct (Nat.lt_ge_cases (List.length l) 2) as [Hs | Hl].
  - exists RhythmStore.stable. split; [| repeat split; discriminate].
    unfold RhythmStore.fatigue_trend. cbv zeta.
    destruct (Nat.ltb_spec 0 (Nat.div (List.length l) 2)) as [H | H];
      [| reflexivity].
    exfalso. destruct l as [| a [| b l]]; simpl in *; try lia.
  - destruct (fatigue_trend_value l Hl) as (N1 & N2 & E).
    set (mid := Nat.div (List.length l) 2) in *.
    set (l1 := firstn mid l) in *. set (l2 := skipn mid l) in *.
    assert (Happ : l = l1 ++ l2) by (symmetry; apply firstn_skipn).
    eexists. split; [exact E |].
    split; [intros; lia |].
    split.
    + intros Hnd. rewrite Happ in Hnd.
      pose proof (mean_halves l1 l2 N1 N2 (nondecreasing_app_le _ _ Hnd)) as Hm.
      destruct (gt (mean l2) _); [discriminate |].
      destruct (gt (mean l1) _) eqn:G; [| discriminate].
      apply gt_true in G. lra.
    + intros Hnd. rewrite Happ, rev_app_distr in Hnd.
      assert (Hle : forall x y, In x l2 -> In y l1 -> x <= y).
      { intros x y Hx Hy.
        apply (nondecreasing_app_le _ _ Hnd); apply in_rev;
          rewrite rev_involutive; assumption. }
      pose proof (mean_halves l2 l1 N2 N1 Hle) as Hm.
      destruct (gt (mean l2) _) eqn:G; [| destruct (gt (mean l1) _); discriminate].
      apply gt_true in G. lra.
Qed.

(** ** [PulseEstimator]: the thresholds of a live session *)

Lemma modulation_bounds (s : PulseEstimator.t) :
  pulse_ok s -> 0.90756 <= modulation s <= 1.
Proof.
  intros [_ [H0 H1]]. pose proof sigmoid_1_upper. unfold modulation. lra.
Qed.

Lemma thresholds_of_modulation (s : PulseEstimator.t) :
  theta_soft_of s = round (Rmin 0.95 (THETA_SOFT * modulation s)) 4
  /\ theta_hard_of s = round (Rmin 0.98 (THETA_HARD * modulation s)) 4
  /\ pod_high_of s = round (Rmin 0.98 (POD_THETA_HIGH * modulation s)) 4
  /\ pod_soft_of s = round (Rmax 0.30 (POD_THETA_SOFT * (2 - modulation s))) 4.
Proof. repeat split. Qed.

Lemma status_of_severity (f s1 h1 s2 h2 : R) :
  s2 <= s1 -> h2 <= h1 ->
  (severity (status_of f s1 h1) <= severity (status_of f s2 h2))%nat.
Proof.
  intros Hs Hh. unfold status_of.
  destruct (gt f h1) eqn:G1.
  - apply gt_true in G1.
    replace (gt f h2) with true by (symmetry; apply gt_true; lra).
    simpl. lia.
  - destruct (gt f s1) eqn:G2.
    + apply gt_true in G2.
      destruct (gt f h2); [simpl; lia |].
      replace (gt f s2) with true by (symmetry; apply gt_true; lra).
      simpl. lia.
    + simpl. lia.
Qed.

(** In a live session, where the pulse never leaves [0.5, sigmoid(1)],
    the modulated thresholds never leave the side of the defaults on
    which a quick pulse puts them: the soft and hard fatigue thresholds
    and the high pod threshold are at most 0.68, 0.84 and 0.85, the soft
    pod threshold is at least 0.5; the caps 0.95, 0.98 and 0.30 are never
    reached; soft stays below hard; and the status [speak] derives from a
    score is never milder than the one the fixed thresholds give it. *)
Theorem live_thresholds (cs : list (string * NP.ndarray * R)) :
  PulseEstimator.nondecreasing (map timestamp_of cs) ->
  let s := fst (PulseEstimator.calls PulseEstimator.init cs) in
  0.6171 <= theta_soft_of s <= 0.68
  /\ 0.7623 <= theta_hard_of s <= 0.84
  /\ 0.7714 <= pod_high_of s <= 0.85
  /\ 0.5 <= pod_soft_of s <= 0.5463
  /\ theta_soft_of s < theta_hard_of s
  /\ forall f : R,
       (severity (status_of f THETA_SOFT THETA_HARD)
        <= severity (status_of f (theta_soft_of s) (theta_hard_of s)))%nat.
Proof.
  intros Hnd s.
  destruct (pulse_session cs PulseEstimator.init [] pulse_ok_init
              (Forall_nil _) Hnd (time_ok_init cs)) as (Hs & _ & _).
  fold (PulseEstimator.calls PulseEstimator.init cs) in Hs. fold s in Hs.
  pose proof (modulation_bounds s Hs) as Hmd.
  destruct (thresholds_of_modulation s) as (E1 & E2 & E3 & E4).
  set (md := modulation s) in *. clearbody md.
  unfold THETA_SOFT, THETA_HARD, POD_THETA_HIGH, POD_THETA_SOFT in *.
  assert (M1 : Rmin 0.95 (0.68 * md) = 0.68 * md) by (apply Rmin_right; lra).
  assert (M2 : Rmin 0.98 (0.84 * md) = 0.84 * md) by (apply Rmin_right; lra).
  assert (M3 : Rmin 0.98 (0.85 * md) = 0.85 * md) by (apply Rmin_right; lra).
  assert (M4 : Rmax 0.30 (0.50 * (2 - md)) = 0.50 * (2 - md))
    by (apply Rmax_right; lra).
  rewrite M1 in E1. rewrite M2 in E2. rewrite M3 in E3. rewrite M4 in E4.
  assert (B1 : 0.6171 <= theta_soft_of s <= 0.68).
  { rewrite E1. split.
    - apply (round_ge 4 6171%Z); [simpl; lra | lra].
    - apply (round_le 4 6800%Z); [simpl; lra | lra]. }
  assert (B2 : 0.7623 <= theta_hard_of s <= 0.84).
  { rewrite E2. split.
    - apply (round_ge 4 7623%Z); [simpl; lra | lra].
    - apply (round_le 4 8400%Z); [simpl; lra | lra]. }
  assert (B3 : 0.7714 <= pod_high_of s <= 0.85).
  { rewrite E3. split.
    - apply (round_ge 4 7714%Z); [simpl; lra | lra].
    - apply (round_le 4 8500%Z); [simpl; lra | lra]. }
  assert (B4 : 0.5 <= pod_soft_of s <= 0.5463).
  { rewrite E4. split.
    - apply (round_ge 4 5000%Z); [simpl; lra | lra].
    - apply (round_le 4 5463%Z); [simpl; lra | lra]. }
  split; [exact B1 |]. split; [exact B2 |]. split; [exact B3 |].
  split; [exact B4 |]. split; [lra |].
  intros f. apply status_of_severity; lra.
Qed.

Lemma live_thresholds_witness :
  let s := fst (PulseEstimator.calls PulseEstimator.init
                  [("hello"%string, [1; 0], 0); ("again"%string, [0; 1], 2)]) in
  0.6171 <= theta_soft_of s <= 0.68
  /\ 0.7623 <= theta_hard_of s <= 0.84
  /\ 0.7714 <= pod_high_of s <= 0.85
  /\ 0.5 <= pod_soft_of s <= 0.5463
  /\ theta_soft_of s < theta_hard_of s
  /\ forall f : R,
       (severity (status_of f THETA_SOFT THETA_HARD)
        <= severity (status_of f (theta_soft_of s) (theta_hard_of s)))%nat.
Proof.
  apply (live_thresholds
           [("hello"%string, [1; 0], 0); ("again"%string, [0; 1], 2)]).
  simpl. unfold timestamp_of. simpl. split; [lra | exact I].
Defined.

(** ** [PulseEstimator.update]: monotone in the message and the latency *)

Lemma phi_L_antitone (s : PulseEstimator.t) (t1 t2 : R) :
  t2 <= t1 -> PulseEstimator.phi_L s t1 <= PulseEstimator.phi_L s t2.
Proof.
  intros H. unfold PulseEstimator.phi_L.
  destruct (PulseEstimator.last_time s) as [l |]; [| lra].
  cbv zeta. apply exp_le. lra.
Qed.

Lemma M_t_mono (msg1 msg2 : string) :
  (String.length msg1 <= String.length msg2)%nat ->
  PulseEstimator.M_t msg1 <= PulseEstimator.M_t msg2.
Proof.
  intros H. unfold PulseEstimator.M_t.
  apply le_INR in H.
  apply Rle_min_compat_r. lra.
Qed.

(** With the weights of the constructor, the pulse is monotone in its
    two scalar inputs: of two updates of one state with one embedding,
    the one with the message at least as long and the timestamp at least
    as early stores and returns a pulse at least as high, and leaves
    fatigue thresholds at most as high. *)
Theorem pulse_update_monotone (s s1 s2 : PulseEstimator.t)
  (msg1 msg2 : string) (emb : NP.ndarray) (t1 t2 r1 r2 : R) :
  pulse_weights s = pulse_weights PulseEstimator.init ->
  (String.length msg1 <= String.length msg2)%nat ->
  t2 <= t1 ->
  PulseEstimator.update s msg1 emb t1 = Ok (s1, r1) ->
  PulseEstimator.update s msg2 emb t2 = Ok (s2, r2) ->
  PulseEstimator.tau s1 <= PulseEstimator.tau s2
  /\ r1 <= r2
  /\ theta_soft_of s2 <= theta_soft_of s1
  /\ theta_hard_of s2 <= theta_hard_of s1.
Proof.
  intros Hw Hlen Ht H1 H2.
  unfold PulseEstimator.update in H1, H2.
  destruct (PulseEstimator.N_t s emb) as [n |] eqn:En; [| discriminate].
  destruct (PulseEstimator.D_t s emb) as [d |] eqn:Ed; [| discriminate].
  unfold bind in H1, H2. rewrite sigmoid_defined in H1, H2.
  pose proof (phi_L_antitone s t1 t2 Ht) as Hphi.
  pose proof (M_t_mono msg1 msg2 Hlen) as Hm.
  unfold pulse_weights in Hw. simpl in Hw.
  injection Hw as W1 W2 W3 W4 W5.
  assert (Hz : PulseEstimator.z_of s (PulseEstimator.phi_L s t1)
                 (PulseEstimator.M_t msg1) n d
               <= PulseEstimator.z_of s (PulseEstimator.phi_L s t2)
                    (PulseEstimator.M_t msg2) n d).
  { unfold PulseEstimator.z_of. rewrite W1, W2. lra. }
  apply sigmoid_mono in Hz.
  set (raw1 := PulseEstimator.sigmoid _) in *.
  set (raw2 := PulseEstimator.sigmoid _) in Hz, H2.
  inversion H1; subst s1 r1; clear H1.
  inversion H2; subst s2 r2; clear H2.
  assert (Htau : PulseEstimator.smoothing s * raw1
                 + (1 - PulseEstimator.smoothing s) * PulseEstimator.tau s
                 <= PulseEstimator.smoothing s * raw2
                    + (1 - PulseEstimator.smoothing s) * PulseEstimator.tau s).
  { rewrite W5. lra. }
  split; [exact Htau |].
  split; [apply round_mono, Htau |].
  unfold theta_soft_of, theta_hard_of, PulseEstimator.modulate_thresholds.
  cbv zeta. simpl fst. simpl snd. simpl PulseEstimator.tau.
  unfold THETA_SOFT, THETA_HARD.
  split; apply round_mono, Rmin_mono_r; lra.
Qed.

Lemma update_init_value (msg : string) (emb : NP.ndarray) (t : R) :
  exists s' r, PulseEstimator.update PulseEstimator.init msg emb t = Ok (s', r).
Proof.
  unfold PulseEstimator.update.
  change (PulseEstimator.N_t PulseEstimator.init emb) with (Ok 0.5).
  change (PulseEstimator.D_t PulseEstimator.init emb) with (Ok 0.5).
  unfold bind. rewrite sigmoid_defined.
  do 2 eexists. reflexivity.
Qed.

Lemma pulse_update_monotone_witness :
  exists s1 s2 r1 r2,
    PulseEstimator.update PulseEstimator.init "hi" [1; 0] 3 = Ok (s1, r1)
    /\ PulseEstimator.update PulseEstimator.init "hello" [1; 0] 1 = Ok (s2, r2)
    /\ r1 <= r2.
Proof.
  destruct (update_init_value "hi" [1; 0] 3) as (s1 & r1 & E1).
  destruct (update_init_value "hello" [1; 0] 1) as (s2 & r2 & E2).
  exists s1, s2, r1, r2. split; [exact E1 |]. split; [exact E2 |].
  refine (proj1 (proj2 (pulse_update_monotone PulseEstimator.init s1 s2
                          "hi" "hello" [1; 0] 3 1 r1 r2 eq_refl _ _ E1 E2))).
  - simpl. lia.
  - lra.
Defined.

(** ** [Fatigue.score]: the three components *)

Lemma dp_range (d : nat) (s : Fatigue.t) :
  Forall (fun x => List.length x = d) (Fatigue.v s) ->
  exists dp, Fatigue._dp s = Ok dp /\ -1 <= dp <= 1.
Proof.
  intros HF. unfold Fatigue._dp, bind.
  destruct (Nat.ltb_spec (List.length (Fatigue.v s)) 2) as [L | L];
    [exists 0; split; [reflexivity | lra] |].
  destruct (neg_index_ok (Fatigue.v s) 2) as (a & Ea & Ia); [lia |].
  destruct (neg_index_ok (Fatigue.v s) 1) as (b & Eb & Ib); [lia |].
  rewrite Ea, Eb. cbv zeta.
  rewrite Forall_forall in HF.
  pose proof (HF a Ia) as La. pose proof (HF b Ib) as Lb.
  destruct (gt (NP.norm a) 0) eqn:Ga; simpl andb;
    [| exists 0; split; [reflexivity | lra]].
  destruct (gt (NP.norm b) 0) eqn:Gb;
    [| exists 0; split; [reflexivity | lra]].
  apply gt_true in Ga, Gb.
  rewrite dot_same_length by congruence.
  rewrite truediv_some by (apply Rmult_lt_0_compat; lra).
  eexists; split; [reflexivity |].
  fold (inner a b).
  pose proof (inner_abs_le a b) as Habs. apply Rabs_bound in Habs.
  assert (Hpos : 0 < NP.norm a * NP.norm b) by (apply Rmult_lt_0_compat; lra).
  split.
  - apply (Rmult_le_reg_r (NP.norm a * NP.norm b)); [exact Hpos |].
    unfold Rdiv. rewrite Rmult_assoc, Rinv_l by lra. lra.
  - apply (Rmult_le_reg_r (NP.norm a * NP.norm b)); [exact Hpos |].
    unfold Rdiv. rewrite Rmult_assoc, Rinv_l by lra. lra.
Qed.

(** The value of [_cc] on a history of three velocities or more. *)
Lemma cc_value (d : nat) (s : Fatigue.t) :
  Forall (fun x => List.length x = d) (Fatigue.v s) ->
  (3 <= List.length (Fatigue.v s))%nat ->
  exists a b c,
    neg_index (Fatigue.v s) 3 = Ok a
    /\ neg_index (Fatigue.v s) 2 = Ok b
    /\ neg_index (Fatigue.v s) 1 = Ok c
    /\ let ba := NP.zip_with Rminus b a in
       let dd := NP.zip_with Rminus (NP.zip_with Rminus c b) ba in
       Fatigue._cc s
       = Ok (if gt (NP.norm ba ^ 3) 0
             then 1 / (NP.norm dd / NP.norm ba ^ 3 + 1e-8)
             else 0).
Proof.
  intros HF L. unfold Fatigue._cc, bind.
  destruct (Nat.ltb_spec (List.length (Fatigue.v s)) 3) as [L' | _]; [lia |].
  destruct (neg_index_ok (Fatigue.v s) 3) as (a & Ea & Ia); [lia |].
  destruct (neg_index_ok (Fatigue.v s) 2) as (b & Eb & Ib); [lia |].
  destruct (neg_index_ok (Fatigue.v s) 1) as (c & Ec & Ic); [lia |].
  exists a, b, c. rewrite Ea, Eb, Ec.
  split; [reflexivity |]. split; [reflexivity |]. split; [reflexivity |].
  rewrite Forall_forall in HF.
  pose proof (HF a Ia) as La. pose proof (HF b Ib) as Lb.
  pose proof (HF c Ic) as Lc.
  rewrite (sub_same_length c b) by congruence.
  rewrite (sub_same_length b a) by congruence.
  rewrite sub_same_length by (rewrite !zip_with_length; congruence).
  cbv zeta.
  set (ba := NP.zip_with Rminus b a).
  set (dd := NP.zip_with Rminus _ ba).
  pose proof (norm_nonneg ba) as Nba. pose proof (norm_nonneg dd) as Ndd.
  destruct (gt (NP.norm ba ^ 3) 0) eqn:G; [| reflexivity].
  apply gt_true in G.
  rewrite truediv_some by lra.
  assert (0 <= NP.norm dd / NP.norm ba ^ 3).
  { apply Rmult_le_pos; [exact Ndd | left; apply Rinv_0_lt_compat; lra]. }
  rewrite truediv_some by lra. reflexivity.
Qed.

Lemma cc_range (d : nat) (s : Fatigue.t) :
  Forall (fun x => List.length x = d) (Fatigue.v s) ->
  exists cc, Fatigue._cc s = Ok cc /\ 0 <= cc <= 1e8.
Proof.
  intros HF.
  destruct (Nat.lt_ge_cases (List.length (Fatigue.v s)) 3) as [L | L].
  - exists 0. split; [| lra]. unfold Fatigue._cc.
    destruct (Nat.ltb_spec (List.length (Fatigue.v s)) 3); [reflexivity | lia].
  - destruct (cc_value d s HF L) as (a & b & c & _ & _ & _ & E).
    cbv zeta in E. rewrite E. eexists. split; [reflexivity |].
    set (ba := NP.zip_with Rminus b a).
    set (dd := NP.zip_with Rminus _ ba).
    pose proof (norm_nonneg dd) as Ndd.
    destruct (gt (NP.norm ba ^ 3) 0) eqn:G; [| lra].
    apply gt_true in G.
    assert (Hq : 0 <= NP.norm dd / NP.norm ba ^ 3).
    { apply Rmult_le_pos; [exact Ndd | left; apply Rinv_0_lt_compat; lra]. }
    set (q := NP.norm dd / NP.norm ba ^ 3) in *. clearbody q.
    split.
    + apply Rmult_le_pos; [lra | left; apply Rinv_0_lt_compat; lra].
    + apply (Rmult_le_reg_r (q + 1e-8)); [lra |].
      unfold Rdiv. rewrite Rmult_assoc, Rinv_l by lra. lra.
Qed.

Lemma status_of_cases (f : R) :
  (status_of f THETA_SOFT THETA_HARD = hard /\ f > 0.84)
  \/ (status_of f THETA_SOFT THETA_HARD = soft /\ 0.68 < f <= 0.84)
  \/ (status_of f THETA_SOFT THETA_HARD = fresh /\ f <= 0.68).
Proof.
  unfold status_of, THETA_SOFT, THETA_HARD.
  destruct (gt f 0.84) eqn:G1.
  - apply gt_true in G1. left. split; [reflexivity | exact G1].
  - apply gt_false in G1. destruct (gt f 0.68) eqn:G2.
    + apply gt_true in G2. right; left. split; [reflexivity | lra].
    + apply gt_false in G2. right; right. split; [reflexivity | exact G2].
Qed.

(** The three components of the fatigue, with singular values that are
    not negative and velocities of one dimension: the directional
    persistence lies in [-1, 1], the spectral concentration in [0, 1],
    the curvature term in [0, 1e8].  The status agrees with the score
    returned: ["hard"] from 0.84 up, ["soft"] between 0.68 and 0.84,
    ["fresh"] up to 0.68.  The first two components weigh 0.7 together:
    ["hard"] needs a curvature term above 7/15, and a curvature term of
    4.5 or more gives the score 1 and ["hard"] whatever the others. *)
Theorem score_components
  (svd : list NP.ndarray -> option (list R)) (d : nat) (s : Fatigue.t) :
  Fatigue.svd_nonneg svd ->
  Forall (fun x => List.length x = d) (Fatigue.v s) ->
  exists f comps st dp sc cc,
    Fatigue.score svd s = Ok (f, comps, st)
    /\ Fatigue._dp s = Ok dp /\ Fatigue._sc svd s = Ok sc
    /\ Fatigue._cc s = Ok cc
    /\ -1 <= dp <= 1 /\ 0 <= sc <= 1 /\ 0 <= cc <= 1e8
    /\ ((List.length (Fatigue.e s) < 2)%nat ->
        f = 0 /\ comps = [] /\ st = fresh)
    /\ ((2 <= List.length (Fatigue.e s))%nat ->
        f = round (Rmax 0 (Rmin 1 (0.35 * dp + 0.35 * sc + 0.3 * cc))) 4
        /\ comps = [("dp"%string, round dp 4); ("sc"%string, round sc 4);
                    ("cc"%string, round cc 4)]
        /\ (4.5 <= cc -> f = 1 /\ st = hard))
    /\ (st = hard -> 0.84 <= f /\ cc > 7 / 15)
    /\ (st = soft -> 0.68 <= f <= 0.84)
    /\ (st = fresh -> f <= 0.68).
Proof.
  intros Hsvd HF.
  destruct (dp_range d s HF) as (dp & Edp & Hdp).
  destruct (sc_share svd s Hsvd) as (sc & Esc & Hsc).
  destruct (cc_range d s HF) as (cc & Ecc & Hcc).
  unfold Fatigue.score, bind. rewrite Edp, Esc, Ecc.
  destruct (Nat.ltb_spec (List.length (Fatigue.e s)) 2) as [L | L].
  - exists 0, [], fresh, dp, sc, cc.
    split; [reflexivity |].
    split; [reflexivity |]. split; [reflexivity |]. split; [reflexivity |].
    split; [exact Hdp |]. split; [exact Hsc |]. split; [exact Hcc |].
    split; [intros _; repeat split |].
    split; [intros; lia |].
    split; [discriminate |]. split; [discriminate |]. intros _. lra.
  - cbv zeta.
    set (x := 0.35 * dp + 0.35 * sc + 0.3 * cc).
    set (f := Rmax 0 (Rmin 1 x)).
    exists (round f 4),
      [("dp"%string, round dp 4); ("sc"%string, round sc 4);
       ("cc"%string, round cc 4)],
      (status_of f THETA_SOFT THETA_HARD), dp, sc, cc.
    split; [reflexivity |].
    split; [reflexivity |]. split; [reflexivity |]. split; [reflexivity |].
    split; [exact Hdp |]. split; [exact Hsc |]. split; [exact Hcc |].
    split; [intros; lia |].
    assert (Hf : f = Rmax 0 (Rmin 1 x)) by reflexivity.
    assert (Hfx : (x <= 0 /\ f = 0) \/ (0 <= x <= 1 /\ f = x) \/ (1 <= x /\ f = 1)).
    { rewrite Hf. unfold Rmax, Rmin.
      destruct (Rle_dec 1 x); destruct (Rle_dec 0 _); lra. }
    clearbody f.
    destruct (status_of_cases f) as [(Est & Hst) | [(Est & Hst) | (Est & Hst)]];
      rewrite Est.
    + split.
      { intros _. split; [rewrite Hf; reflexivity |]. split; [reflexivity |].
        intros H45. split; [| reflexivity].
        apply (round_value 4 10000%Z); [| simpl; lra].
        unfold x in Hfx. lra. }
      split.
      { intros _. split.
        - apply (round_ge 4 8400%Z); [simpl; lra | lra].
        - unfold x in Hfx. lra. }
      split; discriminate.
    + split.
      { intros _. split; [rewrite Hf; reflexivity |]. split; [reflexivity |].
        intros H45. exfalso. unfold x in Hfx. lra. }
      split; [discriminate |].
      split; [| discriminate].
      intros _. split.
      * apply (round_ge 4 6800%Z); [simpl; lra | lra].
      * apply (round_le 4 8400%Z); [simpl; lra | lra].
    + split.
      { intros _. split; [rewrite Hf; reflexivity |]. split; [reflexivity |].
        intros H45. exfalso. unfold x in Hfx. lra. }
      split; [discriminate |]. split; [discriminate |].
      intros _. apply (round_le 4 6800%Z); [simpl; lra | lra].
Qed.

Lemma score_components_witness :
  exists f comps st dp sc cc,
    Fatigue.score (fun _ => None)
      (Fatigue.mk 5 [[0; 0]; [1; 0]; [3; 0]] [[1; 0]; [2; 0]])
    = Ok (f, comps, st)
    /\ Fatigue._dp (Fatigue.mk 5 [[0; 0]; [1; 0]; [3; 0]] [[1; 0]; [2; 0]]) = Ok dp
    /\ Fatigue._sc (fun _ => None)
         (Fatigue.mk 5 [[0; 0]; [1; 0]; [3; 0]] [[1; 0]; [2; 0]]) = Ok sc
    /\ Fatigue._cc (Fatigue.mk 5 [[0; 0]; [1; 0]; [3; 0]] [[1; 0]; [2; 0]]) = Ok cc
    /\ -1 <= dp <= 1 /\ 0 <= sc <= 1 /\ 0 <= cc <= 1e8
    /\ (st = hard -> 0.84 <= f /\ cc > 7 / 15).
Proof.
  destruct (score_components (fun _ => None) 2
              (Fatigue.mk 5 [[0; 0]; [1; 0]; [3; 0]] [[1; 0]; [2; 0]]))
    as (f & comps & st & dp & sc & cc & H1 & H2 & H3 & H4 & H5 & H6 & H7
        & _ & _ & H8 & _).
  - intros rows sv H. discriminate H.
  - simpl. repeat constructor.
  - exists f, comps, st, dp, sc, cc. repeat (split; [assumption |]). exact H8.
Defined.

(** Velocities that grow by a constant step saturate the curvature term:
    when the two last differences of velocities coincide and are not
    zero, [_cc] divides by [1e-8] alone and returns [1e8], and the score
    is 1 with status ["hard"], whatever the other two components. *)
Theorem constant_acceleration_saturates
  (svd : list NP.ndarray -> option (list R)) (d : nat) (s : Fatigue.t)
  (a b c : NP.ndarray) :
  Fatigue.svd_nonneg svd ->
  Forall (fun x => List.length x = d) (Fatigue.v s) ->
  (2 <= List.length (Fatigue.e s))%nat ->
  neg_index (Fatigue.v s) 3 = Ok a ->
  neg_index (Fatigue.v s) 2 = Ok b ->
  neg_index (Fatigue.v s) 1 = Ok c ->
  0 < NP.norm (NP.zip_with Rminus b a) ->
  NP.norm (NP.zip_with Rminus (NP.zip_with Rminus c b) (NP.zip_with Rminus b a))
  = 0 ->
  Fatigue._cc s = Ok 1e8
  /\ exists comps, Fatigue.score svd s = Ok (1, comps, hard).
Proof.
  intros Hsvd HF Le Ea Eb Ec Hba Hdd.
  assert (Lv : (3 <= List.length (Fatigue.v s))%nat).
  { unfold neg_index in Ea.
    destruct (nth_error (rev (Fatigue.v s)) (3 - 1)) eqn:E; [| discriminate].
    assert (H : nth_error (rev (Fatigue.v s)) (3 - 1) <> None) by congruence.
    apply nth_error_Some in H. rewrite length_rev in H. lia. }
  destruct (cc_value d s HF Lv) as (a' & b' & c' & Ea' & Eb' & Ec' & E).
  rewrite Ea in Ea'. rewrite Eb in Eb'. rewrite Ec in Ec'.
  inversion Ea'; inversion Eb'; inversion Ec'; subst a' b' c'.
  cbv zeta in E. rewrite Hdd in E.
  assert (Hpow : NP.norm (NP.zip_with Rminus b a) ^ 3 > 0)
    by (apply Rlt_gt, pow_lt, Hba).
  replace (gt (NP.norm (NP.zip_with Rminus b a) ^ 3) 0) with true in E
    by (symmetry; apply gt_true; exact Hpow).
  assert (Ecc : Fatigue._cc s = Ok 1e8).
  { rewrite E. f_equal. unfold Rdiv. rewrite Rmult_0_l, Rplus_0_l. lra. }
  split; [exact Ecc |].
  destruct (dp_range d s HF) as (dp & Edp & Hdp).
  destruct (sc_share svd s Hsvd) as (sc & Esc & Hsc).
  unfold Fatigue.score, bind. rewrite Edp, Esc, Ecc.
  destruct (Nat.ltb_spec (List.length (Fatigue.e s)) 2) as [L | _]; [lia |].
  cbv zeta.
  assert (Hf : Rmax 0 (Rmin 1 (0.35 * dp + 0.35 * sc + 0.3 * 1e8)) = 1).
  { rewrite Rmin_left by lra. apply Rmax_right. lra. }
  rewrite Hf.
  assert (Hr : round 1 4 = 1) by (apply (round_decimal 4 10000%Z); simpl; lra).
  rewrite Hr.
  assert (Hst : status_of 1 THETA_SOFT THETA_HARD = hard).
  { unfold status_of, THETA_HARD.
    replace (gt 1 0.84) with true by (symmetry; apply gt_true; lra).
    reflexivity. }
  rewrite Hst. eexists. reflexivity.
Qed.

Lemma norm_example_zero : NP.norm [3 - 2 - (2 - 1); 0 - 0 - (0 - 0)] = 0.
Proof.
  unfold NP.norm. simpl.
  replace ((3 - 2 - (2 - 1)) * (3 - 2 - (2 - 1))
           + ((0 - 0 - (0 - 0)) * (0 - 0 - (0 - 0)) + 0)) with 0 by lra.
  apply sqrt_0.
Qed.

Lemma norm_example_one : NP.norm [2 - 1; 0 - 0] = 1.
Proof.
  unfold NP.norm. simpl.
  replace ((2 - 1) * (2 - 1) + ((0 - 0) * (0 - 0) + 0)) with 1 by lra.
  apply sqrt_1.
Qed.

Lemma constant_acceleration_saturates_witness :
  Fatigue._cc
    (Fatigue.mk 5 [[0; 0]; [1; 0]; [3; 0]; [6; 0]] [[1; 0]; [2; 0]; [3; 0]])
  = Ok 1e8
  /\ exists comps,
       Fatigue.score (fun _ => None)
         (Fatigue.mk 5 [[0; 0]; [1; 0]; [3; 0]; [6; 0]] [[1; 0]; [2; 0]; [3; 0]])
       = Ok (1, comps, hard).
Proof.
  apply (constant_acceleration_saturates (fun _ => None) 2
           (Fatigue.mk 5 [[0; 0]; [1; 0]; [3; 0]; [6; 0]] [[1; 0]; [2; 0]; [3; 0]])
           [1; 0] [2; 0] [3; 0]).
  - intros rows sv H. discriminate H.
  - simpl. repeat constructor.
  - simpl. lia.
  - reflexivity.
  - reflexivity.
  - reflexivity.
  - change (0 < NP.norm [2 - 1; 0 - 0]). rewrite norm_example_one. lra.
  - exact norm_example_zero.
Defined.

(** ** The parts of a turn *)

Lemma fatigue_update_defined (d : nat) (s : Fatigue.t) (x : NP.ndarray) :
  Forall (fun y => List.length y = d) (Fatigue.e s) ->
  Forall (fun y => List.length y = d) (Fatigue.v s) ->
  List.length x = d ->
  exists s',
    Fatigue.update s x = Ok s'
    /\ Forall (fun y => List.length y = d) (Fatigue.e s')
    /\ Forall (fun y => List.length y = d) (Fatigue.v s').
Proof.
  intros He Hv Hx.
  assert (Hex : exists s', Fatigue.update s x = Ok s').
  { unfold Fatigue.update.
    destruct (Fatigue.e s) as [| y l] eqn:Ee.
    - unfold bind. eexists; reflexivity.
    - destruct (neg_index_ok (y :: l) 1) as (a & Ea & Ia); [simpl; lia |].
      rewrite Ea. rewrite Forall_forall in He.
      unfold bind at 2. rewrite sub_same_length by (rewrite (He a Ia); exact Hx).
      unfold bind. eexists; reflexivity. }
  destruct Hex as [s' E]. exists s'. split; [exact E |].
  exact (update_dims d s s' x He Hv Hx E).
Qed.

Lemma direction_update_defined (d : nat) (s : DirectionTracker.t)
  (x : NP.ndarray) (tau_h : R) :
  match DirectionTracker.tau_dir s with
  | Some dir => List.length dir = d
  | None => True
  end ->
  List.length x = d ->
  exists s' dir',
    DirectionTracker.update s x tau_h = Ok s'
    /\ DirectionTracker.tau_dir s' = Some dir'
    /\ List.length dir' = d
    /\ (NP.norm dir' = 1 \/ NP.norm dir' = 0).
Proof.
  intros Hd Hx.
  assert (Hnorm : forall v : NP.ndarray, List.length v = d ->
            exists s' dir',
              DirectionTracker.normalized s v = Ok s'
              /\ DirectionTracker.tau_dir s' = Some dir'
              /\ List.length dir' = d).
  { intros v Hv.
    destruct (normalized_spec s v) as (d' & E & Hpos & Hzero).
    rewrite E. do 2 eexists. split; [reflexivity |].
    split; [reflexivity |].
    destruct (Req_dec (NP.norm v) 0) as [Z | NZ].
    - rewrite (Hzero Z). exact Hv.
    - pose proof (norm_nonneg v).
      destruct Hpos as [-> _]; [lra |]. rewrite length_map. exact Hv. }
  assert (Hex : exists s' dir',
            DirectionTracker.update s x tau_h = Ok s'
            /\ DirectionTracker.tau_dir s' = Some dir'
            /\ List.length dir' = d).
  { unfold DirectionTracker.update.
    destruct (DirectionTracker.tau_dir s) as [dir |].
    - cbv zeta.
      rewrite add_same_length by (rewrite !scale_length; congruence).
      unfold bind. apply Hnorm.
      rewrite zip_with_length by (rewrite !scale_length; congruence).
      rewrite scale_length. exact Hd.
    - apply Hnorm, Hx. }
  destruct Hex as (s' & dir' & E & Ed & Hl).
  exists s', dir'. split; [exact E |]. split; [exact Ed |]. split; [exact Hl |].
  destruct (update_unit_or_zero s s' x tau_h E) as (d0 & Ed0 & Hu).
  rewrite Ed in Ed0. inversion Ed0; subst d0. exact Hu.
Qed.

Lemma modulate_defined (d : nat) (s : DirectionTracker.t)
  (emb : NP.ndarray) (lam : R) :
  match DirectionTracker.tau_dir s with
  | Some dir => List.length dir = d
  | None => True
  end ->
  List.length emb = d ->
  exists e', DirectionTracker.modulate_embedding s emb lam = Ok e'
             /\ List.length e' = d.
Proof.
  intros Hd Hx.
  destruct (DirectionTracker.tau_dir s) as [dir |] eqn:Ed.
  - rewrite (modulate_value s emb dir lam Ed) by congruence.
    eexists. split; [reflexivity |].
    rewrite zip_with_length by (rewrite scale_length; congruence).
    exact Hx.
  - exists emb. unfold DirectionTracker.modulate_embedding. rewrite Ed.
    split; [reflexivity | exact Hx].
Qed.

Lemma alignment_bounded (s : DirectionTracker.t) (emb : NP.ndarray) :
  unit_or_zero s -> direction_dim s emb ->
  exists a, DirectionTracker.alignment s emb = Ok a /\ -1 <= a <= 1.
Proof.
  intros Hu Hdim. unfold direction_dim in Hdim. unfold unit_or_zero in Hu.
  destruct (DirectionTracker.tau_dir s) as [dir |] eqn:Ed.
  - destruct (Req_dec (NP.norm emb) 0) as [Z | NZ].
    + exists 0.5. unfold DirectionTracker.alignment. rewrite Ed. cbv zeta.
      replace (eq (NP.norm emb) 0) with true by (symmetry; apply eq_true; exact Z).
      split; [reflexivity | lra].
    + rewrite (alignment_value s emb dir Ed Hdim NZ).
      eexists. split; [reflexivity |].
      apply round4_pm1.
      pose proof (inner_abs_le emb dir) as Habs.
      pose proof (norm_nonneg emb) as Hne. pose proof (norm_nonneg dir) as Hnd.
      assert (Hpos : 0 < NP.norm emb) by lra.
      assert (Hd1 : NP.norm dir <= 1) by (destruct Hu; lra).
      assert (Hb : Rabs (inner emb dir) <= NP.norm emb) by nra.
      apply Rabs_bound in Hb.
      split.
      * apply (Rmult_le_reg_r (NP.norm emb)); [exact Hpos |].
        unfold Rdiv. rewrite Rmult_assoc, Rinv_l by lra. lra.
      * apply (Rmult_le_reg_r (NP.norm emb)); [exact Hpos |].
        unfold Rdiv. rewrite Rmult_assoc, Rinv_l by lra. lra.
  - exists 0.5. unfold DirectionTracker.alignment. rewrite Ed.
    split; [reflexivity | lra].
Qed.

Lemma dict_setitem_forall {V : Type} (P : string * V -> Prop)
  (d : Dict.t V) (k : string) (x : V) :
  Forall P d -> (forall k', P (k', x)) -> Forall P (Dict.setitem d k x).
Proof.
  intros HF Hx. induction HF as [| [k' y] d Hy HF IH]; simpl.
  - constructor; [apply Hx | constructor].
  - destruct (String.eqb k k'); constructor; auto.
Qed.

Lemma unveil_dims (d : nat) (s s1 : Pods.t) (pid : string) (r : option string) :
  Pods.unveil s pid = Ok (s1, r) ->
  Forall (fun kv => List.length (Pods.emb (snd kv)) = d) (Dict.items (Pods.p s)) ->
  Forall (fun kv => List.length (Pods.emb (snd kv)) = d) (Dict.items (Pods.p s1)).
Proof.
  intros E HF.
  destruct (Dict.get (Pods.p s) pid) as [x |] eqn:Eg.
  - rewrite (unveil_known s pid x Eg) in E. inversion E; subst s1 r.
    simpl Pods.p. unfold Dict.items in *.
    apply dict_setitem_forall; [exact HF |].
    intros k'. simpl.
    apply dict_get_in in Eg. rewrite Forall_forall in HF.
    apply (HF (pid, x) Eg).
  - rewrite (unveil_unknown s pid Eg) in E. inversion E; subst. exact HF.
Qed.

(** The latent pods after [unveil] of a latent pod: one less. *)
Lemma count_latent_unveil (d : Dict.t Pods.pod) (k : string) (x : Pods.pod) :
  distinct_keys d -> In (k, x) d -> Pods.state x = Pods.latent ->
  S (count_latent
       (Dict.setitem d k (Pods.mk_pod (Pods.emb x) (Pods.content x) Pods.unveiled)))
  = count_latent d.
Proof.
  unfold distinct_keys, count_latent.
  induction d as [| [k' y] d IH]; intros Hnd Hin Hst; [destruct Hin |].
  simpl in Hnd. inversion Hnd as [| k0 l Hnotin Hnd']; subst.
  simpl Dict.setitem.
  destruct (String.eqb k k') eqn:E.
  - apply String.eqb_eq in E. subst k'.
    destruct Hin as [Heq | Hin].
    + inversion Heq; subst y. simpl. rewrite Hst. simpl. reflexivity.
    + exfalso. apply Hnotin. apply (in_map fst) in Hin. exact Hin.
  - destruct Hin as [Heq | Hin].
    + inversion Heq; subst. rewrite String.eqb_refl in E. discriminate.
    + simpl. destruct (Pods.is_latent (Pods.state y)); simpl;
        rewrite <- (IH Hnd' Hin Hst); reflexivity.
Qed.

(** ** [Fatigue.update]: what the window holds *)

Lemma deltas_append (xs : list NP.ndarray) (x : NP.ndarray) :
  xs <> [] ->
  Fatigue.deltas (xs ++ [x]) = Fatigue.deltas xs ++ [NP.sub x (last xs [])].
Proof.
  induction xs as [| a [| b l] IH]; intros Hne; [contradiction | reflexivity |].
  change (Fatigue.deltas ((a :: b :: l) ++ [x]))
    with (NP.sub b a :: Fatigue.deltas ((b :: l) ++ [x])).
  rewrite IH by discriminate. reflexivity.
Qed.

Lemma tl_skipn {A : Type} (k : nat) (l : list A) : tl (skipn k l) = skipn (S k) l.
Proof.
  revert l; induction k as [| k IH]; intros [| x l]; try reflexivity.
  apply (IH l).
Qed.

Lemma last_skipn {A : Type} (k : nat) (l : list A) (d : A) :
  (k < List.length l)%nat -> last (skipn k l) d = last l d.
Proof.
  revert l; induction k as [| k IH]; intros [| x l] H; simpl in H;
    try reflexivity; try lia.
  simpl skipn. rewrite IH by lia.
  destruct l; [simpl in H; lia | reflexivity].
Qed.

Lemma fatigue_calls_snoc (s : Fatigue.t) (xs : list NP.ndarray) (x : NP.ndarray) :
  Fatigue.calls s (xs ++ [x])
  = Fatigue.call (Fatigue.calls s xs) (Fatigue.Update x).
Proof.
  unfold Fatigue.calls, Fatigue.run. rewrite map_app, fold_left_app. reflexivity.
Qed.

Lemma map_tail {A B : Type} (f : A -> B) (l : list A) :
  map f (tl l) = tl (map f l).
Proof. destruct l; reflexivity. Qed.

Lemma map_ok_nil {A : Type} (l : list A) : map (@Ok A) l = [] -> l = [].
Proof. destruct l; [reflexivity | discriminate]. Qed.

(** The window is a sliding one.  After the updates of a session with
    embeddings of one dimension, the object holds the last [w]
    embeddings given, in order, and the last [w] differences of
    neighbours among all the embeddings given. *)
Theorem fatigue_window_contents (w0 d : nat) (xs : list NP.ndarray) :
  Forall (fun x => List.length x = d) xs ->
  let s := Fatigue.calls (Fatigue.init w0) xs in
  Fatigue.w s = w0
  /\ Fatigue.e s = skipn (List.length xs - w0) xs
  /\ map Ok (Fatigue.v s) = skipn (List.length xs - 1 - w0) (Fatigue.deltas xs).
Proof.
  intros HF. cbv zeta.
  induction xs as [| x xs IH] using rev_ind.
  - repeat split.
  - apply Forall_app in HF as [HFxs Hx]. inversion Hx as [| x0 l0 Hxd _]; subst.
    destruct (IH HFxs) as (Hw & He & Hv). clear IH.
    rewrite fatigue_calls_snoc.
    set (s := Fatigue.calls (Fatigue.init w0) xs) in *.
    destruct (calls_dims (List.length x) xs HFxs (Fatigue.init w0)
                (Forall_nil _) (Forall_nil _)) as [Hde Hdv].
    fold s in Hde, Hdv.
    destruct (fatigue_update_defined (List.length x) s x Hde Hdv eq_refl)
      as (s' & E & _ & _).
    unfold Fatigue.call. rewrite E.
    destruct (update_histories s s' x E) as (v1 & Hv1 & Ev' & Ee' & Ew').
    rewrite Hw in Ev', Ee'.
    set (n := List.length xs) in *.
    assert (Hlen_e : List.length (Fatigue.e s) = Nat.min n w0).
    { rewrite He, length_skipn. fold n. lia. }
    assert (Hlen_v : List.length (Fatigue.v s) = Nat.min (n - 1) w0).
    { rewrite <- (length_map (@Ok NP.ndarray)), Hv, length_skipn, deltas_length.
      fold n. lia. }
    rewrite length_app. simpl List.length. fold n.
    split; [congruence |].
    split.
    + rewrite Ee'. rewrite length_app, Hlen_e. simpl List.length.
      rewrite He.
      assert (Happ : skipn (n - w0) xs ++ [x] = skipn (n - w0) (xs ++ [x])).
      { rewrite skipn_app. fold n.
        replace (n - w0 - n)%nat with 0%nat by lia. reflexivity. }
      rewrite Happ.
      destruct (Nat.ltb_spec w0 (Nat.min n w0 + 1)) as [L | L].
      * rewrite tl_skipn. f_equal. lia.
      * f_equal. lia.
    + rewrite Ev'.
      destruct Hv1 as [[Hnil ->] | (dl & Hne & Esub & ->)].
      * (* nothing stored: no velocity is added *)
        assert (Hv0 : Fatigue.v s = []).
        { apply (map_ok_nil (Fatigue.v s)). rewrite Hv.
          apply skipn_all2. rewrite deltas_length. fold n.
          rewrite Hnil in Hlen_e. simpl in Hlen_e. lia. }
        rewrite Hv0. simpl List.length.
        replace (if Nat.ltb w0 0 then tl [] else []) with (@nil NP.ndarray)
          by (destruct (Nat.ltb w0 0); reflexivity).
        simpl map. symmetry. apply skipn_all2.
        rewrite deltas_length, length_app. simpl List.length. fold n.
        rewrite Hnil in Hlen_e. simpl in Hlen_e. lia.
      * assert (Hn : (0 < n)%nat /\ (0 < w0)%nat).
        { destruct (Fatigue.e s) eqn:Ees; [contradiction |].
          simpl in Hlen_e. lia. }
        assert (Hxs : xs <> []).
        { intros ->. unfold n in Hn. simpl in Hn. lia. }
        assert (Hlast : last (Fatigue.e s) [] = last xs []).
        { rewrite He. apply last_skipn. fold n. lia. }
        rewrite Hlast in Esub.
        assert (Happ : map Ok (Fatigue.v s ++ [dl])
                       = skipn (n - 1 - w0) (Fatigue.deltas (xs ++ [x]))).
        { rewrite map_app, Hv, (deltas_append xs x Hxs), skipn_app, deltas_length.
          fold n. replace (n - 1 - w0 - (n - 1))%nat with 0%nat by lia.
          simpl map. rewrite Esub. reflexivity. }
        rewrite length_app, Hlen_v. simpl List.length.
        destruct (Nat.ltb_spec w0 (Nat.min (n - 1) w0 + 1)) as [L | L].
        -- rewrite map_tail, Happ, tl_skipn. f_equal. lia.
        -- rewrite Happ. f_equal. lia.
Qed.

Lemma fatigue_window_contents_witness :
  let s := Fatigue.calls (Fatigue.init 2) [[1; 0]; [0; 1]; [1; 1]] in
  Fatigue.w s = 2%nat
  /\ Fatigue.e s = skipn (List.length [[1; 0]; [0; 1]; [1; 1]] - 2)
                     [[1; 0]; [0; 1]; [1; 1]]
  /\ map Ok (Fatigue.v s)
     = skipn (List.length [[1; 0]; [0; 1]; [1; 1]] - 1 - 2)
         (Fatigue.deltas [[1; 0]; [0; 1]; [1; 1]]).
Proof.
  apply (fatigue_window_contents 2 2 [[1; 0]; [0; 1]; [1; 1]]).
  repeat constructor.
Defined.

(** ** [Pods.save], [Pods.load], [Pods.ls] *)

Lemma dict_get_notin {V : Type} (d : Dict.t V) (k : string) :
  ~ In k (map fst d) -> Dict.get d k = None.
Proof.
  induction d as [| [k' y] d IH]; simpl; intros H; [reflexivity |].
  destruct (String.eqb k k') eqn:E.
  - apply String.eqb_eq in E. subst. exfalso. apply H. left; reflexivity.
  - apply IH. intros Hin. apply H. right; exact Hin.
Qed.

(** Assignments under keys that are new and distinct append, in order. *)
Lemma fold_setitem_distinct {V W : Type} (g : string * V -> W)
  (l : list (string * V)) :
  forall acc : Dict.t W,
    NoDup (map fst acc ++ map fst l) ->
    fold_left (fun doc kv => Dict.setitem doc (fst kv) (g kv)) l acc
    = acc ++ map (fun kv => (fst kv, g kv)) l.
Proof.
  induction l as [| [k x] l IH]; intros acc Hnd; simpl.
  - rewrite app_nil_r. reflexivity.
  - assert (Hk : ~ In k (map fst acc)).
    { apply NoDup_remove_2 in Hnd. intros Hin. apply Hnd.
      apply in_or_app. left; exact Hin. }
    rewrite (dict_setitem_new acc k (g (k, x)) (dict_get_notin acc k Hk)).
    rewrite IH.
    + rewrite <- app_assoc. reflexivity.
    + rewrite map_app. simpl map. rewrite <- app_assoc. simpl app.
      simpl in Hnd. exact Hnd.
Qed.

Lemma save_distinct (s : Pods.t) :
  distinct_keys (Pods.p s) ->
  PodsFile.save s
  = map (fun kv => (fst kv, (Pods.content (snd kv), Pods.state (snd kv))))
      (Pods.p s).
Proof.
  intros Hnd. unfold PodsFile.save, Dict.items.
  apply (fold_setitem_distinct
           (fun kv : string * Pods.pod =>
              (Pods.content (snd kv), Pods.state (snd kv))) (Pods.p s) []).
  exact Hnd.
Qed.

Lemma load_fold (get_emb : string -> NP.ndarray)
  (doc : PodsFile.document) (s : Pods.t) :
  Pods.p (PodsFile.load get_emb s (Some doc))
  = fold_left
      (fun d kv =>
         Dict.setitem d (fst kv)
           {| Pods.emb := get_emb (fst (snd kv));
              Pods.content := fst (snd kv);
              Pods.state := snd (snd kv) |})
      doc (Pods.p s).
Proof.
  unfold PodsFile.load, Dict.items.
  revert s; induction doc as [| kv doc IH]; intros s; [reflexivity |].
  simpl fold_left. rewrite IH. reflexivity.
Qed.

Lemma load_save (get_emb : string -> NP.ndarray) (s : Pods.t) :
  distinct_keys (Pods.p s) ->
  Pods.p (PodsFile.load get_emb Pods.init (Some (PodsFile.save s)))
  = map (fun kv => (fst kv, reseed get_emb (snd kv))) (Pods.p s).
Proof.
  intros Hnd. rewrite load_fold, (save_distinct s Hnd).
  rewrite (fold_setitem_distinct
             (fun kv : string * (string * Pods.pod_state) =>
                {| Pods.emb := get_emb (fst (snd kv));
                   Pods.content := fst (snd kv);
                   Pods.state := snd (snd kv) |})).
  - simpl app. rewrite map_map. reflexivity.
  - simpl app. rewrite map_map. simpl. exact Hnd.
Qed.

Lemma reseed_seeded (get_emb : string -> NP.ndarray) (l : Dict.t Pods.pod) :
  Forall (fun kv => Pods.emb (snd kv) = get_emb (Pods.content (snd kv))) l ->
  map (fun kv => (fst kv, reseed get_emb (snd kv))) l = l.
Proof.
  induction 1 as [| [k x] l Hx HF IH]; [reflexivity |].
  simpl map. rewrite IH. f_equal. f_equal.
  destruct x as [e c st]. unfold reseed. simpl in *. rewrite Hx. reflexivity.
Qed.

Lemma count_latent_reseed (get_emb : string -> NP.ndarray) (l : Dict.t Pods.pod) :
  count_latent (map (fun kv => (fst kv, reseed get_emb (snd kv))) l)
  = count_latent l.
Proof.
  unfold count_latent. induction l as [| [k x] l IH]; [reflexivity |].
  simpl. destruct (Pods.is_latent (Pods.state x)); simpl; rewrite IH; reflexivity.
Qed.

(** A pods file written and read again.  [save] leaves the embeddings
    out and [load] computes them from the contents: the pods come back
    under their keys, in order, with content and state, so that [ls] and
    the number of latent pods are what they were; every pod read holds
    the embedding of its content, and the object itself comes back when
    that was so before.  A path that does not exist loads nothing. *)
Theorem pods_file_round_trip (get_emb : string -> NP.ndarray) (s : Pods.t) :
  distinct_keys (Pods.p s) ->
  let s' := PodsFile.load get_emb Pods.init (Some (PodsFile.save s)) in
  Pods.p s' = map (fun kv => (fst kv, reseed get_emb (snd kv))) (Pods.p s)
  /\ map fst (Pods.p s') = map fst (Pods.p s)
  /\ PodsFile.ls s' = PodsFile.ls s
  /\ count_latent (Pods.p s') = count_latent (Pods.p s)
  /\ seeded get_emb s'
  /\ (seeded get_emb s -> s' = s)
  /\ (forall d, (forall txt, List.length (get_emb txt) = d) ->
                Forall (fun kv => List.length (Pods.emb (snd kv)) = d)
                  (Dict.items (Pods.p s')))
  /\ PodsFile.load get_emb s None = s.
Proof.
  intros Hnd s'.
  pose proof (load_save get_emb s Hnd) as E. fold s' in E.
  split; [exact E |].
  split; [rewrite E, map_map; reflexivity |].
  split; [unfold PodsFile.ls, Dict.items; rewrite E, map_map; reflexivity |].
  split.
  { rewrite E. apply count_latent_reseed. }
  split.
  { unfold seeded. rewrite E. apply Forall_map, Forall_forall.
    intros kv _. reflexivity. }
  split.
  { intros Hs. destruct s' as [p']. destruct s as [p0]. simpl in *.
    rewrite E, (reseed_seeded get_emb p0 Hs). reflexivity. }
  split; [| reflexivity].
  intros d Hd. unfold Dict.items. rewrite E. apply Forall_map, Forall_forall.
  intros kv _. simpl. apply Hd.
Qed.

Lemma pods_file_round_trip_witness :
  let s' := PodsFile.load (fun _ => [1; 0]) Pods.init
              (Some (PodsFile.save
                       (Pods.mk [("a"%string, Pods.mk_pod [1; 0] "A" Pods.unveiled);
                                 ("b"%string, Pods.mk_pod [1; 0] "B" Pods.latent)]))) in
  PodsFile.ls s'
  = PodsFile.ls (Pods.mk [("a"%string, Pods.mk_pod [1; 0] "A" Pods.unveiled);
                          ("b"%string, Pods.mk_pod [1; 0] "B" Pods.latent)])
  /\ count_latent (Pods.p s') = 1%nat.
Proof.
  destruct (pods_file_round_trip (fun _ => [1; 0])
              (Pods.mk [("a"%string, Pods.mk_pod [1; 0] "A" Pods.unveiled);
                        ("b"%string, Pods.mk_pod [1; 0] "B" Pods.latent)]))
    as (_ & _ & Hls & Hc & _).
  - unfold distinct_keys. simpl.
    constructor.
    + intros [H | []]. discriminate H.
    + constructor; [intros [] | constructor].
  - split; [exact Hls | exact Hc].
Defined.

Lemma call_invariants (get_emb : string -> NP.ndarray) (s : Pods.t)
  (o : PodsFile.op) :
  distinct_keys (Pods.p s) -> seeded get_emb s ->
  distinct_keys (Pods.p (PodsFile.call get_emb s o))
  /\ seeded get_emb (PodsFile.call get_emb s o).
Proof.
  intros Hnd Hs. destruct o as [pid c | pid]; simpl.
  - split; [apply dict_setitem_distinct, Hnd |].
    unfold seeded. simpl. apply dict_setitem_forall; [exact Hs |].
    intros k'. reflexivity.
  - destruct (Dict.get (Pods.p s) pid) as [x |] eqn:Eg.
    + rewrite (unveil_known s pid x Eg). simpl.
      split; [apply dict_setitem_distinct, Hnd |].
      unfold seeded. simpl. apply dict_setitem_forall; [exact Hs |].
      intros k'. simpl.
      apply dict_get_in in Eg. unfold seeded in Hs. rewrite Forall_forall in Hs.
      apply (Hs (pid, x) Eg).
    + rewrite (unveil_unknown s pid Eg). simpl. split; assumption.
Qed.

(** Pods made by [create] and [unveil] survive the file: after any
    sequence of these calls on a new object, [save] followed by [load]
    into a new object gives the object back, embeddings included. *)
Theorem pods_session_round_trip (get_emb : string -> NP.ndarray)
  (ops : list PodsFile.op) :
  let s := PodsFile.run get_emb Pods.init ops in
  distinct_keys (Pods.p s)
  /\ seeded get_emb s
  /\ PodsFile.load get_emb Pods.init (Some (PodsFile.save s)) = s.
Proof.
  cbv zeta.
  assert (Hinv : forall s, distinct_keys (Pods.p s) -> seeded get_emb s ->
            distinct_keys (Pods.p (PodsFile.run get_emb s ops))
            /\ seeded get_emb (PodsFile.run get_emb s ops)).
  { unfold PodsFile.run. induction ops as [| o ops IH]; intros s Hnd Hs;
      [split; assumption |].
    simpl fold_left.
    destruct (call_invariants get_emb s o Hnd Hs) as [Hnd1 Hs1].
    apply IH; assumption. }
  destruct (Hinv Pods.init) as [Hnd Hs].
  { unfold distinct_keys. simpl. constructor. }
  { unfold seeded. simpl. constructor. }
  split; [exact Hnd |]. split; [exact Hs |].
  set (s := PodsFile.run get_emb Pods.init ops) in *.
  pose proof (load_save get_emb s Hnd) as E.
  rewrite (reseed_seeded get_emb (Pods.p s) Hs) in E.
  destruct (PodsFile.load get_emb Pods.init (Some (PodsFile.save s))) as [p'].
  destruct s as [p0]. simpl in E. rewrite E. reflexivity.
Qed.

Lemma load_invariants (get_emb : string -> NP.ndarray) (d : nat)
  (file : option PodsFile.document) :
  (forall txt, List.length (get_emb txt) = d) ->
  Forall (fun kv => List.length (Pods.emb (snd kv)) = d)
    (Dict.items (Pods.p (PodsFile.load get_emb Pods.init file)))
  /\ distinct_keys (Pods.p (PodsFile.load get_emb Pods.init file)).
Proof.
  intros Hemb. destruct file as [doc |];
    [| split; [constructor | unfold distinct_keys; simpl; constructor]].
  rewrite load_fold. unfold Dict.items.
  assert (Hgen : forall acc : Dict.t Pods.pod,
            Forall (fun kv => List.length (Pods.emb (snd kv)) = d) acc ->
            distinct_keys acc ->
            Forall (fun kv => List.length (Pods.emb (snd kv)) = d)
              (fold_left
                 (fun d0 kv =>
                    Dict.setitem d0 (fst kv)
                      {| Pods.emb := get_emb (fst (snd kv));
                         Pods.content := fst (snd kv);
                         Pods.state := snd (snd kv) |}) doc acc)
            /\ distinct_keys
                 (fold_left
                    (fun d0 kv =>
                       Dict.setitem d0 (fst kv)
                         {| Pods.emb := get_emb (fst (snd kv));
                            Pods.content := fst (snd kv);
                            Pods.state := snd (snd kv) |}) doc acc)).
  { induction doc as [| kv doc IH]; intros acc HF Hnd; [split; assumption |].
    simpl fold_left. apply IH.
    - apply dict_setitem_forall; [exact HF |]. intros k'. simpl. apply Hemb.
    - apply dict_setitem_distinct, Hnd. }
  apply Hgen; [constructor | unfold distinct_keys; simpl; constructor].
Qed.

(** ** [RhythmStore.save], [load_signature], [format_for_recapitulation] *)

Lemma speak_tag_line (t : nat) (tag : string) :
  In tag speak_tags ->
  renderable (RhythmStore.mk_event t tag None None).
Proof.
  unfold speak_tags, renderable, RhythmFile.event_line.
  intros [<- | [<- | [<- | [<- | []]]]]; eexists; reflexivity.
Qed.

Lemma pair_events_renderable (prev cur : RhythmStore.sample) :
  incl (RhythmStore.events cur) speak_tags ->
  Forall renderable (RhythmStore.pair_events prev cur).
Proof.
  intros Htags. unfold RhythmStore.pair_events. cbv zeta.
  apply Forall_app. split; [| apply Forall_app; split].
  - destruct (lt _ _); [| destruct (gt _ _)]; repeat constructor;
      eexists; reflexivity.
  - destruct (_ && _); [| destruct (_ && _)]; repeat constructor;
      eexists; reflexivity.
  - apply Forall_map, Forall_forall. intros tag Hin.
    apply speak_tag_line, Htags, Hin.
Qed.

Lemma scan_pairs_renderable (rest : list RhythmStore.sample)
  (prev : RhythmStore.sample) :
  Forall (fun sm => incl (RhythmStore.events sm) speak_tags) rest ->
  Forall renderable (RhythmStore.scan_pairs prev rest).
Proof.
  revert prev; induction rest as [| cur rest IH]; intros prev HF; [constructor |].
  inversion HF; subst. simpl. apply Forall_app. split.
  - apply pair_events_renderable. assumption.
  - apply IH. assumption.
Qed.

Lemma event_lines (evs : list RhythmStore.breathing_event) :
  Forall renderable evs ->
  forall acc : list RhythmFile.line,
  exists ls,
    for_each evs acc
      (fun acc e => l <- RhythmFile.event_line e ;; Ok (acc ++ [l]))
    = Ok (acc ++ ls)
    /\ List.length ls = List.length evs.
Proof.
  induction 1 as [| ev evs [l El] HF IH]; intros acc.
  - exists []. rewrite app_nil_r. split; reflexivity.
  - rewrite for_each_cons, El. unfold bind at 1 2.
    destruct (IH (acc ++ [l])) as (ls & E & Hlen).
    exists (l :: ls). rewrite E, <- app_assoc. simpl. split; [reflexivity | lia].
Qed.

Lemma firstn_forall {A : Type} (P : A -> Prop) (n : nat) (l : list A) :
  Forall P l -> Forall P (firstn n l).
Proof.
  intros HF. revert n; induction HF as [| x l Hx HF IH]; intros [| n]; simpl;
    constructor; auto.
Qed.

Lemma last_snoc {A : Type} (l : list A) (a d : A) : last (l ++ [a]) d = a.
Proof. apply last_last. Qed.

(** The lines of a signature that holds its eight keys, with events
    that can be rendered. *)
Lemma format_complete (sg : RhythmStore.signature) (v peak : R)
  (tr : RhythmStore.trend) (evs : list RhythmStore.breathing_event) :
  RhythmStore.tau_h_variance sg = Some v ->
  RhythmStore.sig_fatigue_trend sg = Some tr ->
  RhythmStore.peak_fatigue sg = Some peak ->
  RhythmStore.sig_breathing_events sg = Some evs ->
  Forall renderable evs ->
  exists lines,
    RhythmFile.format_for_recapitulation (Some sg) = Ok lines
    /\ hd RhythmFile.footer lines = RhythmFile.header
    /\ last lines RhythmFile.header = RhythmFile.footer
    /\ (5 <= List.length lines <= 13)%nat.
Proof.
  intros Ev Etr Ep Eevs Hr.
  unfold RhythmFile.format_for_recapitulation.
  rewrite Ev, Etr, Ep, Eevs. simpl RhythmFile.key. unfold bind at 1 2 3.
  cbv zeta.
  set (l3 := ([RhythmFile.header]
                ++ [RhythmFile.session_line (RhythmStore.sig_dominant_rhythm sg)
                      (RhythmStore.mean_tau_h sg) v])
               ++ [RhythmFile.fatigue_line tr peak]).
  assert (Hev : exists ls,
            match evs with
            | ev :: evs0 =>
                for_each (firstn 6 (ev :: evs0)) (l3 ++ [RhythmFile.events_header])
                  (fun acc e => l <- RhythmFile.event_line e ;; Ok (acc ++ [l]))
            | [] => Ok l3
            end = Ok (l3 ++ ls)
            /\ (List.length ls <= 7)%nat).
  { destruct evs as [| ev evs0].
    - exists []. rewrite app_nil_r. split; [reflexivity | simpl; lia].
    - assert (Hf : Forall renderable (firstn 6 (ev :: evs0)))
        by (apply firstn_forall, Hr).
      destruct (event_lines _ Hf (l3 ++ [RhythmFile.events_header]))
        as (ls & E & Hlen).
      exists (RhythmFile.events_header :: ls). rewrite E, <- app_assoc.
      split; [reflexivity |].
      simpl List.length. rewrite Hlen.
      pose proof (firstn_le_length 6 (ev :: evs0)). lia. }
  destruct Hev as (ls & E & Hls). rewrite E. unfold bind.
  set (cl := if gt (RhythmStore.curvature_integral sg) 3.0
             then RhythmFile.curvature_high (RhythmStore.curvature_integral sg)
             else if gt (RhythmStore.curvature_integral sg) 1.5
                  then RhythmFile.curvature_moderate (RhythmStore.curvature_integral sg)
                  else RhythmFile.curvature_low (RhythmStore.curvature_integral sg)).
  destruct (RhythmFile.is_rising (Some tr) && gt peak THETA_SOFT).
  - eexists. split; [reflexivity |].
    split; [reflexivity |]. split; [apply last_snoc |].
    rewrite !length_app. simpl. lia.
  - eexists. split; [reflexivity |].
    split; [reflexivity |]. split; [apply last_snoc |].
    rewrite !length_app. simpl. lia.
Qed.

(** [save] on an open session with samples. *)
Lemma save_nonempty (s : RhythmStore.t) (sid : string)
  (sm0 : RhythmStore.sample) (rest : list RhythmStore.sample) :
  RhythmStore.session_id s = Some sid ->
  sid <> ""%string ->
  RhythmStore.samples s = sm0 :: rest ->
  Forall (fun sm => incl (RhythmStore.events sm) speak_tags) rest ->
  exists f lines,
    RhythmFile.save s = Ok (Some f)
    /\ RhythmFile.rf_session_id f = sid
    /\ RhythmFile.rf_total_turns f = List.length (sm0 :: rest)
    /\ RhythmFile.rf_samples f = sm0 :: rest
    /\ RhythmStore.compute_signature s = Ok (RhythmFile.rf_signature f)
    /\ RhythmStore.sig_dominant_rhythm (RhythmFile.rf_signature f)
       <> RhythmStore.empty
    /\ RhythmFile.format_for_recapitulation
         (RhythmFile.load_signature (Some f)) = Ok lines
    /\ hd RhythmFile.footer lines = RhythmFile.header
    /\ last lines RhythmFile.header = RhythmFile.footer
    /\ (5 <= List.length lines <= 13)%nat.
Proof.
  intros Esid Hsid Es Htags.
  destruct (compute_signature_value s sm0 rest Es) as (tr & _ & Esg).
  set (sg := {| RhythmStore.mean_tau_h := _ |}) in Esg.
  assert (Hfmt : exists lines,
            RhythmFile.format_for_recapitulation (Some sg) = Ok lines
            /\ hd RhythmFile.footer lines = RhythmFile.header
            /\ last lines RhythmFile.header = RhythmFile.footer
            /\ (5 <= List.length lines <= 13)%nat).
  { eapply format_complete; try reflexivity.
    unfold sg. cbn [RhythmStore.sig_breathing_events].
    apply scan_pairs_renderable, Htags. }
  destruct Hfmt as (lines & Hl1 & Hl2 & Hl3 & Hl4).
  exists {| RhythmFile.rf_session_id := sid;
            RhythmFile.rf_model := RhythmStore.model s;
            RhythmFile.rf_started := RhythmStore.started s;
            RhythmFile.rf_total_turns := List.length (sm0 :: rest);
            RhythmFile.rf_samples := sm0 :: rest;
            RhythmFile.rf_signature := sg |}, lines.
  split.
  { unfold RhythmFile.save. rewrite Esid.
    replace (String.eqb sid "") with false
      by (symmetry; apply String.eqb_neq; exact Hsid).
    rewrite Esg, Es. reflexivity. }
  cbn [RhythmFile.rf_session_id RhythmFile.rf_total_turns RhythmFile.rf_samples
       RhythmFile.rf_signature RhythmFile.load_signature].
  split; [reflexivity |]. split; [reflexivity |]. split; [reflexivity |].
  split; [exact Esg |].
  split; [unfold sg; cbn [RhythmStore.sig_dominant_rhythm];
          apply dominant_not_empty |].
  auto.
Qed.

(** The rhythm file of a session whose samples carry the tags of
    [speak].  [save] never raises; it writes nothing when no session is
    open or no sample is recorded, and otherwise a document holding the
    samples, their number and the computed signature, whose rhythm is
    not ["empty"].  The signature read back by [load_signature] holds
    every key that [format_for_recapitulation] indexes, and every event
    a value for its line: the recapitulation is built without an
    exception, from the header to the footer, in 5 to 13 lines. *)
Theorem saved_rhythm_recapitulates (s : RhythmStore.t) :
  Forall (fun sm => incl (RhythmStore.events sm) speak_tags)
    (RhythmStore.samples s) ->
  exists r,
    RhythmFile.save s = Ok r
    /\ (r = None <->
        RhythmStore.session_id s = None
        \/ RhythmStore.session_id s = Some ""%string
        \/ RhythmStore.samples s = [])
    /\ forall f, r = Some f ->
         RhythmFile.rf_total_turns f = List.length (RhythmStore.samples s)
         /\ (1 <= RhythmFile.rf_total_turns f)%nat
         /\ RhythmFile.rf_samples f = RhythmStore.samples s
         /\ RhythmStore.compute_signature s = Ok (RhythmFile.rf_signature f)
         /\ RhythmStore.sig_dominant_rhythm (RhythmFile.rf_signature f)
            <> RhythmStore.empty
         /\ exists lines,
              RhythmFile.format_for_recapitulation
                (RhythmFile.load_signature (Some f)) = Ok lines
              /\ hd RhythmFile.footer lines = RhythmFile.header
              /\ last lines RhythmFile.header = RhythmFile.footer
              /\ (5 <= List.length lines <= 13)%nat.
Proof.
  intros Htags. unfold RhythmFile.save.
  destruct (RhythmStore.session_id s) as [sid |] eqn:Esid;
    [| exists None; split; [reflexivity |]; split;
       [split; [intros _; left; reflexivity | reflexivity] | discriminate]].
  destruct (String.eqb sid "") eqn:Eempty.
  { apply String.eqb_eq in Eempty. subst sid.
    exists None. split; [reflexivity |]. split; [| discriminate].
    split; [intros _; right; left; reflexivity | reflexivity]. }
  apply String.eqb_neq in Eempty.
  destruct (RhythmStore.samples s) as [| sm0 rest] eqn:Es.
  { exists None. split; [reflexivity |]. split; [| discriminate].
    split; [intros _; right; right; reflexivity | reflexivity]. }
  assert (Htail : Forall (fun sm => incl (RhythmStore.events sm) speak_tags) rest)
    by (inversion Htags; assumption).
  destruct (save_nonempty s sid sm0 rest Esid Eempty Es Htail)
    as (f0 & lines & Esave & _ & Hturns & Hsamples & Esg & Hrh & Hfmt & Hhd
        & Hlast & Hlen).
  unfold RhythmFile.save in Esave. rewrite Esid in Esave.
  replace (String.eqb sid "") with false in Esave
    by (symmetry; apply String.eqb_neq; exact Eempty).
  rewrite Es in Esave. rewrite Esave.
  exists (Some f0). split; [reflexivity |].
  split.
  { split; [discriminate |].
    intros [H | [H | H]]; [discriminate | | discriminate].
    inversion H. contradiction. }
  intros f Hf. inversion Hf; subst f; clear Hf.
  split; [exact Hturns |]. split; [rewrite Hturns; simpl; lia |].
  split; [exact Hsamples |]. split; [exact Esg |]. split; [exact Hrh |].
  exists lines. auto.
Qed.

Lemma saved_rhythm_recapitulates_witness :
  exists r,
    RhythmFile.save
      (RhythmStore.mk "vessel_data/ledgers" [pulse_sample 0.5; pulse_sample 0.7]
         (Some "20260101_000000"%string) (Some "llama3"%string)
         (Some "2026-01-01T00:00:00"%string))
    = Ok r
    /\ r <> None.
Proof.
  destruct (saved_rhythm_recapitulates
              (RhythmStore.mk "vessel_data/ledgers"
                 [pulse_sample 0.5; pulse_sample 0.7]
                 (Some "20260101_000000"%string) (Some "llama3"%string)
                 (Some "2026-01-01T00:00:00"%string)))
    as (r & E & Hnone & _).
  - simpl.
    constructor; [intros tag [] | constructor; [intros tag [] | constructor]].
  - exists r. split; [exact E |].
    intros Hr. apply Hnone in Hr. simpl in Hr.
    destruct Hr as [H | [H | H]]; discriminate H.
Defined.

(** The signature of a session without samples lacks the keys that
    [format_for_recapitulation] indexes: formatting it raises
    [KeyError].  [save] never writes it: with no sample it returns
    before the signature is computed. *)
Theorem empty_signature_not_recapitulated :
  RhythmFile.format_for_recapitulation (Some empty_signature) = Raise KeyError
  /\ RhythmFile.format_for_recapitulation None = Ok []
  /\ forall s : RhythmStore.t,
       RhythmStore.samples s = [] ->
       RhythmStore.compute_signature s = Ok empty_signature
       /\ RhythmFile.save s = Ok None.
Proof.
  split; [reflexivity |]. split; [reflexivity |].
  intros s Es. split.
  - unfold RhythmStore.compute_signature. rewrite Es. reflexivity.
  - unfold RhythmFile.save. rewrite Es.
    destruct (RhythmStore.session_id s) as [sid |]; [| reflexivity].
    destruct (String.eqb sid ""); reflexivity.
Qed.

(** An event of a computed type that lacks its value stops the
    recapitulation: a ["pause"] or ["acceleration"] without
    [tau_h_delta] raises [KeyError], an onset without [F_t] raises
    [ValueError]; and only the first six events are looked at. *)
Theorem recapitulation_event_errors (t : nat) (ty : string)
  (sg : RhythmStore.signature) (v peak : R) (tr : RhythmStore.trend)
  (evs more : list RhythmStore.breathing_event) :
  (In ty ["pause"; "acceleration"]%string ->
   RhythmFile.event_line (RhythmStore.mk_event t ty None None) = Raise KeyError)
  /\ (In ty ["soft_fatigue_onset"; "hard_fatigue_onset"]%string ->
      RhythmFile.event_line (RhythmStore.mk_event t ty None None)
      = Raise ValueError)
  /\ (RhythmStore.tau_h_variance sg = Some v ->
      RhythmStore.sig_fatigue_trend sg = Some tr ->
      RhythmStore.peak_fatigue sg = Some peak ->
      RhythmStore.sig_breathing_events sg = Some (evs ++ more) ->
      List.length evs = 6%nat ->
      RhythmFile.format_for_recapitulation (Some sg)
      = RhythmFile.format_for_recapitulation
          (Some {| RhythmStore.mean_tau_h := RhythmStore.mean_tau_h sg;
                   RhythmStore.tau_h_variance := Some v;
                   RhythmStore.mean_fatigue := RhythmStore.mean_fatigue sg;
                   RhythmStore.peak_fatigue := Some peak;
                   RhythmStore.sig_fatigue_trend := Some tr;
                   RhythmStore.sig_breathing_events := Some evs;
                   RhythmStore.sig_dominant_rhythm
                     := RhythmStore.sig_dominant_rhythm sg;
                   RhythmStore.curvature_integral
                     := RhythmStore.curvature_integral sg |})).
Proof.
  split; [| split].
  - intros [<- | [<- | []]]; reflexivity.
  - intros [<- | [<- | []]]; reflexivity.
  - intros Ev Etr Ep Eevs Hlen.
    unfold RhythmFile.format_for_recapitulation.
    rewrite Ev, Etr, Ep, Eevs. simpl RhythmStore.tau_h_variance.
    simpl RhythmStore.sig_fatigue_trend. simpl RhythmStore.peak_fatigue.
    simpl RhythmStore.sig_breathing_events.
    simpl RhythmStore.sig_dominant_rhythm. simpl RhythmStore.mean_tau_h.
    simpl RhythmStore.curvature_integral.
    assert (Hfirst : firstn 6 (evs ++ more) = firstn 6 evs).
    { rewrite firstn_app, Hlen, Nat.sub_diag. simpl firstn at 2.
      apply app_nil_r. }
    destruct evs as [| e0 evs0]; [simpl in Hlen; lia |].
    change ((e0 :: evs0) ++ more) with (e0 :: (evs0 ++ more)) in *.
    cbv beta iota. rewrite Hfirst. reflexivity.
Qed.

Lemma save_defined (s : RhythmStore.t) : exists r, RhythmFile.save s = Ok r.
Proof.
  unfold RhythmFile.save.
  destruct (RhythmStore.session_id s) as [sid |]; [| eexists; reflexivity].
  destruct (String.eqb sid ""); [eexists; reflexivity |].
  destruct (RhythmStore.samples s) as [| sm0 rest] eqn:Es; [eexists; reflexivity |].
  destruct (compute_signature_value s sm0 rest Es) as (tr & _ & Esg).
  rewrite Esg. unfold bind. eexists; reflexivity.
Qed.

(** ** [Vessel.speak]: one turn *)

Lemma known_model_inhabited (s : VesselCore.t) (m : string) :
  VesselCore.model s = Some m ->
  In m VesselCore.AVAILABLE_MODELS ->
  VesselCore.inhabited s = true.
Proof.
  intros Hmodel Hin. unfold VesselCore.inhabited, VesselCore.truthy.
  rewrite Hmodel. destruct Hin as [<- | [<- | [<- | []]]]; reflexivity.
Qed.

Lemma known_model_listed (m : string) :
  In m VesselCore.AVAILABLE_MODELS ->
  existsb (String.eqb m) VesselCore.AVAILABLE_MODELS = true.
Proof.
  intros Hin. apply existsb_exists. exists m.
  split; [exact Hin | apply String.eqb_refl].
Qed.

Lemma lookup_known (s : VesselCore.t) (m : string) :
  VesselCore.model s = Some m ->
  In m VesselCore.AVAILABLE_MODELS ->
  VesselCore.lookup_model (VesselCore.model s) = Ok m.
Proof.
  intros Hmodel Hin. unfold VesselCore.lookup_model.
  rewrite Hmodel, (known_model_listed m Hin). reflexivity.
Qed.

(** What a turn of [speak] does to a vessel whose embeddings have one
    dimension, with an inhabitant set. *)
Lemma speak_step
  (svd : list NP.ndarray -> option (list R)) (get_emb : string -> NP.ndarray)
  (d : nat) (s : VesselCore.t) (m msg : string) (t0 now : R) (raw : string) :
  (forall txt, List.length (get_emb txt) = d) ->
  vessel_dim d s ->
  VesselCore.model s = Some m ->
  In m VesselCore.AVAILABLE_MODELS ->
  exists s' mt,
    VesselCore.speak svd get_emb s msg t0 now raw = Ok (s', Some mt)
    /\ vessel_dim d s'
    /\ VesselCore.model s' = VesselCore.model s
    /\ VesselCore.sid s' = VesselCore.sid s
    /\ VesselCore.turn s' = S (VesselCore.turn s)
    /\ VesselCore.m_turn mt = S (VesselCore.turn s)
    /\ 0 <= VesselCore.m_fatigue_score mt <= 1
    /\ -1 <= VesselCore.m_alignment mt <= 1
    /\ Fatigue.update (VesselCore.fatigue s) (get_emb msg)
       = Ok (VesselCore.fatigue s')
    /\ PulseEstimator.update (VesselCore.pulse s) msg (get_emb msg) t0
       = Ok (VesselCore.pulse s', VesselCore.m_tau_h mt)
    /\ DirectionTracker.update (VesselCore.direction s) (get_emb msg)
         (VesselCore.m_tau_h mt)
       = Ok (VesselCore.direction s')
    /\ VesselCore.m_thresholds mt
       = PulseEstimator.modulate_thresholds (VesselCore.pulse s')
    /\ (exists sm,
          RhythmStore.samples (VesselCore.rhythm s')
          = RhythmStore.samples (VesselCore.rhythm s) ++ [sm]
          /\ RhythmStore.turn sm = S (VesselCore.turn s)
          /\ RhythmStore.tau_h sm = round (VesselCore.m_tau_h mt) 4
          /\ RhythmStore.fatigue sm = round (VesselCore.m_fatigue_score mt) 4
          /\ RhythmStore.fatigue_status sm = VesselCore.m_fatigue_status mt
          /\ RhythmStore.events sm
             = VesselCore.turn_events (VesselCore.m_pod mt)
                 (VesselCore.m_fatigue_status mt) (VesselCore.m_alignment mt))
    /\ (RhythmStore.base (VesselCore.rhythm s')
        = RhythmStore.base (VesselCore.rhythm s)
        /\ RhythmStore.session_id (VesselCore.rhythm s')
           = RhythmStore.session_id (VesselCore.rhythm s))
    /\ map fst (Pods.p (VesselCore.pods s')) = map fst (Pods.p (VesselCore.pods s))
    /\ match VesselCore.m_pod mt with
       | None => VesselCore.pods s' = VesselCore.pods s
       | Some pe =>
           exists pid x,
             In (pid, x) (Pods.p (VesselCore.pods s))
             /\ Pods.state x = Pods.latent
             /\ VesselCore.pe_content pe = Pods.content x
             /\ exists r, Pods.unveil (VesselCore.pods s) pid
                          = Ok (VesselCore.pods s', r)
       end.
Proof.
  intros Hemb (He & Hv & Hp & Hd & Hpods) Hmodel Hknown.
  pose proof (known_model_inhabited s m Hmodel Hknown) as Hinh.
  unfold VesselCore.speak. rewrite Hinh. simpl negb. cbv iota. cbv zeta.
  pose proof (Hemb msg) as Hx.
  destruct (fatigue_update_defined d _ _ He Hv Hx) as (fat1 & Efat & He1 & Hv1).
  rewrite Efat. unfold bind at 1.
  destruct (score_defined svd d fat1 Hv1) as (f & comps & st & Esc & Hf).
  rewrite Esc. unfold bind at 1. cbn [fst snd].
  destruct (pulse_update_defined d _ msg _ t0 Hp Hx) as (pulse1 & tau_h & Epu & Hp1).
  rewrite Epu. unfold bind at 1. cbn [fst snd].
  destruct (direction_update_defined d _ _ tau_h Hd Hx)
    as (dir1 & dvec & Edir & Edvec & Hdl & Hdu).
  rewrite Edir. unfold bind at 1.
  assert (Hd1 : match DirectionTracker.tau_dir dir1 with
                | Some dir => List.length dir = d
                | None => True
                end) by (rewrite Edvec; exact Hdl).
  destruct (modulate_defined d dir1 (get_emb msg) 0.3 Hd1 Hx) as (em & Eem & Hem).
  rewrite Eem. unfold bind at 1.
  set (ths := PulseEstimator.modulate_thresholds pulse1).
  assert (HF : Forall (fun kv => List.length em = List.length (Pods.emb (snd kv)))
                 (Dict.items (Pods.p (VesselCore.pods s)))).
  { eapply Forall_impl; [| exact Hpods]. simpl. intros kv H. congruence. }
  destruct (detect_pod_adaptive_spec (VesselCore.pods s) em f
              (snd (fst ths)) (snd ths) HF) as (pr & Epr & _).
  pose proof Epr as Horigin.
  unfold Vessel._detect_pod_adaptive in Horigin.
  apply (loop_hit_origin _ _
           (adaptive_body_origin em f (snd (fst ths)) (snd ths))) in Horigin.
  rewrite Epr. unfold bind at 1.
  assert (Hun : exists pods1 pe,
            match pr with
            | Some (pid, sim, content) =>
                u <- Pods.unveil (VesselCore.pods s) pid ;;
                Ok (fst u, Some {| VesselCore.pe_content := content;
                                   VesselCore.pe_similarity := round sim 3 |})
            | None => Ok (VesselCore.pods s, None)
            end = Ok (pods1, pe)
            /\ Forall (fun kv => List.length (Pods.emb (snd kv)) = d)
                 (Dict.items (Pods.p pods1))
            /\ map fst (Pods.p pods1) = map fst (Pods.p (VesselCore.pods s))
            /\ match pe with
               | None => pods1 = VesselCore.pods s
               | Some pe =>
                   exists pid x,
                     In (pid, x) (Pods.p (VesselCore.pods s))
                     /\ Pods.state x = Pods.latent
                     /\ VesselCore.pe_content pe = Pods.content x
                     /\ exists r, Pods.unveil (VesselCore.pods s) pid
                                  = Ok (pods1, r)
               end).
  { destruct Horigin as [-> | (k & x & sim & Hin & Hst & ->)].
    - exists (VesselCore.pods s), None.
      split; [reflexivity |]. split; [exact Hpods |]. split; reflexivity.
    - destruct (unveil_state (VesselCore.pods s) k) as (p1 & r1 & Eu & Hkeys & _).
      rewrite Eu. unfold bind. cbn [fst snd].
      do 2 eexists. split; [reflexivity |].
      split; [exact (unveil_dims d _ _ _ _ Eu Hpods) |].
      split; [exact Hkeys |].
      exists k, x. split; [exact Hin |]. split; [exact Hst |].
      split; [reflexivity |]. exists r1. exact Eu. }
  destruct Hun as (pods1 & pe & Eun & Hpods1 & Hkeys & Hpe).
  rewrite Eun. unfold bind at 1. cbn [fst snd].
  rewrite (lookup_known s m Hmodel Hknown). unfold bind at 1.
  assert (Hu1 : unit_or_zero dir1) by (unfold unit_or_zero; rewrite Edvec; exact Hdu).
  assert (Hdd : direction_dim dir1 (get_emb (substring 0 500 raw))).
  { unfold direction_dim. rewrite Edvec. rewrite Hemb, Hdl. reflexivity. }
  destruct (alignment_bounded dir1 _ Hu1 Hdd) as (al & Eal & Hal).
  rewrite Eal. unfold bind at 1.
  match goal with
  | |- context [bind (if ?c then RhythmFile.save ?rh else Ok None) _] =>
      assert (Hsaved : exists sv,
                (if c then RhythmFile.save rh else Ok None) = Ok sv)
        by (destruct c; [apply save_defined | eexists; reflexivity]);
      destruct Hsaved as [sv Esv]; rewrite Esv
  end.
  unfold bind.
  do 2 eexists. split; [reflexivity |].
  simpl.
  split.
  { unfold vessel_dim. simpl.
    split; [exact He1 |]. split; [exact Hv1 |]. split; [exact Hp1 |].
    split; [exact Hd1 | exact Hpods1]. }
  split; [reflexivity |]. split; [reflexivity |]. split; [reflexivity |].
  split; [reflexivity |]. split; [exact Hf |]. split; [exact Hal |].
  split; [reflexivity |]. split; [reflexivity |]. split; [exact Edir |].
  split; [reflexivity |].
  split; [eexists; split; [reflexivity |]; repeat split |].
  split; [split; reflexivity |].
  split; [exact Hkeys | exact Hpe].
Qed.

(** ** [Vessel.speak]: a session *)

Lemma speaks_cons
  (svd : list NP.ndarray -> option (list R)) (get_emb : string -> NP.ndarray)
  (s : VesselCore.t) (msg : string) (t0 now : R) (raw : string)
  (rest : list VesselCore.turn_input) :
  VesselCore.speaks svd get_emb s ((msg, t0, now, raw) :: rest)
  = (r <- VesselCore.speak svd get_emb s msg t0 now raw ;;
     rs <- VesselCore.speaks svd get_emb (fst r) rest ;;
     Ok (fst rs, snd r :: snd rs)).
Proof. reflexivity. Qed.

Lemma count_pod_events_cons (mt : VesselCore.meta) (metas : list VesselCore.meta) :
  count_pod_events (mt :: metas)
  = ((match VesselCore.m_pod mt with Some _ => 1 | None => 0 end)
     + count_pod_events metas)%nat.
Proof.
  unfold count_pod_events. simpl.
  destruct (VesselCore.m_pod mt); reflexivity.
Qed.

Lemma turn_events_tags (pe : option VesselCore.pod_event) (st : status)
  (alignment : R) :
  incl (VesselCore.turn_events pe st alignment) speak_tags.
Proof.
  unfold VesselCore.turn_events, speak_tags.
  intros tag Hin.
  apply in_app_or in Hin as [Hin | Hin].
  - destruct pe; [| destruct Hin]. destruct Hin as [<- | []]. simpl. auto.
  - apply in_app_or in Hin as [Hin | Hin].
    + destruct st; simpl in Hin; [contradiction | |];
        destruct Hin as [<- | []]; simpl; auto.
    + destruct (lt alignment 0.3); [| destruct Hin].
      destruct Hin as [<- | []]. simpl. auto.
Qed.

(** A session of [speak] calls from a vessel whose embeddings have one
    dimension, with an inhabitant of [AVAILABLE_MODELS]. *)
Lemma speaks_from
  (svd : list NP.ndarray -> option (list R)) (get_emb : string -> NP.ndarray)
  (d : nat) (turns : list VesselCore.turn_input) :
  (forall txt, List.length (get_emb txt) = d) ->
  forall (s : VesselCore.t) (m : string),
    vessel_dim d s ->
    VesselCore.model s = Some m ->
    In m VesselCore.AVAILABLE_MODELS ->
    exists s' metas new,
      VesselCore.speaks svd get_emb s turns = Ok (s', map Some metas)
      /\ vessel_dim d s'
      /\ VesselCore.model s' = VesselCore.model s
      /\ List.length metas = List.length turns
      /\ VesselCore.turn s' = (VesselCore.turn s + List.length turns)%nat
      /\ map VesselCore.m_turn metas
         = seq (S (VesselCore.turn s)) (List.length turns)
      /\ RhythmStore.samples (VesselCore.rhythm s')
         = RhythmStore.samples (VesselCore.rhythm s) ++ new
      /\ map RhythmStore.turn new
         = seq (S (VesselCore.turn s)) (List.length turns)
      /\ records_pulses (map VesselCore.m_tau_h metas) new
      /\ Forall (fun sm => incl (RhythmStore.events sm) speak_tags) new
      /\ (RhythmStore.base (VesselCore.rhythm s')
          = RhythmStore.base (VesselCore.rhythm s)
          /\ RhythmStore.session_id (VesselCore.rhythm s')
             = RhythmStore.session_id (VesselCore.rhythm s))
      /\ Forall (fun mt => 0 <= VesselCore.m_fatigue_score mt <= 1
                           /\ -1 <= VesselCore.m_alignment mt <= 1) metas
      /\ VesselCore.fatigue s'
         = Fatigue.calls (VesselCore.fatigue s) (embeddings_of get_emb turns)
      /\ (forall outs,
            fold_left PulseEstimator.call (pulse_calls_of get_emb turns)
              (VesselCore.pulse s, outs)
            = (VesselCore.pulse s', outs ++ map VesselCore.m_tau_h metas))
      /\ VesselCore.direction s'
         = DirectionTracker.calls (VesselCore.direction s)
             (combine (embeddings_of get_emb turns)
                (map VesselCore.m_tau_h metas))
      /\ map fst (Pods.p (VesselCore.pods s'))
         = map fst (Pods.p (VesselCore.pods s))
      /\ (distinct_keys (Pods.p (VesselCore.pods s)) ->
          (count_latent (Pods.p (VesselCore.pods s')) + count_pod_events metas
           = count_latent (Pods.p (VesselCore.pods s)))%nat).
Proof.
  intros Hemb.
  induction turns as [| [[[msg t0] now] raw] rest IH]; intros s m Hdim Hmodel0 Hknown.
  - exists s, [], []. simpl.
    split; [reflexivity |]. split; [exact Hdim |]. split; [reflexivity |].
    split; [reflexivity |]. split; [lia |]. split; [reflexivity |].
    split; [rewrite app_nil_r; reflexivity |]. split; [reflexivity |].
    split; [constructor |]. split; [constructor |].
    split; [split; reflexivity |].
    split; [constructor |]. split; [reflexivity |].
    split; [intros outs; rewrite app_nil_r; reflexivity |].
    split; [reflexivity |]. split; [reflexivity |].
    intros _. unfold count_pod_events. simpl. lia.
  - destruct (speak_step svd get_emb d s m msg t0 now raw Hemb Hdim Hmodel0 Hknown)
      as (s1 & mt & E & Hdim1 & Hmodel & _ & Hturn & Hmt & Hf & Hal & Efat
          & Epu & Edir & _ & (sm & Esm & Hsmturn & Hsmtau & _ & _ & Hsmev)
          & (Hbase & Hsess) & Hkeys & Hpod).
    assert (Hmodel1 : VesselCore.model s1 = Some m) by congruence.
    destruct (IH s1 m Hdim1 Hmodel1 Hknown)
      as (s' & metas & new & Es & Hdim' & Hmodel' & Hlen & Hturn' & Hturns
          & Esamples & Hnew & Hrec & Htags & (Hbase' & Hsess') & Hranges
          & Efat' & Epu' & Edir' & Hkeys' & Hcount).
    exists s', (mt :: metas), (sm :: new).
    rewrite speaks_cons, E. unfold bind at 1. cbn [fst snd].
    rewrite Es. unfold bind. cbn [fst snd].
    split; [reflexivity |]. split; [exact Hdim' |].
    split; [congruence |].
    split; [simpl; congruence |].
    split; [simpl List.length; lia |].
    split.
    { simpl. rewrite Hmt, Hturns, Hturn. reflexivity. }
    split.
    { rewrite Esamples, Esm, <- app_assoc. reflexivity. }
    split.
    { simpl. rewrite Hsmturn, Hnew, Hturn. reflexivity. }
    split.
    { unfold records_pulses. simpl. constructor; [exact Hsmtau | exact Hrec]. }
    split.
    { constructor; [| exact Htags]. rewrite Hsmev. apply turn_events_tags. }
    split; [split; congruence |].
    split; [constructor; [split; assumption | exact Hranges] |].
    split.
    { rewrite Efat'. unfold embeddings_of. simpl map.
      unfold Fatigue.calls, Fatigue.run. simpl map. simpl fold_left.
      unfold message_of. cbn [fst snd]. rewrite Efat. reflexivity. }
    split.
    { intros outs.
      change (pulse_calls_of get_emb ((msg, t0, now, raw) :: rest))
        with ((msg, get_emb msg, t0) :: pulse_calls_of get_emb rest).
      assert (Hc : PulseEstimator.call (VesselCore.pulse s, outs)
                     (msg, get_emb msg, t0)
                   = (VesselCore.pulse s1, outs ++ [VesselCore.m_tau_h mt])).
      { unfold PulseEstimator.call. cbn [fst snd]. rewrite Epu. reflexivity. }
      cbn [fold_left]. rewrite Hc.
      rewrite (Epu' (outs ++ [VesselCore.m_tau_h mt])).
      rewrite <- app_assoc. reflexivity. }
    split.
    { rewrite Edir'.
      change (embeddings_of get_emb ((msg, t0, now, raw) :: rest))
        with (get_emb msg :: embeddings_of get_emb rest).
      assert (Hc : DirectionTracker.call (VesselCore.direction s)
                     (get_emb msg, VesselCore.m_tau_h mt)
                   = VesselCore.direction s1).
      { unfold DirectionTracker.call. cbn [fst snd]. rewrite Edir. reflexivity. }
      unfold DirectionTracker.calls. cbn [map combine fold_left].
      rewrite Hc. reflexivity. }
    split; [congruence |].
    intros Hnd.
    assert (Hnd1 : distinct_keys (Pods.p (VesselCore.pods s1))).
    { unfold distinct_keys in *. rewrite Hkeys. exact Hnd. }
    specialize (Hcount Hnd1). rewrite count_pod_events_cons.
    destruct (VesselCore.m_pod mt) as [pe |].
    + destruct Hpod as (pid & x & Hin & Hst & _ & r & Eun).
      pose proof (dict_in_get _ _ _ Hnd Hin) as Hget.
      rewrite (unveil_known _ _ _ Hget) in Eun.
      inversion Eun as [[Epods Er]].
      pose proof (count_latent_unveil _ _ _ Hnd Hin Hst) as Hc.
      rewrite <- Epods in Hcount. simpl Pods.p in Hcount. lia.
    + rewrite Hpod in Hcount. lia.
Qed.

(** [possess] on a new vessel, with a model of [AVAILABLE_MODELS] and a
    prior signature that can be rendered. *)
Lemma possess_known (get_emb : string -> NP.ndarray)
  (prior : option RhythmStore.signature) (new_sid now_iso : string)
  (file : option PodsFile.document) (m : string) (d : nat) :
  (forall txt, List.length (get_emb txt) = d) ->
  In m VesselCore.AVAILABLE_MODELS ->
  renders prior ->
  exists s0,
    VesselCore.possess prior new_sid now_iso (VesselCore.init get_emb file) m
    = Ok (s0, Some new_sid)
    /\ vessel_dim d s0
    /\ VesselCore.model s0 = Some m
    /\ VesselCore.turn s0 = 0%nat
    /\ VesselCore.fatigue s0 = Fatigue.init 5
    /\ VesselCore.pulse s0 = PulseEstimator.init
    /\ VesselCore.direction s0 = DirectionTracker.init
    /\ VesselCore.pods s0 = PodsFile.load get_emb Pods.init file
    /\ RhythmStore.samples (VesselCore.rhythm s0) = []
    /\ distinct_keys (Pods.p (PodsFile.load get_emb Pods.init file)).
Proof.
  intros Hemb Hin (lines & Elines).
  destruct (load_invariants get_emb d file Hemb) as (Hpods & Hnd).
  unfold VesselCore.possess. rewrite (known_model_listed m Hin).
  simpl negb. cbv iota.
  change (VesselCore.truthy (VesselCore.model (VesselCore.init get_emb file)))
    with false.
  cbn [andb]. unfold bind at 1. rewrite Elines. unfold bind.
  eexists. split; [reflexivity |].
  split.
  { unfold vessel_dim. simpl.
    split; [constructor |]. split; [constructor |].
    split; [split; exact I |]. split; [exact I | exact Hpods]. }
  split; [reflexivity |]. split; [reflexivity |]. split; [reflexivity |].
  split; [reflexivity |]. split; [reflexivity |]. split; [reflexivity |].
  split; [reflexivity | exact Hnd].
Qed.

(** A session of the vessel, from [possess] on a new vessel: as long as
    [get_emb] answers with embeddings of one dimension, the model is a
    key of [AVAILABLE_MODELS] and the signature of the prior session can
    be rendered, neither [possess] nor any call of [speak] raises, with
    the lookup of the model and the saving of the rhythm every fifth
    turn included, whatever the pods file holds.  Every call returns its
    telemetry; the turns and the rhythm samples are numbered from 1; the
    fatigue returned lies in [0, 1] and the alignment in [-1, 1]; the
    pods share the dimension afterwards. *)
Theorem vessel_session_returns
  (svd : list NP.ndarray -> option (list R)) (get_emb : string -> NP.ndarray)
  (d : nat) (file : option PodsFile.document)
  (prior : option RhythmStore.signature) (m new_sid now_iso : string)
  (turns : list VesselCore.turn_input) :
  (forall txt, List.length (get_emb txt) = d) ->
  In m VesselCore.AVAILABLE_MODELS ->
  renders prior ->
  exists s0 s' metas,
    VesselCore.possess prior new_sid now_iso (VesselCore.init get_emb file) m
    = Ok (s0, Some new_sid)
    /\ VesselCore.speaks svd get_emb s0 turns = Ok (s', map Some metas)
    /\ List.length metas = List.length turns
    /\ VesselCore.turn s' = List.length turns
    /\ VesselCore.model s' = Some m
    /\ map VesselCore.m_turn metas = seq 1 (List.length turns)
    /\ map RhythmStore.turn (RhythmStore.samples (VesselCore.rhythm s'))
       = seq 1 (List.length turns)
    /\ Forall (fun mt => 0 <= VesselCore.m_fatigue_score mt <= 1
                         /\ -1 <= VesselCore.m_alignment mt <= 1) metas
    /\ vessel_dim d s'.
Proof.
  intros Hemb Hin Hprior.
  destruct (possess_known get_emb prior new_sid now_iso file m d Hemb Hin Hprior)
    as (s0 & E0 & Hdim & Hmodel0 & Hturn & _ & _ & _ & _ & Hsamples & _).
  destruct (speaks_from svd get_emb d turns Hemb s0 m Hdim Hmodel0 Hin)
    as (s' & metas & new & Es & Hdim' & Hmodel & Hlen & Hturn' & Hturns
        & Esamples & Hnew & _ & _ & _ & Hranges & _).
  exists s0, s', metas.
  split; [exact E0 |]. split; [exact Es |]. split; [exact Hlen |].
  split; [rewrite Hturn', Hturn; reflexivity |].
  split; [congruence |].
  split; [rewrite Hturns, Hturn; reflexivity |].
  split; [rewrite Esamples, Hsamples, app_nil_l, Hnew, Hturn; reflexivity |].
  split; [exact Hranges | exact Hdim'].
Qed.

Lemma vessel_session_returns_witness :
  exists s0 s' metas,
    VesselCore.possess None "20260101_000000" "2026-01-01T00:00:00"
      (VesselCore.init (fun _ => [1; 0])
         (Some [("a"%string, ("A"%string, Pods.latent))]))
      "llama3"
    = Ok (s0, Some "20260101_000000"%string)
    /\ VesselCore.speaks (fun _ => None) (fun _ => [1; 0]) s0
         [("hello"%string, 0, 0, "answer"%string);
          ("again"%string, 2, 3, "answer"%string)]
       = Ok (s', map Some metas)
    /\ List.length metas = 2%nat.
Proof.
  destruct (vessel_session_returns (fun _ => None) (fun _ => [1; 0]) 2
              (Some [("a"%string, ("A"%string, Pods.latent))]) None
              "llama3" "20260101_000000" "2026-01-01T00:00:00"
              [("hello"%string, 0, 0, "answer"%string);
               ("again"%string, 2, 3, "answer"%string)])
    as (s0 & s' & metas & E0 & E & Hlen & _).
  - intros txt. reflexivity.
  - left. reflexivity.
  - exists []. reflexivity.
  - exists s0, s', metas. split; [exact E0 |]. split; [exact E | exact Hlen].
Defined.

(** The components of a vessel in a session are the components of their
    own sessions: the fatigue object has seen the embeddings of the
    messages, the pulse estimator the messages with their embeddings and
    clock readings, the direction tracker the embeddings with the pulses
    returned; the rhythm samples record these pulses; and on a clock that
    never goes back every pulse lies between 0.5 and 0.7311. *)
Theorem vessel_session_components
  (svd : list NP.ndarray -> option (list R)) (get_emb : string -> NP.ndarray)
  (d : nat) (file : option PodsFile.document)
  (prior : option RhythmStore.signature) (m new_sid now_iso : string)
  (turns : list VesselCore.turn_input) :
  (forall txt, List.length (get_emb txt) = d) ->
  In m VesselCore.AVAILABLE_MODELS ->
  renders prior ->
  exists s0 s' metas,
    VesselCore.possess prior new_sid now_iso (VesselCore.init get_emb file) m
    = Ok (s0, Some new_sid)
    /\ VesselCore.speaks svd get_emb s0 turns = Ok (s', map Some metas)
    /\ VesselCore.fatigue s'
       = Fatigue.calls (Fatigue.init 5) (embeddings_of get_emb turns)
    /\ PulseEstimator.calls PulseEstimator.init (pulse_calls_of get_emb turns)
       = (VesselCore.pulse s', map VesselCore.m_tau_h metas)
    /\ VesselCore.direction s'
       = DirectionTracker.calls DirectionTracker.init
           (combine (embeddings_of get_emb turns)
              (map VesselCore.m_tau_h metas))
    /\ records_pulses (map VesselCore.m_tau_h metas)
         (RhythmStore.samples (VesselCore.rhythm s'))
    /\ (PulseEstimator.nondecreasing (map clock_of turns) ->
        Forall (fun mt => 0.5 <= VesselCore.m_tau_h mt <= 0.7311) metas).
Proof.
  intros Hemb Hin Hprior.
  destruct (possess_known get_emb prior new_sid now_iso file m d Hemb Hin Hprior)
    as (s0 & E0 & Hdim & Hmodel0 & _ & Hfat & Hpulse & Hdir & _ & Hsamples & _).
  destruct (speaks_from svd get_emb d turns Hemb s0 m Hdim Hmodel0 Hin)
    as (s' & metas & new & Es & _ & _ & _ & _ & _
        & Esamples & _ & Hrec & _ & _ & _ & Efat & Epu & Edir & _).
  exists s0, s', metas.
  split; [exact E0 |]. split; [exact Es |].
  split; [rewrite Efat, Hfat; reflexivity |].
  assert (Ecalls : PulseEstimator.calls PulseEstimator.init
                     (pulse_calls_of get_emb turns)
                   = (VesselCore.pulse s', map VesselCore.m_tau_h metas)).
  { unfold PulseEstimator.calls. rewrite <- Hpulse. apply (Epu []). }
  split; [exact Ecalls |].
  split; [rewrite Edir, Hdir; reflexivity |].
  split; [rewrite Esamples, Hsamples, app_nil_l; exact Hrec |].
  intros Hnd.
  assert (Hts : map timestamp_of (pulse_calls_of get_emb turns) = map clock_of turns).
  { unfold pulse_calls_of. rewrite map_map. reflexivity. }
  rewrite <- Hts in Hnd.
  destruct (pulse_session (pulse_calls_of get_emb turns) PulseEstimator.init []
              pulse_ok_init (Forall_nil _) Hnd (time_ok_init _))
    as (_ & Houts & _).
  fold (PulseEstimator.calls PulseEstimator.init (pulse_calls_of get_emb turns))
    in Houts.
  rewrite Ecalls in Houts. cbn [snd] in Houts.
  rewrite Forall_map in Houts. exact Houts.
Qed.

Lemma vessel_session_components_witness :
  exists s0 s' metas,
    VesselCore.possess None "20260101_000000" "2026-01-01T00:00:00"
      (VesselCore.init (fun _ => [1; 0]) None) "mistral"
    = Ok (s0, Some "20260101_000000"%string)
    /\ VesselCore.speaks (fun _ => None) (fun _ => [1; 0]) s0
         [("hello"%string, 0, 0, "answer"%string);
          ("again"%string, 2, 3, "answer"%string)]
       = Ok (s', map Some metas)
    /\ VesselCore.fatigue s'
       = Fatigue.calls (Fatigue.init 5) [[1; 0]; [1; 0]]
    /\ Forall (fun mt => 0.5 <= VesselCore.m_tau_h mt <= 0.7311) metas.
Proof.
  destruct (vessel_session_components (fun _ => None) (fun _ => [1; 0]) 2
              None None "mistral" "20260101_000000" "2026-01-01T00:00:00"
              [("hello"%string, 0, 0, "answer"%string);
               ("again"%string, 2, 3, "answer"%string)])
    as (s0 & s' & metas & E0 & E & Hfat & _ & _ & _ & Hpulse).
  - intros txt. reflexivity.
  - right. left. reflexivity.
  - exists []. reflexivity.
  - exists s0, s', metas. split; [exact E0 |]. split; [exact E |].
    split; [exact Hfat |].
    apply Hpulse. simpl. unfold clock_of. simpl. split; [lra | exact I].
Defined.

(** Pods in a session: the vessel starts with the pods of the pods file,
    [speak] never adds or removes a key, and every turn that reports a
    pod takes one pod from the latent ones, so that the turns with a pod
    event and the pods still latent add up to the pods latent at the
    start; no pod is reported twice. *)
Theorem vessel_session_pods
  (svd : list NP.ndarray -> option (list R)) (get_emb : string -> NP.ndarray)
  (d : nat) (file : option PodsFile.document)
  (prior : option RhythmStore.signature) (m new_sid now_iso : string)
  (turns : list VesselCore.turn_input) :
  (forall txt, List.length (get_emb txt) = d) ->
  In m VesselCore.AVAILABLE_MODELS ->
  renders prior ->
  let loaded := PodsFile.load get_emb Pods.init file in
  exists s0 s' metas,
    VesselCore.possess prior new_sid now_iso (VesselCore.init get_emb file) m
    = Ok (s0, Some new_sid)
    /\ VesselCore.speaks svd get_emb s0 turns = Ok (s', map Some metas)
    /\ VesselCore.pods s0 = loaded
    /\ map fst (Pods.p (VesselCore.pods s')) = map fst (Pods.p loaded)
    /\ (count_latent (Pods.p (VesselCore.pods s')) + count_pod_events metas
        = count_latent (Pods.p loaded))%nat
    /\ (count_pod_events metas <= count_latent (Pods.p loaded))%nat.
Proof.
  intros Hemb Hin Hprior loaded.
  destruct (possess_known get_emb prior new_sid now_iso file m d Hemb Hin Hprior)
    as (s0 & E0 & Hdim & Hmodel0 & _ & _ & _ & _ & Hloaded & _ & Hnd).
  fold loaded in Hloaded, Hnd.
  destruct (speaks_from svd get_emb d turns Hemb s0 m Hdim Hmodel0 Hin)
    as (s' & metas & new & Es & _ & _ & _ & _ & _
        & _ & _ & _ & _ & _ & _ & _ & _ & _ & Hkeys & Hcount).
  rewrite Hloaded in Hkeys, Hcount. specialize (Hcount Hnd).
  exists s0, s', metas.
  split; [exact E0 |]. split; [exact Es |]. split; [exact Hloaded |].
  split; [exact Hkeys |]. split; [exact Hcount | lia].
Qed.

Lemma vessel_session_pods_witness :
  exists s0 s' metas,
    VesselCore.possess None "20260101_000000" "2026-01-01T00:00:00"
      (VesselCore.init (fun _ => [1; 0])
         (Some [("a"%string, ("A"%string, Pods.latent))]))
      "phi3"
    = Ok (s0, Some "20260101_000000"%string)
    /\ VesselCore.speaks (fun _ => None) (fun _ => [1; 0]) s0
         [("hello"%string, 0, 0, "answer"%string);
          ("again"%string, 2, 3, "answer"%string)]
       = Ok (s', map Some metas)
    /\ (count_pod_events metas <= 1)%nat.
Proof.
  destruct (vessel_session_pods (fun _ => None) (fun _ => [1; 0]) 2
              (Some [("a"%string, ("A"%string, Pods.latent))]) None
              "phi3" "20260101_000000" "2026-01-01T00:00:00"
              [("hello"%string, 0, 0, "answer"%string);
               ("again"%string, 2, 3, "answer"%string)])
    as (s0 & s' & metas & E0 & E & _ & _ & _ & Hle).
  - intros txt. reflexivity.
  - right. right. left. reflexivity.
  - exists []. reflexivity.
  - exists s0, s', metas. split; [exact E0 |]. split; [exact E | exact Hle].
Defined.

(** Without an inhabitant [speak] does nothing: every call on a new
    vessel returns the error and leaves the vessel as it is; and
    [possess] with a name that is not a key of [AVAILABLE_MODELS] does
    the same, before it saves, reads or resets anything. *)
Theorem speak_without_inhabitant
  (svd : list NP.ndarray -> option (list R)) (get_emb : string -> NP.ndarray)
  (file : option PodsFile.document) (turns : list VesselCore.turn_input) :
  VesselCore.speaks svd get_emb (VesselCore.init get_emb file) turns
  = Ok (VesselCore.init get_emb file, map (fun _ => None) turns)
  /\ forall (prior : option RhythmStore.signature) (new_sid now_iso m : string)
            (s : VesselCore.t),
       ~ In m VesselCore.AVAILABLE_MODELS ->
       VesselCore.possess prior new_sid now_iso s m = Ok (s, None).
Proof.
  split.
  - induction turns as [| [[[msg t0] now] raw] rest IH]; [reflexivity |].
    rewrite speaks_cons.
    assert (E : VesselCore.speak svd get_emb (VesselCore.init get_emb file)
                  msg t0 now raw
                = Ok (VesselCore.init get_emb file, None)) by reflexivity.
    rewrite E. unfold bind at 1. cbn [fst snd]. rewrite IH. reflexivity.
  - intros prior new_sid now_iso m s Hnot. unfold VesselCore.possess.
    destruct (existsb (String.eqb m) VesselCore.AVAILABLE_MODELS) eqn:E;
      [| reflexivity].
    exfalso. apply Hnot. apply existsb_exists in E.
    destruct E as (x & Hx & Heq). apply String.eqb_eq in Heq. subst x. exact Hx.
Qed.

(** When [get_emb] changes the dimension of its answer in the middle of
    a session (the fallback of 64 entries after embeddings of the model,
    or the reverse), [speak] raises: the difference with the last stored
    embedding does not broadcast, and the [ValueError] of numpy leaves
    [Fatigue.update] and [speak]. *)
Theorem speak_dimension_switch_raises
  (svd : list NP.ndarray -> option (list R)) (get_emb : string -> NP.ndarray)
  (s : VesselCore.t) (last : NP.ndarray) (msg : string) (t0 now : R)
  (raw : string) :
  VesselCore.inhabited s = true ->
  neg_index (Fatigue.e (VesselCore.fatigue s)) 1 = Ok last ->
  List.length (get_emb msg) <> List.length last ->
  List.length (get_emb msg) <> 1%nat ->
  List.length last <> 1%nat ->
  Fatigue.update (VesselCore.fatigue s) (get_emb msg) = Raise ValueError
  /\ VesselCore.speak svd get_emb s msg t0 now raw = Raise ValueError.
Proof.
  intros Hinh Hlast Hne H1 H2.
  assert (Esub : NP.sub (get_emb msg) last = Raise ValueError).
  { unfold NP.sub, NP.broadcast.
    destruct (Nat.eqb_spec (List.length (get_emb msg)) (List.length last)) as [E | _];
      [contradiction |].
    destruct (get_emb msg) as [| x [| x' a]]; destruct last as [| y [| y' b]];
      simpl in *; try reflexivity; contradiction. }
  assert (Eup : Fatigue.update (VesselCore.fatigue s) (get_emb msg)
                = Raise ValueError).
  { unfold Fatigue.update.
    destruct (Fatigue.e (VesselCore.fatigue s)) as [| y l] eqn:Ee;
      [discriminate Hlast |].
    rewrite Hlast. unfold bind at 2. rewrite Esub. reflexivity. }
  split; [exact Eup |].
  unfold VesselCore.speak. rewrite Hinh. simpl negb. cbv iota. cbv zeta.
  rewrite Eup. reflexivity.
Qed.

Lemma speak_dimension_switch_raises_witness :
  VesselCore.speak (fun _ => None) (fun _ => [1; 0; 0])
    (VesselCore.mk (Some "llama3"%string) (Some "20260101_000000"%string)
       (Fatigue.mk 5 [[1; 0]] []) PulseEstimator.init DirectionTracker.init
       Pods.init (RhythmStore.init "vessel_data/ledgers") 1)
    "hello" 0 0 "answer"
  = Raise ValueError.
Proof.
  refine (proj2 (speak_dimension_switch_raises (fun _ => None)
                   (fun _ => [1; 0; 0])
                   (VesselCore.mk (Some "llama3"%string)
                      (Some "20260101_000000"%string)
                      (Fatigue.mk 5 [[1; 0]] []) PulseEstimator.init
                      DirectionTracker.init Pods.init
                      (RhythmStore.init "vessel_data/ledgers") 1)
                   [1; 0] "hello" 0 0 "answer" _ _ _ _ _)).
  - reflexivity.
  - reflexivity.
  - simpl. lia.
  - simpl. lia.
  - simpl. lia.
Defined.

(** ** [Vessel.possess] after a session *)


(** [possess] with a model of [AVAILABLE_MODELS] and a prior signature
    that can be rendered returns, whatever the vessel holds: saving the
    rhythm of the session that ends does not raise. *)
Lemma possess_defined (prior : option RhythmStore.signature)
  (new_sid now_iso : string) (s : VesselCore.t) (m : string) :
  In m VesselCore.AVAILABLE_MODELS ->
  renders prior ->
  VesselCore.possess prior new_sid now_iso s m
  = Ok ({| VesselCore.model := Some m;
           VesselCore.sid := Some new_sid;
           VesselCore.fatigue := Fatigue.reset (VesselCore.fatigue s);
           VesselCore.pulse := PulseEstimator.reset (VesselCore.pulse s);
           VesselCore.direction := DirectionTracker.reset (VesselCore.direction s);
           VesselCore.pods := VesselCore.pods s;
           VesselCore.rhythm :=
             RhythmStore.start_session now_iso (VesselCore.rhythm s) m new_sid;
           VesselCore.turn := 0 |},
        Some new_sid).
Proof.
  intros Hin (lines & Elines).
  unfold VesselCore.possess. rewrite (known_model_listed m Hin).
  simpl negb. cbv iota.
  destruct (VesselCore.truthy (VesselCore.model s)
            && VesselCore.truthy (VesselCore.sid s)).
  - destruct (save_defined (VesselCore.rhythm s)) as (r & Er).
    rewrite Er. unfold bind at 1. rewrite Elines. reflexivity.
  - unfold bind at 1. rewrite Elines. reflexivity.
Qed.





(** ** [Scratchpad] *)

Lemma filter_id_absent (l : list Scratchpad.item) (k : string) :
  Forall (fun i => Scratchpad.id i <> k) l ->
  filter (fun i => negb (String.eqb (Scratchpad.id i) k)) l = l.
Proof.
  induction 1 as [| i l Hi HF IH]; [reflexivity |].
  simpl. apply String.eqb_neq in Hi. rewrite Hi. simpl. rewrite IH. reflexivity.
Qed.

(** The scratchpad.  [add] appends one item under the first eight
    characters of the identifier drawn and returns them.  [remove] drops
    every item with the identifier given and keeps the others in order;
    it changes nothing when no item has it, and a second call changes
    nothing.  Identifiers are prefixes, not the identifiers drawn: when
    the new one is already in use, removing the item just added removes
    the older items that share it; when it is new, [remove] undoes
    [add].  A scratchpad opened on the items of another one is that
    one. *)
Theorem scratchpad_add_remove (uuid now_iso : string) (s : Scratchpad.t)
  (content source_model note k : string) :
  let added := Scratchpad.add uuid now_iso s content source_model note in
  snd added = substring 0 8 uuid
  /\ Scratchpad.ls (fst added)
     = Scratchpad.ls s
         ++ [Scratchpad.mk_item (snd added) content source_model note now_iso]
  /\ (forall i, In i (Scratchpad.ls (Scratchpad.remove s k)) <->
                In i (Scratchpad.ls s) /\ Scratchpad.id i <> k)
  /\ Scratchpad.remove (Scratchpad.remove s k) k = Scratchpad.remove s k
  /\ (Forall (fun i => Scratchpad.id i <> k) (Scratchpad.ls s) ->
      Scratchpad.remove s k = s)
  /\ Scratchpad.remove (fst added) (snd added) = Scratchpad.remove s (snd added)
  /\ (Forall (fun i => Scratchpad.id i <> snd added) (Scratchpad.ls s) ->
      Scratchpad.remove (fst added) (snd added) = s)
  /\ Scratchpad.init (Scratchpad.path s) (Some (Scratchpad.ls s)) = s.
Proof.
  cbv zeta. unfold Scratchpad.add, Scratchpad.ls. simpl.
  split; [reflexivity |]. split; [reflexivity |].
  split.
  { intros i. rewrite filter_In. split.
    - intros [Hin Hf]. split; [exact Hin |].
      apply negb_true_iff in Hf. apply String.eqb_neq. exact Hf.
    - intros [Hin Hne]. split; [exact Hin |].
      apply negb_true_iff, String.eqb_neq. exact Hne. }
  assert (Hrm : forall l, filter (fun i => negb (String.eqb (Scratchpad.id i) k))
                            (filter (fun i => negb (String.eqb (Scratchpad.id i) k)) l)
                          = filter (fun i => negb (String.eqb (Scratchpad.id i) k)) l).
  { intros l. apply filter_id_absent, Forall_forall.
    intros i Hi. apply filter_In in Hi as [_ Hf].
    apply negb_true_iff, String.eqb_neq in Hf. exact Hf. }
  split; [unfold Scratchpad.remove; simpl; rewrite Hrm; reflexivity |].
  split.
  { intros HF. unfold Scratchpad.remove. rewrite (filter_id_absent _ _ HF).
    destruct s; reflexivity. }
  assert (Hadd : Scratchpad.remove
                   (Scratchpad.mk (Scratchpad.path s)
                      (Scratchpad.items s
                       ++ [Scratchpad.mk_item (substring 0 8 uuid) content
                             source_model note now_iso]))
                   (substring 0 8 uuid)
                 = Scratchpad.remove s (substring 0 8 uuid)).
  { unfold Scratchpad.remove. simpl. rewrite filter_app. simpl.
    rewrite String.eqb_refl. simpl. rewrite app_nil_r. reflexivity. }
  split; [exact Hadd |].
  split.
  { intros HF. rewrite Hadd. unfold Scratchpad.remove.
    rewrite (filter_id_absent _ _ HF). destruct s; reflexivity. }
  destruct s; reflexivity.
Qed.

(** ** The routes *)

Lemma listed_known_model (m : string) :
  existsb (String.eqb m) VesselCore.AVAILABLE_MODELS = true ->
  In m VesselCore.AVAILABLE_MODELS.
Proof.
  intros E. apply existsb_exists in E.
  destruct E as (x & Hx & Heq). apply String.eqb_eq in Heq. subst x. exact Hx.
Qed.

Lemma reset_dim (d : nat) (s : VesselCore.t) :
  vessel_dim d s -> vessel_dim d (Api.api_reset s).
Proof.
  intros (He & Hv & Hp & Hd & Hpods).
  unfold vessel_dim, Api.api_reset. simpl.
  split; [constructor |]. split; [constructor |].
  split; [exact Hp |]. split; [exact Hd | exact Hpods].
Qed.

Lemma handle_dim
  (svd : list NP.ndarray -> option (list R)) (get_emb : string -> NP.ndarray)
  (d : nat) (s : VesselCore.t) (r : Api.request) :
  (forall txt, List.length (get_emb txt) = d) ->
  request_ok r ->
  vessel_dim d s ->
  known_inhabitant s ->
  exists s',
    Api.handle svd get_emb s r = Ok s'
    /\ vessel_dim d s'
    /\ known_inhabitant s'
    /\ incl (map fst (Pods.p (VesselCore.pods s)))
         (map fst (Pods.p (VesselCore.pods s'))).
Proof.
  intros Hemb Hok Hdim Hknown.
  destruct r as [m prior new_sid now_iso | msg t0 now raw | pid c |].
  - unfold Api.handle.
    destruct (existsb (String.eqb m) VesselCore.AVAILABLE_MODELS) eqn:Hex.
    + pose proof (listed_known_model m Hex) as Hin.
      rewrite (possess_defined prior new_sid now_iso s m Hin Hok).
      unfold bind. cbn [fst].
      eexists. split; [reflexivity |].
      destruct Hdim as (He & Hv & Hp & Hd & Hpods).
      split.
      { unfold vessel_dim. simpl.
        split; [constructor |]. split; [constructor |].
        split; [split; exact I |]. split; [exact I | exact Hpods]. }
      split; [exact Hin | apply incl_refl].
    + unfold VesselCore.possess. rewrite Hex. simpl negb. cbv iota.
      unfold bind. cbn [fst].
      exists s. split; [reflexivity |]. split; [exact Hdim |].
      split; [exact Hknown | apply incl_refl].
  - unfold Api.handle.
    destruct (VesselCore.model s) as [m |] eqn:Hmodel.
    + assert (Hin : In m VesselCore.AVAILABLE_MODELS).
      { unfold known_inhabitant in Hknown. rewrite Hmodel in Hknown.
        exact Hknown. }
      destruct (speak_step svd get_emb d s m msg t0 now raw Hemb Hdim Hmodel Hin)
        as (s1 & mt & E & Hdim1 & Hmodel1 & _ & _ & _ & _ & _ & _ & _ & _ & _
            & _ & _ & Hkeys & _).
      rewrite E. unfold bind. cbn [fst].
      exists s1. split; [reflexivity |]. split; [exact Hdim1 |].
      split.
      { unfold known_inhabitant. rewrite Hmodel1, Hmodel. exact Hin. }
      rewrite Hkeys. apply incl_refl.
    + unfold VesselCore.speak, VesselCore.inhabited. rewrite Hmodel.
      simpl negb. cbv iota. unfold bind. cbn [fst].
      exists s. split; [reflexivity |]. split; [exact Hdim |].
      split; [exact Hknown | apply incl_refl].
  - eexists. split; [reflexivity |].
    destruct Hdim as (He & Hv & Hp & Hd & Hpods).
    split; [| split; [exact Hknown |]].
    + unfold vessel_dim, Api.api_pod. simpl.
      split; [exact He |]. split; [exact Hv |]. split; [exact Hp |].
      split; [exact Hd |].
      unfold Dict.items in *. apply dict_setitem_forall; [exact Hpods |].
      intros k'. simpl. apply Hemb.
    + unfold Api.api_pod. simpl.
      destruct (Dict.get (Pods.p (VesselCore.pods s)) pid) as [y |] eqn:Eg.
      * rewrite (dict_setitem_keys _ _ _ y Eg). apply incl_refl.
      * rewrite (dict_setitem_new _ _ _ Eg), map_app. apply incl_appl, incl_refl.
  - eexists. split; [reflexivity |].
    split; [apply reset_dim; exact Hdim |].
    split; [exact Hknown | apply incl_refl].
Qed.

(** The server, request after request.  Whatever the order of the calls
    of [/api/possess], [/api/speak], [/api/pod] and [/api/reset], and
    whatever the pods file holds, as long as [get_emb] returns embeddings
    of one dimension and every signature that [possess] finds can be
    rendered, the numeric part of no handler raises, every stored
    embedding keeps that dimension, the inhabitant stays a key of
    [AVAILABLE_MODELS], and no pod is lost. *)
Theorem api_never_raises
  (svd : list NP.ndarray -> option (list R)) (get_emb : string -> NP.ndarray)
  (d : nat) (file : option PodsFile.document) (rs : list Api.request) :
  (forall txt, List.length (get_emb txt) = d) ->
  Forall request_ok rs ->
  exists s',
    Api.serve svd get_emb (VesselCore.init get_emb file) rs = Ok s'
    /\ vessel_dim d s'
    /\ known_inhabitant s'
    /\ incl (map fst (Pods.p (PodsFile.load get_emb Pods.init file)))
         (map fst (Pods.p (VesselCore.pods s'))).
Proof.
  intros Hemb Hrs.
  assert (Hgen : forall s, vessel_dim d s -> known_inhabitant s ->
            exists s',
              Api.serve svd get_emb s rs = Ok s'
              /\ vessel_dim d s'
              /\ known_inhabitant s'
              /\ incl (map fst (Pods.p (VesselCore.pods s)))
                   (map fst (Pods.p (VesselCore.pods s')))).
  { unfold Api.serve. induction Hrs as [| r rs Hr Hrs IH]; intros s Hdim Hknown.
    - exists s. split; [reflexivity |]. split; [exact Hdim |].
      split; [exact Hknown | apply incl_refl].
    - rewrite for_each_cons.
      destruct (handle_dim svd get_emb d s r Hemb Hr Hdim Hknown)
        as (s1 & E & Hdim1 & Hknown1 & Hk1).
      rewrite E. unfold bind.
      destruct (IH s1 Hdim1 Hknown1) as (s' & E' & Hdim' & Hknown' & Hk').
      exists s'. split; [exact E' |]. split; [exact Hdim' |].
      split; [exact Hknown' |].
      eapply incl_tran; eassumption. }
  destruct (load_invariants get_emb d file Hemb) as (Hpods & _).
  apply (Hgen (VesselCore.init get_emb file)); [| exact I].
  unfold vessel_dim. simpl.
  split; [constructor |]. split; [constructor |].
  split; [split; exact I |]. split; [exact I | exact Hpods].
Qed.

Lemma api_never_raises_witness :
  exists s',
    Api.serve (fun _ => None) (fun _ => [1; 0])
      (VesselCore.init (fun _ => [1; 0])
         (Some [("a"%string, ("A"%string, Pods.latent))]))
      [Api.speak "early" 0 0 "answer";
       Api.possess "llama3" None "20260101_000000" "2026-01-01T00:00:00";
       Api.pod "b" "B";
       Api.speak "hello" 1 1 "answer";
       Api.reset;
       Api.speak "again" 2 2 "answer"]
    = Ok s'
    /\ vessel_dim 2 s'.
Proof.
  destruct (api_never_raises (fun _ => None) (fun _ => [1; 0]) 2
              (Some [("a"%string, ("A"%string, Pods.latent))])
              [Api.speak "early" 0 0 "answer";
               Api.possess "llama3" None "20260101_000000" "2026-01-01T00:00:00";
               Api.pod "b" "B";
               Api.speak "hello" 1 1 "answer";
               Api.reset;
               Api.speak "again" 2 2 "answer"])
    as (s' & E & Hdim & _).
  - intros txt. reflexivity.
  - constructor; [exact I |].
    constructor; [exists []; reflexivity |].
    repeat (constructor; [exact I |]). constructor.
  - exists s'. split; [exact E | exact Hdim].
Defined.

(** [/api/reset] in the middle of a session resets the fatigue window
    and the turn counter, and nothing else: the next turn is numbered 1
    again, while the rhythm keeps the samples of the turns before, so
    that the turn numbers of its samples repeat; the pulse estimator
    goes on from its state, and the fatigue window holds the new
    embedding alone. *)
Theorem api_reset_repeats_turns
  (svd : list NP.ndarray -> option (list R)) (get_emb : string -> NP.ndarray)
  (d : nat) (file : option PodsFile.document)
  (prior : option RhythmStore.signature) (m new_sid now_iso : string)
  (turns : list VesselCore.turn_input) (msg : string) (t0 now : R)
  (raw : string) :
  (forall txt, List.length (get_emb txt) = d) ->
  In m VesselCore.AVAILABLE_MODELS ->
  renders prior ->
  exists s0 s1 metas s2 mt,
    VesselCore.possess prior new_sid now_iso (VesselCore.init get_emb file) m
    = Ok (s0, Some new_sid)
    /\ VesselCore.speaks svd get_emb s0 turns = Ok (s1, map Some metas)
    /\ VesselCore.speak svd get_emb (Api.api_reset s1) msg t0 now raw
       = Ok (s2, Some mt)
    /\ VesselCore.m_turn mt = 1%nat
    /\ map RhythmStore.turn (RhythmStore.samples (VesselCore.rhythm s2))
       = seq 1 (List.length turns) ++ [1%nat]
    /\ PulseEstimator.update (VesselCore.pulse s1) msg (get_emb msg) t0
       = Ok (VesselCore.pulse s2, VesselCore.m_tau_h mt)
    /\ VesselCore.fatigue s2 = Fatigue.calls (Fatigue.init 5) [get_emb msg].
Proof.
  intros Hemb Hin Hprior.
  destruct (possess_known get_emb prior new_sid now_iso file m d Hemb Hin Hprior)
    as (s0 & E0 & Hdim & Hmodel0 & Hturn0 & Hfat0 & _ & _ & _ & Hsamples & _).
  destruct (speaks_from svd get_emb d turns Hemb s0 m Hdim Hmodel0 Hin)
    as (s1 & metas & new & Es & Hdim1 & Hmodel & _ & _ & _
        & Esamples & Hnew & _ & _ & _ & _ & Efat & _).
  rewrite Hsamples, app_nil_l in Esamples. rewrite Hturn0 in Hnew.
  pose proof (reset_dim d s1 Hdim1) as Hdimr.
  assert (Hmodelr : VesselCore.model (Api.api_reset s1) = Some m).
  { simpl. congruence. }
  destruct (speak_step svd get_emb d (Api.api_reset s1) m msg t0 now raw
              Hemb Hdimr Hmodelr Hin)
    as (s2 & mt & E & _ & _ & _ & _ & Hmt & _ & _ & Efat2 & Epu & _ & _
        & (sm & Esm & Hsmturn & _) & _).
  exists s0, s1, metas, s2, mt.
  split; [exact E0 |].
  split; [exact Es |]. split; [exact E |]. split; [exact Hmt |].
  split.
  { rewrite Esm. simpl RhythmStore.samples. rewrite Esamples, map_app, Hnew.
    simpl map. rewrite Hsmturn. reflexivity. }
  split; [exact Epu |].
  simpl VesselCore.fatigue in Efat2.
  assert (Hw : Fatigue.reset (VesselCore.fatigue s1) = Fatigue.init 5).
  { rewrite Efat, Hfat0. unfold Fatigue.calls, Fatigue.reset.
    rewrite fatigue_run_w. reflexivity. }
  rewrite Hw in Efat2.
  assert (Hc : Fatigue.call (Fatigue.init 5) (Fatigue.Update (get_emb msg))
               = VesselCore.fatigue s2).
  { unfold Fatigue.call. rewrite Efat2. reflexivity. }
  unfold Fatigue.calls, Fatigue.run. cbn [map fold_left]. rewrite Hc.
  reflexivity.
Qed.

Lemma api_reset_repeats_turns_witness :
  exists s0 s1 metas s2 mt,
    VesselCore.possess None "20260101_000000" "2026-01-01T00:00:00"
      (VesselCore.init (fun _ => [1; 0]) None) "llama3"
    = Ok (s0, Some "20260101_000000"%string)
    /\ VesselCore.speaks (fun _ => None) (fun _ => [1; 0]) s0
         [("hello"%string, 0, 0, "answer"%string)]
       = Ok (s1, map Some metas)
    /\ VesselCore.speak (fun _ => None) (fun _ => [1; 0]) (Api.api_reset s1)
         "again" 1 1 "answer"
       = Ok (s2, Some mt)
    /\ map RhythmStore.turn (RhythmStore.samples (VesselCore.rhythm s2))
       = [1%nat; 1%nat].
Proof.
  destruct (api_reset_repeats_turns (fun _ => None) (fun _ => [1; 0]) 2
              None None "llama3" "20260101_000000" "2026-01-01T00:00:00"
              [("hello"%string, 0, 0, "answer"%string)] "again" 1 1 "answer")
    as (s0 & s1 & metas & s2 & mt & E0 & E1 & E2 & _ & Hturns & _).
  - intros txt. reflexivity.
  - left. reflexivity.
  - exists []. reflexivity.
  - exists s0, s1, metas, s2, mt. split; [exact E0 |]. split; [exact E1 |].
    split; [exact E2 |]. exact Hturns.
Defined.
